(** * Game-theory simulation core: a shallow embedding

    The development follows the Python sources
      src/agents/types.py, src/agents/base_agent.py,
      src/game_theory/payoff.py, src/game_theory/strategies.py,
      src/game_theory/games.py, src/agents/coordinator.py,
      src/agents/game_agents.py, and of src/utils/conversation_tracker.py
      the method [record_turn].

    Conventions of the embedding.
    - Python floats are read as exact rationals ([Q]); the program
      computes on IEEE 754 doubles.  Leibniz equality [=] of two terms
      says that they are built by the same operations in the same order,
      which is as true of the doubles; [==] ([Qeq]) is equality in exact
      arithmetic.  Where rounding decides a claim, the arithmetic of the
      code is also given on binary64 floats.
    - [trust_scores] (a dict whose iteration order is never observed) is a
      [gmap string Q]; the dicts of the games, whose insertion order is
      observed by [max] and by [.items()], are association lists with
      Python's update-in-place / append-at-end behaviour.
    - A raised exception is a value of [Result]; loops are folds.
    - The agents of a list of participants are values: the list is read
      as holding distinct objects.  A list that holds one object twice
      (which takes a caller that lists an agent twice) is outside the
      model.
    - [make_decision], the abstract method of [BaseGameAgent], is a
      parameter of the games, and so is what they read of the global
      conversation tracker.
      Logging only writes to external sinks and is left out. *)

From Stdlib Require Import QArith Qminmax Lqa PrimFloat.
From stdpp Require Import gmap strings list fin_maps pretty.

Open Scope Q_scope.

(** ** src/agents/types.py *)

Inductive AgentAction :=
  | COOPERATE
  | DEFECT
  | SHARE_KNOWLEDGE
  | WITHHOLD_KNOWLEDGE.

Global Instance AgentAction_eq_dec : EqDecision AgentAction.
Proof. solve_decision. Defined.

(** [action in [AgentAction.COOPERATE, AgentAction.SHARE_KNOWLEDGE]] *)
Definition is_cooperative (a : AgentAction) : bool :=
  match a with
  | COOPERATE | SHARE_KNOWLEDGE => true
  | DEFECT | WITHHOLD_KNOWLEDGE => false
  end.

Record GameDecision := mkDecision {
  action : AgentAction;
  reasoning : string;
  confidence : Q;
  knowledge_to_share : option (list string)
}.

(** ** Comparisons and slices on rationals and lists *)

(** [x < y] and [x > y] on floats, as booleans. *)
Definition Qltb (x y : Q) : bool :=
  match x ?= y with Lt => true | _ => false end.
Definition Qgtb (x y : Q) : bool := Qltb y x.

(** [sum(l)]: Python adds from the left, starting at 0. *)
Definition Qsum (l : list Q) : Q := fold_left Qplus l 0.

(** [l[-n:]]: the last [n] elements (the whole list when it is shorter). *)
Definition last_n {A} (n : nat) (l : list A) : list A :=
  drop (length l - n) l.

(** [len(l)] as a float operand. *)
Definition Qlen {A} (l : list A) : Q := inject_Z (Z.of_nat (length l)).

(** ** src/agents/base_agent.py: AgentState *)

Record AgentState := mkState {
  trust_scores : gmap string Q;
  knowledge_base : list string;
  cooperation_history : list (string * AgentAction);
  payoff_history : list Q;
  reputation : Q
}.

(** [AgentState()] *)
Definition initial_state : AgentState :=
  mkState ∅ [] [] [] 0.5.

(** [AgentState.update_trust(agent_id, cooperation, decay_rate)] *)
Definition update_trust (st : AgentState) (agent_id : string)
    (cooperation : bool) (decay_rate : Q) : AgentState :=
  (* if agent_id not in self.trust_scores: self.trust_scores[agent_id] = 0.5 *)
  let t0 :=
    match trust_scores st !! agent_id with
    | Some _ => trust_scores st
    | None => <[agent_id := 0.5]> (trust_scores st)
    end in
  let old := default 0.5 (t0 !! agent_id) in
  let t1 :=
    if cooperation
    then <[agent_id := Qmin 1 (old + 0.1)]> t0
    else <[agent_id := Qmax 0 (old - 0.2)]> t0 in
  (* for agent in self.trust_scores: if agent != agent_id: ... *= 1 - decay *)
  let t2 :=
    map_imap (λ agent v,
      Some (if decide (agent ≠ agent_id) then v * (1 - decay_rate) else v)) t1 in
  mkState t2 (knowledge_base st) (cooperation_history st)
          (payoff_history st) (reputation st).

(** The default [decay_rate=0.1] of [update_trust]. *)
Definition default_decay_rate : Q := 0.1.

(** ** Exceptions and results *)

Inductive exn :=
  | ValueError (msg : string)
  | KeyError (key : string)
  | ZeroDivisionError
  | DecisionError (msg : string).

Inductive Result (A : Type) :=
  | Ok (a : A)
  | Raise (e : exn).
Arguments Ok {A} a.
Arguments Raise {A} e.

Global Instance Result_ret : MRet Result := λ A a, Ok a.
Global Instance Result_bind : MBind Result := λ A B k r,
  match r with
  | Ok a => k a
  | Raise e => Raise e
  end.

(** A loop whose body may raise: [for x in l: acc = f(acc, x)]. *)
Fixpoint foldM {A B} (f : B → A → Result B) (l : list A) (b : B) : Result B :=
  match l with
  | [] => Ok b
  | x :: l' => b' ← f b x; foldM f l' b'
  end.

(** ** Python dicts whose insertion order is observed *)

Abbreviation Dict V := (list (string * V)).

(** [d.get(k)] *)
Fixpoint dict_lookup {V} (d : Dict V) (k : string) : option V :=
  match d with
  | [] => None
  | (k', v) :: d' => if decide (k' = k) then Some v else dict_lookup d' k
  end.

(** [d[k]] *)
Definition dict_get {V} (d : Dict V) (k : string) : Result V :=
  match dict_lookup d k with
  | Some v => Ok v
  | None => Raise (KeyError k)
  end.

(** [d[k] = v]: an existing key keeps its position, a new key goes last. *)
Fixpoint dict_set {V} (d : Dict V) (k : string) (v : V) : Dict V :=
  match d with
  | [] => [(k, v)]
  | (k', v') :: d' =>
      if decide (k' = k) then (k, v) :: d' else (k', v') :: dict_set d' k v
  end.

Definition dict_keys {V} (d : Dict V) : list string := d.*1.
Definition dict_values {V} (d : Dict V) : list V := d.*2.

(** [{key(x): val(x) for x in l}] *)
Definition dict_of {A V} (key : A → string) (val : A → V) (l : list A) : Dict V :=
  fold_left (λ d x, dict_set d (key x) (val x)) l [].

(** ** src/agents/base_agent.py: BaseGameAgent *)

Record BaseGameAgent := mkAgent {
  name : string;
  strategy : string;
  cooperation_threshold : Q;
  trust_threshold : Q;
  state : AgentState
}.

Definition set_state (a : BaseGameAgent) (st : AgentState) : BaseGameAgent :=
  mkAgent (name a) (strategy a) (cooperation_threshold a) (trust_threshold a) st.

(** [BaseGameAgent.update_state(opponent_id, opponent_action, payoff, my_action)] *)
Definition update_state (a : BaseGameAgent) (opponent_id : string)
    (opponent_action : AgentAction) (payoff : Q) (my_action : AgentAction)
    : BaseGameAgent :=
  let cooperation := is_cooperative opponent_action in
  let st1 := update_trust (state a) opponent_id cooperation default_decay_rate in
  let coop_hist := cooperation_history st1 ++ [(opponent_id, opponent_action)] in
  let pay_hist := payoff_history st1 ++ [payoff] in
  (* len(payoff_history) > 0 holds after the append *)
  let rep :=
    match pay_hist with
    | [] => reputation st1
    | _ =>
        let avg_payoff :=
          Qsum (last_n 10 pay_hist)
          / inject_Z (Z.of_nat (Nat.min 10 (length pay_hist))) in
        Qmax 0 (Qmin 1 (avg_payoff / 5))
    end in
  set_state a (mkState (trust_scores st1) (knowledge_base st1) coop_hist pay_hist rep).

(** [BaseGameAgent.get_trust_score(agent_id)] *)
Definition get_trust_score (a : BaseGameAgent) (agent_id : string) : Q :=
  default 0.5 (trust_scores (state a) !! agent_id).

(** Truth value of an [Optional[str]]: [None] and the empty string are false. *)
Definition str_truthy (s : option string) : bool :=
  match s with
  | Some s' => if decide (s' = "") then false else true
  | None => false
  end.

(** The number of cooperative actions, [sum(1 for a in l if a in [...])]. *)
Definition count_cooperative (l : list AgentAction) : nat :=
  length (filter (λ a, is_cooperative a = true) l).

(** [BaseGameAgent.get_cooperation_rate(agent_id=None)] *)
Definition get_cooperation_rate (a : BaseGameAgent) (agent_id : option string) : Q :=
  match cooperation_history (state a) with
  | [] => 0.5
  | hist =>
      let agent_actions :=
        if str_truthy agent_id
        then (filter (λ p, Some p.1 = agent_id) hist).*2
        else hist.*2 in
      match agent_actions with
      | [] => 0.5
      | _ => inject_Z (Z.of_nat (count_cooperative agent_actions)) / Qlen agent_actions
      end
  end.

(** The loop of [share_knowledge] on the knowledge base itself. *)
Definition add_knowledge (kb : list string) (knowledge : list string) : list string :=
  fold_left (λ kb item, if decide (item ∈ kb) then kb else kb ++ [item]) knowledge kb.

(** [BaseGameAgent.share_knowledge(knowledge)] *)
Definition share_knowledge (a : BaseGameAgent) (knowledge : list string)
    : BaseGameAgent :=
  let st := state a in
  set_state a (mkState (trust_scores st) (add_knowledge (knowledge_base st) knowledge)
                       (cooperation_history st) (payoff_history st) (reputation st)).

(** ** src/game_theory/payoff.py *)

Record RewardMatrix := mkRewardMatrix {
  cooperate_cooperate : Q * Q;
  cooperate_defect : Q * Q;
  defect_cooperate : Q * Q;
  defect_defect : Q * Q
}.

(** [RewardMatrix.prisoner_dilemma()] *)
Definition prisoner_dilemma : RewardMatrix :=
  mkRewardMatrix (3, 3) (0, 5) (5, 0) (1, 1).

(** [RewardMatrix.get_payoffs(action1, action2)] *)
Definition get_payoffs (rm : RewardMatrix) (action1 action2 : AgentAction) : Q * Q :=
  let coop1 := is_cooperative action1 in
  let coop2 := is_cooperative action2 in
  if coop1 && coop2 then cooperate_cooperate rm
  else if coop1 && negb coop2 then cooperate_defect rm
  else if negb coop1 && coop2 then defect_cooperate rm
  else defect_defect rm.

(** [PayoffCalculator]: its only field is the reward matrix. *)
Record PayoffCalculator := mkPayoffCalculator {
  calc_reward_matrix : RewardMatrix
}.

Definition calculate_round_payoffs (pc : PayoffCalculator)
    (agent1_action agent2_action : AgentAction) : Q * Q :=
  get_payoffs (calc_reward_matrix pc) agent1_action agent2_action.

Definition calculate_cumulative_payoffs (pc : PayoffCalculator)
    (history : list (AgentAction * AgentAction)) : Q * Q :=
  fold_left (λ tot h,
    let '(payoff1, payoff2) := calculate_round_payoffs pc h.1 h.2 in
    (tot.1 + payoff1, tot.2 + payoff2)) history (0, 0).

Definition calculate_average_payoffs (pc : PayoffCalculator)
    (history : list (AgentAction * AgentAction)) : Q * Q :=
  match history with
  | [] => (0, 0)
  | _ =>
      let '(total1, total2) := calculate_cumulative_payoffs pc history in
      (total1 / Qlen history, total2 / Qlen history)
  end.

(** [PayoffCalculator.calculate_cooperation_rate(actions)] *)
Definition calculate_cooperation_rate (actions : list AgentAction) : Q :=
  match actions with
  | [] => 0
  | _ => inject_Z (Z.of_nat (count_cooperative actions)) / Qlen actions
  end.

Definition calculate_mutual_cooperation_rate
    (history : list (AgentAction * AgentAction)) : Q :=
  match history with
  | [] => 0
  | _ =>
      let mutual_cooperation :=
        length (filter (λ h, is_cooperative h.1 && is_cooperative h.2 = true) history) in
      inject_Z (Z.of_nat mutual_cooperation) / Qlen history
  end.

Definition calculate_exploitation_rate
    (history : list (AgentAction * AgentAction)) (player : Z) : Q :=
  match history with
  | [] => 0
  | _ =>
      let exploitation_count :=
        length (filter (λ h,
          let '(my_action, other_action) :=
            if decide (player = 1%Z) then (h.1, h.2) else (h.2, h.1) in
          negb (is_cooperative my_action) && is_cooperative other_action = true)
          history) in
      inject_Z (Z.of_nat exploitation_count) / Qlen history
  end.

Definition calculate_pareto_efficiency
    (history : list (AgentAction * AgentAction)) : Q :=
  match history with
  | [] => 0
  | _ =>
      let pareto_optimal_count :=
        length (filter (λ h, is_cooperative h.1 && is_cooperative h.2 = true) history) in
      inject_Z (Z.of_nat pareto_optimal_count) / Qlen history
  end.

(** The per-agent entry of [analyze_game_outcomes]. *)
Record AgentOutcome := mkAgentOutcome {
  total_payoff : Q;
  average_payoff : Q;
  cooperation_rate : Q;
  exploitation_rate : Q
}.

(** The dict returned by [analyze_game_outcomes], one field per key. *)
Record GameAnalysis := mkGameAnalysis {
  total_rounds : nat;
  mutual_cooperation_rate : Q;
  pareto_efficiency : Q;
  agent1_outcome : string * AgentOutcome;
  agent2_outcome : string * AgentOutcome;
  payoff_difference : Q;
  cooperation_difference : Q;
  analysis_winner : string
}.

(** [PayoffCalculator.analyze_game_outcomes]; [None] is the
    [{"error": "No game history provided"}] answer. *)
Definition analyze_game_outcomes (pc : PayoffCalculator)
    (history : list (AgentAction * AgentAction))
    (agent1_name agent2_name : string) : option GameAnalysis :=
  match history with
  | [] => None
  | _ =>
      let '(total1, total2) := calculate_cumulative_payoffs pc history in
      let '(avg1, avg2) := calculate_average_payoffs pc history in
      let actions1 := history.*1 in
      let actions2 := history.*2 in
      let coop_rate1 := calculate_cooperation_rate actions1 in
      let coop_rate2 := calculate_cooperation_rate actions2 in
      Some (mkGameAnalysis
        (length history)
        (calculate_mutual_cooperation_rate history)
        (calculate_pareto_efficiency history)
        (agent1_name,
         mkAgentOutcome total1 avg1 coop_rate1 (calculate_exploitation_rate history 1))
        (agent2_name,
         mkAgentOutcome total2 avg2 coop_rate2 (calculate_exploitation_rate history 2))
        (total1 - total2)
        (coop_rate1 - coop_rate2)
        (if Qgtb total1 total2 then agent1_name
         else if Qgtb total2 total1 then agent2_name else "Tie"))
  end.

(** ** src/game_theory/strategies.py *)

Module Strategies.

(** The fields of [BaseStrategy] together with those [Adaptive] adds. *)
Record Adaptive := mkAdaptive {
  history : list AgentAction;
  opponent_history : list AgentAction;
  payoff_history : list Q;
  learning_rate : Q;
  exploration_rate : Q;
  cooperation_threshold : Q;
  cooperation_probability : Q
}.

(** [Adaptive(learning_rate, exploration_rate, cooperation_threshold)] *)
Definition new_adaptive (learning_rate exploration_rate cooperation_threshold : Q)
    : Adaptive :=
  mkAdaptive [] [] [] learning_rate exploration_rate cooperation_threshold 0.5.

Definition set_cooperation_probability (s : Adaptive) (p : Q) : Adaptive :=
  mkAdaptive (history s) (opponent_history s) (payoff_history s)
             (learning_rate s) (exploration_rate s) (cooperation_threshold s) p.

(** [BaseStrategy.update_history(my_action, opponent_action, my_payoff)] *)
Definition update_history (s : Adaptive) (my_action opponent_action : AgentAction)
    (my_payoff : Q) : Adaptive :=
  mkAdaptive (history s ++ [my_action]) (opponent_history s ++ [opponent_action])
             (payoff_history s ++ [my_payoff])
             (learning_rate s) (exploration_rate s) (cooperation_threshold s)
             (cooperation_probability s).

(** The values the [random] module hands to one call of [decide]: the two
    [random.random()] draws and the [random.choice] between the actions. *)
Record Draws := mkDraws {
  explore_draw : Q;
  explore_choice : AgentAction;
  decide_draw : Q
}.

(** The average of the last five own payoffs (the history is non-empty
    where the code computes it). *)
Definition recent_avg_payoff (s : Adaptive) : Q :=
  let recent_payoffs := last_n 5 (payoff_history s) in
  Qsum recent_payoffs / Qlen recent_payoffs.

(** The opponent's cooperation rate over the last five opponent actions. *)
Definition opponent_cooperation_rate (s : Adaptive) : Q :=
  let recent_opponent_actions := last_n 5 (opponent_history s) in
  inject_Z (Z.of_nat (count_cooperative recent_opponent_actions))
  / Qlen recent_opponent_actions.

(** The part of [Adaptive.decide] that runs when [round_number != 0], up
    to and including the clamp: the new [cooperation_probability]. *)
Definition adapt_probability (s : Adaptive) : Q :=
  let p := cooperation_probability s in
  let p1 :=
    match payoff_history s with
    | [] => p
    | _ =>
        let avg_payoff := recent_avg_payoff s in
        if Qgtb avg_payoff 3 then p + learning_rate s * 0.1
        else if Qltb avg_payoff 2 then
          match opponent_history s with
          | [] => p
          | _ =>
              let adjustment :=
                (opponent_cooperation_rate s - 0.5) * learning_rate s in
              p + adjustment
          end
        else p
    end in
  Qmax 0 (Qmin 1 p1).

(** [Adaptive.decide(round_number, opponent_last_action, game_context)]:
    the action returned and the strategy object after the call. *)
Definition decide (s : Adaptive) (round_number : Z)
    (opponent_last_action : option AgentAction) (rnd : Draws)
    : AgentAction * Adaptive :=
  if decide (round_number = 0%Z) then (COOPERATE, s)
  else
    let s' := set_cooperation_probability s (adapt_probability s) in
    if Qltb (explore_draw rnd) (exploration_rate s') then (explore_choice rnd, s')
    else if Qltb (decide_draw rnd) (cooperation_probability s') then (COOPERATE, s')
    else (DEFECT, s').

(** What the specification says the update is: raise by
    [learning_rate * 0.1] when the trailing average exceeds 3.0, otherwise
    move by the opponent's trailing cooperation rate (centred at 0.5)
    scaled by [learning_rate]; clamp afterwards.  Written from the words of
    the specification, for comparison with [adapt_probability].  (Reading
    "toward the rate" as a step of [(rate - p) * learning_rate] instead
    gives the same value wherever [p = 0.5].) *)
Definition spec_adapt_probability (s : Adaptive) : Q :=
  let p := cooperation_probability s in
  let p1 :=
    if Qgtb (recent_avg_payoff s) 3 then p + learning_rate s * 0.1
    else p + (opponent_cooperation_rate s - 0.5) * learning_rate s in
  Qmax 0 (Qmin 1 p1).

End Strategies.

(** ** src/game_theory/games.py: data *)

Inductive GameType :=
  | PRISONERS_DILEMMA
  | PUBLIC_GOODS
  | KNOWLEDGE_SHARING
  | COORDINATION.

Global Instance GameType_eq_dec : EqDecision GameType.
Proof. solve_decision. Defined.

(** [additional_metrics], one constructor per game. *)
Inductive Metrics :=
  | PDMetrics (game_analysis : option GameAnalysis)
  | PGMetrics (total_welfare average_contribution_rate : Q)
              (contribution_history : list (Dict Q))
  | KSMetrics (total_knowledge_shared : nat) (final_knowledge_counts : Dict nat)
              (average_sharing_rate : Q).

Record GameResult := mkGameResult {
  game_type : GameType;
  participants : list string;
  rounds : nat;
  actions_history : list (string * AgentAction);
  payoffs : Dict Q;
  cooperation_rates : Dict Q;
  winner : option string;
  additional_metrics : Metrics
}.

(** The state every game inherits from [BaseGame]. *)
Record BaseGame := mkBaseGame {
  round_number : nat;
  results_history : list GameResult
}.

(** [BaseGame.__init__] *)
Definition new_base : BaseGame := mkBaseGame 0 [].

(** A subclass of [BaseGame]: it carries the inherited state. *)
Class Game (G : Type) := {
  base : G → BaseGame;
  with_base : G → BaseGame → G
}.

(** [BaseGame.reset()]; no game overrides it. *)
Definition reset {G} `{Game G} (g : G) : G :=
  with_base g (mkBaseGame 0 []).

(** [self.round_number += 1] *)
Definition next_round {G} `{Game G} (g : G) : G :=
  with_base g (mkBaseGame (S (round_number (base g))) (results_history (base g))).

(** [self.results_history.append(result)] *)
Definition record_result {G} `{Game G} (g : G) (r : GameResult) : G :=
  with_base g (mkBaseGame (round_number (base g)) (results_history (base g) ++ [r])).

Record PrisonersDilemma := mkPD {
  pd_base : BaseGame;
  reward_matrix : RewardMatrix;
  game_history : list (AgentAction * AgentAction)
}.

Record PublicGoodsGame := mkPG {
  pg_base : BaseGame;
  multiplier : Q;
  endowment : Q;
  contribution_history : list (Dict Q)
}.

Record KnowledgeSharingGame := mkKS {
  ks_base : BaseGame;
  knowledge_value : Q;
  sharing_cost : Q
}.

Global Instance PrisonersDilemma_game : Game PrisonersDilemma := {|
  base := pd_base;
  with_base g b := mkPD b (reward_matrix g) (game_history g)
|}.

Global Instance PublicGoodsGame_game : Game PublicGoodsGame := {|
  base := pg_base;
  with_base g b := mkPG b (multiplier g) (endowment g) (contribution_history g)
|}.

Global Instance KnowledgeSharingGame_game : Game KnowledgeSharingGame := {|
  base := ks_base;
  with_base g b := mkKS b (knowledge_value g) (sharing_cost g)
|}.

(** [PrisonersDilemma(reward_matrix=None)] *)
Definition new_PrisonersDilemma (rm : option RewardMatrix) : PrisonersDilemma :=
  mkPD new_base (default prisoner_dilemma rm) [].

(** [PublicGoodsGame(multiplier=2.0, endowment=10.0)] *)
Definition new_PublicGoodsGame (multiplier endowment : Q) : PublicGoodsGame :=
  mkPG new_base multiplier endowment [].

(** [KnowledgeSharingGame(knowledge_value=2.0, sharing_cost=0.5)] *)
Definition new_KnowledgeSharingGame (knowledge_value sharing_cost : Q)
    : KnowledgeSharingGame :=
  mkKS new_base knowledge_value sharing_cost.

(** [self.knowledge_pool]; the constructor sets it and nothing changes it. *)
Definition knowledge_pool : list string :=
  [ "Advanced algorithm optimization"; "Market trend analysis";
    "Resource allocation strategy"; "Communication protocol";
    "Problem-solving framework"; "Collaboration technique";
    "Decision-making model"; "Trust evaluation method" ].

Definition payoff_calculator (g : PrisonersDilemma) : PayoffCalculator :=
  mkPayoffCalculator (reward_matrix g).

(** The round records the three [play_round] methods return. *)
Record PDRound := mkPDRound {
  pd_round : nat;
  pd_actions : Dict AgentAction;
  pd_decisions : Dict GameDecision;
  pd_payoffs : Dict Q;
  pd_knowledge_shared : Dict (list string)
}.

Record PGRound := mkPGRound {
  pg_round : nat;
  pg_contributions : Dict Q;
  pg_total_contributions : Q;
  pg_public_pool : Q;
  pg_payoffs : Dict Q;
  pg_decisions : Dict GameDecision
}.

Record KSRound := mkKSRound {
  ks_round : nat;
  ks_decisions : Dict GameDecision;
  ks_knowledge_shared : Dict (list string);
  ks_knowledge_received : Dict (list string);
  ks_payoffs : Dict Q
}.

(** [x / y] where the code does not guard the divisor. *)
Definition qdiv (x y : Q) : Result Q :=
  if Qeq_bool y 0 then Raise ZeroDivisionError else Ok (x / y).

(** [knowledge_to_share or []] *)
Definition or_empty (k : option (list string)) : list string := default [] k.

(** Truth value of a list: [if l:]. *)
Definition nonempty {A} (l : list A) : bool :=
  match l with [] => false | _ => true end.

(** [max(d.keys(), key=lambda k: d[k])]: the first key whose value no later
    value exceeds; [ValueError] on the empty dict. *)
Definition max_key (d : Dict Q) : Result string :=
  match d with
  | [] => Raise (ValueError "max() arg is an empty sequence")
  | kv :: d' =>
      Ok (fold_left (λ best kv', if Qgtb kv'.2 best.2 then kv' else best) d' kv).1
  end.

(** [total[k] += v] *)
Definition dict_iadd (total : Dict Q) (k : string) (v : Q) : Result (Dict Q) :=
  old ← dict_get total k; Ok (dict_set total k (old + v)).

(** A loop over the agents in which each pass changes only its own agent
    and may raise; on a raise the agents already passed keep their change. *)
Fixpoint for_each_agent (body : BaseGameAgent → Result BaseGameAgent)
    (agents : list BaseGameAgent) : Result () * list BaseGameAgent :=
  match agents with
  | [] => (Ok (), [])
  | a :: rest =>
      match body a with
      | Ok a' =>
          let '(r, rest') := for_each_agent body rest in (r, a' :: rest')
      | Raise e => (Raise e, a :: rest)
      end
  end.

(** [for _ in range(num_rounds): round_results.append(play_round(...))] *)
Fixpoint play_rounds {G R}
    (play_round : G → list BaseGameAgent → Result R * (G * list BaseGameAgent))
    (num_rounds : nat) (g : G) (agents : list BaseGameAgent)
    : Result (list R) * (G * list BaseGameAgent) :=
  match num_rounds with
  | O => (Ok [], (g, agents))
  | S n =>
      match play_round g agents with
      | (Ok r, (g', agents')) =>
          match play_rounds play_round n g' agents' with
          | (Ok rs, st) => (Ok (r :: rs), st)
          | (Raise e, st) => (Raise e, st)
          end
      | (Raise e, st) => (Raise e, st)
      end
  end.

(** [for name, payoff in round["payoffs"].items(): total[name] += payoff],
    over all rounds. *)
Definition accumulate_payoffs (round_payoffs : list (Dict Q)) (total : Dict Q)
    : Result (Dict Q) :=
  foldM (λ tot ps, foldM (λ t kv, dict_iadd t kv.1 kv.2) ps tot) round_payoffs total.

(** ** src/game_theory/games.py: the three games *)

Section Games.

(** The caller's [context] dict, passed on to the agents untouched. *)
Variable UserContext : Type.

(** The [game_context] each game builds for [make_decision]. *)
Inductive GameContext :=
  | PDContext (round_number : nat) (opponent_id : string)
              (reward_matrix : RewardMatrix) (context : option UserContext)
  | PGContext (round_number : nat) (endowment multiplier : Q)
              (num_players : nat) (other_agents : list string)
              (context : option UserContext)
  | KSContext (round_number : nat) (knowledge_value sharing_cost : Q)
              (other_agents : list string) (context : option UserContext).

(** [BaseGameAgent.make_decision(game_context, opponent_history)], the
    abstract method: any function of the agent, the context and the
    opponent history, possibly raising. *)
Variable make_decision :
  BaseGameAgent → GameContext → option (list AgentAction) → Result GameDecision.

(** What the games read of conversation tracking: two keys of the
    caller's context, [context.get("session_id")] (a string, [None] when
    the key is absent) and the truth value of
    [context.get("enable_conversation_tracking", False)], and the keys of
    [conversation_tracker.active_sessions], the sessions open in the global
    tracker.  The games neither open nor close a session. *)
Record Tracking := mkTracking {
  context_session_id : UserContext → option string;
  context_enable_tracking : UserContext → bool;
  active_sessions : list string
}.

Variable tracking : Tracking.

(** [random.choice(self.knowledge_pool)] in round [r] for the agent at
    position [i]: the index drawn. *)
Variable random_index : nat → nat → nat.

Definition fallback (a : AgentAction) : GameDecision :=
  mkDecision a "Error fallback" 0 None.

(** [[a.name for a in agents if a != agent]] for the agent at position [i]. *)
Definition other_names (i : nat) (agents : list BaseGameAgent) : list string :=
  name <$> delete i agents.

(** *** PrisonersDilemma *)

(** [if decision.knowledge_to_share: receiver.share_knowledge(...)] *)
Definition receive_from (d : GameDecision) (receiver : BaseGameAgent)
    : BaseGameAgent :=
  if nonempty (or_empty (knowledge_to_share d))
  then share_knowledge receiver (or_empty (knowledge_to_share d))
  else receiver.

(** The truth value of a [session_id]: [None] and the empty string count
    as false. *)
Definition truthy (session_id : option string) : bool :=
  match session_id with
  | Some s => bool_decide (s ≠ "")
  | None => false
  end.

(** [ConversationTracker.record_turn(session_id, ...)]: raises on a session
    that is not open; the turn it appends otherwise is read by no game. *)
Definition record_turn (session_id : string) : Result () :=
  if decide (session_id ∈ active_sessions tracking) then Ok ()
  else Raise (ValueError ("Session " +:+ session_id +:+ " not found")).

(** [BaseGameAgent.make_decision_with_tracking(game_context,
    opponent_history, session_id, round_number)]: of the triple returned
    (the decision, the response time and the reasoning text) the decision.
    The call changes no agent. *)
Definition make_decision_with_tracking (a : BaseGameAgent)
    (game_context : GameContext) (opponent_history : option (list AgentAction))
    (session_id : option string) (round_number : nat) : Result GameDecision :=
  decision ← make_decision a game_context opponent_history;
  if truthy session_id
  then _ ← record_turn (default "" session_id); Ok decision
  else Ok decision.

(** The [try] block of [PrisonersDilemma.play_round]: the two decisions,
    tracked when the caller's context asks for it, or the exception. *)
Definition pd_decide (context : option UserContext) (rn : nat)
    (agent1 agent2 : BaseGameAgent) (context1 context2 : GameContext)
    (agent1_history agent2_history : list AgentAction)
    : Result (GameDecision * GameDecision) :=
  let session_id := context ≫= context_session_id tracking in
  let enable_tracking :=
    from_option (context_enable_tracking tracking) false context in
  if enable_tracking && truthy session_id
  then
    decision1 ← make_decision_with_tracking agent1 context1 (Some agent2_history)
                                            session_id rn;
    decision2 ← make_decision_with_tracking agent2 context2 (Some agent1_history)
                                            session_id rn;
    Ok (decision1, decision2)
  else
    decision1 ← make_decision agent1 context1 (Some agent2_history);
    decision2 ← make_decision agent2 context2 (Some agent1_history);
    Ok (decision1, decision2).

(** [PrisonersDilemma.play_round(agents, context)].  The entries of
    [tracking_info] that the tracked branch adds to the round record
    (reasoning texts and response times) are left out of [PDRound]. *)
Definition pd_play_round (context : option UserContext)
    (g : PrisonersDilemma) (agents : list BaseGameAgent)
    : Result PDRound * (PrisonersDilemma * list BaseGameAgent) :=
  match agents with
  | [agent1; agent2] =>
      let g1 := next_round g in
      let rn := round_number (base g1) in
      let context1 := PDContext rn (name agent2) (reward_matrix g1) context in
      let context2 := PDContext rn (name agent1) (reward_matrix g1) context in
      let agent1_history := (game_history g1).*1 in
      let agent2_history := (game_history g1).*2 in
      let '(decision1, decision2) :=
        match pd_decide context rn agent1 agent2 context1 context2
                        agent1_history agent2_history with
        | Ok decisions => decisions
        | Raise _ => (fallback DEFECT, fallback DEFECT)
        end in
      let action1 := action decision1 in
      let action2 := action decision2 in
      let '(payoff1, payoff2) :=
        calculate_round_payoffs (payoff_calculator g1) action1 action2 in
      let agent1' := update_state agent1 (name agent2) action2 payoff1 action1 in
      let agent2' := update_state agent2 (name agent1) action1 payoff2 action2 in
      let agent2'' := receive_from decision1 agent2' in
      let agent1'' := receive_from decision2 agent1' in
      let g2 := mkPD (pd_base g1) (reward_matrix g1)
                     (game_history g1 ++ [(action1, action2)]) in
      let round_result :=
        mkPDRound rn
          (dict_set (dict_set [] (name agent1) action1) (name agent2) action2)
          (dict_set (dict_set [] (name agent1) decision1) (name agent2) decision2)
          (dict_set (dict_set [] (name agent1) payoff1) (name agent2) payoff2)
          (dict_set (dict_set [] (name agent1) (or_empty (knowledge_to_share decision1)))
                    (name agent2) (or_empty (knowledge_to_share decision2))) in
      (Ok round_result, (g2, [agent1''; agent2'']))
  | _ => (Raise (ValueError "Prisoner's Dilemma requires exactly 2 agents"), (g, agents))
  end.

(** The statistics [PrisonersDilemma.play_full_game] computes after the
    last round. *)
Definition pd_final_result (g : PrisonersDilemma) (agent1 agent2 : BaseGameAgent)
    (num_rounds : nat) (round_results : list PDRound) : Result GameResult :=
  let agents := [agent1; agent2] in
  total_payoffs ←
    accumulate_payoffs (pd_payoffs <$> round_results)
      (dict_set (dict_set [] (name agent1) 0) (name agent2) 0);
  let actions_history := round_results ≫= pd_actions in
  let cooperation_rates :=
    fold_left (λ rates agent,
      let agent_actions := (filter (λ na, na.1 = name agent) actions_history).*2 in
      dict_set rates (name agent) (calculate_cooperation_rate agent_actions))
      agents [] in
  winner0 ← max_key total_payoffs;
  total1 ← dict_get total_payoffs (name agent1);
  total2 ← dict_get total_payoffs (name agent2);
  let winner := if Qeq_bool total1 total2 then None else Some winner0 in
  let game_analysis :=
    analyze_game_outcomes (payoff_calculator g) (game_history g)
                          (name agent1) (name agent2) in
  Ok (mkGameResult PRISONERS_DILEMMA (name <$> agents) num_rounds actions_history
        total_payoffs cooperation_rates winner (PDMetrics game_analysis)).

(** [PrisonersDilemma.play_full_game(agents, num_rounds, context)] *)
Definition pd_play_full_game (context : option UserContext)
    (g : PrisonersDilemma) (agents : list BaseGameAgent) (num_rounds : nat)
    : Result GameResult * (PrisonersDilemma * list BaseGameAgent) :=
  match agents with
  | [agent1; agent2] =>
      match play_rounds (pd_play_round context) num_rounds (reset g) agents with
      | (Ok round_results, (g', agents')) =>
          match pd_final_result g' agent1 agent2 num_rounds round_results with
          | Ok result => (Ok result, (record_result g' result, agents'))
          | Raise e => (Raise e, (g', agents'))
          end
      | (Raise e, st) => (Raise e, st)
      end
  | _ => (Raise (ValueError "Prisoner's Dilemma requires exactly 2 agents"), (g, agents))
  end.

(** *** PublicGoodsGame *)

(** The [game_context] of the agent at position [i]. *)
Definition pg_game_context (g : PublicGoodsGame) (context : option UserContext)
    (agents : list BaseGameAgent) (i : nat) : GameContext :=
  PGContext (round_number (base g)) (endowment g) (multiplier g)
            (length agents) (other_names i agents) context.

(** The first loop of [PublicGoodsGame.play_round]: one decision per
    agent, with the fallback when [make_decision] raises. *)
Definition pg_collect (g : PublicGoodsGame) (context : option UserContext)
    (agents : list BaseGameAgent) : Dict Q * Dict GameDecision :=
  fold_left (λ acc ia,
    let '(contributions, decisions) := acc in
    let '(i, agent) := ia in
    let game_context := pg_game_context g context agents i in
    match make_decision agent game_context None with
    | Ok decision =>
        let contribution :=
          if decide (action decision = COOPERATE)
          then endowment g * 0.8 else endowment g * 0.2 in
        (dict_set contributions (name agent) contribution,
         dict_set decisions (name agent) decision)
    | Raise _ =>
        (dict_set contributions (name agent) 0,
         dict_set decisions (name agent) (fallback DEFECT))
    end) (imap pair agents) ([], []).

(** What one pass of that loop stores for the agent at position [ia.1]. *)
Definition pg_decision_of (g : PublicGoodsGame) (context : option UserContext)
    (agents : list BaseGameAgent) (ia : nat * BaseGameAgent) : GameDecision :=
  match make_decision ia.2 (pg_game_context g context agents ia.1) None with
  | Ok decision => decision
  | Raise _ => fallback DEFECT
  end.

Definition pg_contribution_of (g : PublicGoodsGame) (context : option UserContext)
    (agents : list BaseGameAgent) (ia : nat * BaseGameAgent) : Q :=
  match make_decision ia.2 (pg_game_context g context agents ia.1) None with
  | Ok decision =>
      if decide (action decision = COOPERATE)
      then endowment g * 0.8 else endowment g * 0.2
  | Raise _ => 0
  end.

(** [for agent_name, contribution in contributions.items(): payoffs[...] = ...] *)
Definition pg_payoffs_of (g : PublicGoodsGame) (contributions : Dict Q)
    (equal_share : Q) : Dict Q :=
  fold_left (λ payoffs nc,
    dict_set payoffs nc.1 ((endowment g - nc.2) + equal_share)) contributions [].

(** The body of the loop that updates the agent states. *)
Definition pg_update_agent (g : PublicGoodsGame) (num_agents : nat)
    (contributions payoffs : Dict Q) (decisions : Dict GameDecision)
    (agent : BaseGameAgent) : Result BaseGameAgent :=
  let other_agents_cooperation :=
    length (filter (λ nc, nc.1 ≠ name agent ∧ Qgtb nc.2 (endowment g * 0.5) = true)
                   contributions) in
  let avg_cooperation :=
    inject_Z (Z.of_nat other_agents_cooperation)
    / inject_Z (Z.of_nat (Nat.max 1 (num_agents - 1))) in
  payoff ← dict_get payoffs (name agent);
  decision ← dict_get decisions (name agent);
  Ok (update_state agent "public"
        (if Qgtb avg_cooperation 0.5 then COOPERATE else DEFECT)
        payoff (action decision)).

(** [PublicGoodsGame.play_round(agents, context)] *)
Definition pg_play_round (context : option UserContext)
    (g : PublicGoodsGame) (agents : list BaseGameAgent)
    : Result PGRound * (PublicGoodsGame * list BaseGameAgent) :=
  let g1 := next_round g in
  let '(contributions, decisions) := pg_collect g1 context agents in
  let total_contributions := Qsum (dict_values contributions) in
  let public_pool := total_contributions * multiplier g1 in
  match qdiv public_pool (Qlen agents) with
  | Raise e => (Raise e, (g1, agents))
  | Ok equal_share =>
      let payoffs := pg_payoffs_of g1 contributions equal_share in
      match for_each_agent
              (pg_update_agent g1 (length agents) contributions payoffs decisions)
              agents with
      | (Raise e, agents') => (Raise e, (g1, agents'))
      | (Ok _, agents') =>
          let g2 := mkPG (pg_base g1) (multiplier g1) (endowment g1)
                         (contribution_history g1 ++ [contributions]) in
          (Ok (mkPGRound (round_number (base g1)) contributions
                         total_contributions public_pool payoffs decisions),
           (g2, agents'))
      end
  end.

(** The contribution-rate loop of [PublicGoodsGame.play_full_game] for one
    agent: [rates.get(name, 0) + contrib_rate] per round, then
    [rates[name] /= num_rounds]. *)
Definition pg_rate_of_agent (g : PublicGoodsGame) (num_rounds : nat)
    (round_results : list PGRound) (rates : Dict Q) (agent : BaseGameAgent)
    : Result (Dict Q) :=
  rates' ←
    foldM (λ rs round_result,
      contribution ← dict_get (pg_contributions round_result) (name agent);
      contrib_rate ← qdiv contribution (endowment g);
      Ok (dict_set rs (name agent)
            (default 0 (dict_lookup rs (name agent)) + contrib_rate)))
      round_results rates;
  sum_rate ← dict_get rates' (name agent);
  rate ← qdiv sum_rate (inject_Z (Z.of_nat num_rounds));
  Ok (dict_set rates' (name agent) rate).

(** The statistics [PublicGoodsGame.play_full_game] computes after the
    last round. *)
Definition pg_final_result (g : PublicGoodsGame) (agents : list BaseGameAgent)
    (num_rounds : nat) (round_results : list PGRound) : Result GameResult :=
  total_payoffs ←
    accumulate_payoffs (pg_payoffs <$> round_results)
                       (dict_of name (λ _, 0) agents);
  let actions_history :=
    concat ((λ r, prod_map id action <$> pg_decisions r) <$> round_results) in
  cooperation_rates ← foldM (pg_rate_of_agent g num_rounds round_results) agents [];
  winner ← max_key total_payoffs;
  average_contribution_rate ←
    qdiv (Qsum (dict_values cooperation_rates)) (Qlen cooperation_rates);
  Ok (mkGameResult PUBLIC_GOODS (name <$> agents) num_rounds actions_history
        total_payoffs cooperation_rates (Some winner)
        (PGMetrics (Qsum (dict_values total_payoffs)) average_contribution_rate
                   (contribution_history g))).

(** [PublicGoodsGame.play_full_game(agents, num_rounds, context)] *)
Definition pg_play_full_game (context : option UserContext)
    (g : PublicGoodsGame) (agents : list BaseGameAgent) (num_rounds : nat)
    : Result GameResult * (PublicGoodsGame * list BaseGameAgent) :=
  match play_rounds (pg_play_round context) num_rounds (reset g) agents with
  | (Ok round_results, (g', agents')) =>
      match pg_final_result g' agents' num_rounds round_results with
      | Ok result => (Ok result, (record_result g' result, agents'))
      | Raise e => (Raise e, (g', agents'))
      end
  | (Raise e, st) => (Raise e, st)
  end.

(** *** KnowledgeSharingGame *)

(** [f"Knowledge_{self.round_number}_{i}: {random.choice(self.knowledge_pool)}"] *)
Definition new_knowledge (rn i : nat) : string :=
  "Knowledge_" +:+ pretty rn +:+ "_" +:+ pretty i +:+ ": "
    +:+ default "" (knowledge_pool !! (random_index rn i `mod` length knowledge_pool)%nat).

(** The seeding loop: an agent with fewer than three items gets a new one. *)
Definition ks_seed (rn : nat) (agents : list BaseGameAgent) : list BaseGameAgent :=
  imap (λ i agent,
    if decide (length (knowledge_base (state agent)) < 3)%nat
    then share_knowledge agent [new_knowledge rn i]
    else agent) agents.

(** The [game_context] of the agent at position [i]. *)
Definition ks_game_context (g : KnowledgeSharingGame) (context : option UserContext)
    (agents : list BaseGameAgent) (i : nat) : GameContext :=
  KSContext (round_number (base g)) (knowledge_value g) (sharing_cost g)
            (other_names i agents) context.

(** The decision loop: [decisions] and [knowledge_shared]. *)
Definition ks_collect (g : KnowledgeSharingGame) (context : option UserContext)
    (agents : list BaseGameAgent) : Dict GameDecision * Dict (list string) :=
  fold_left (λ acc ia,
    let '(decisions, knowledge_shared) := acc in
    let '(i, agent) := ia in
    let game_context := ks_game_context g context agents i in
    match make_decision agent game_context None with
    | Ok decision =>
        (dict_set decisions (name agent) decision,
         dict_set knowledge_shared (name agent)
                  (or_empty (knowledge_to_share decision)))
    | Raise _ =>
        (dict_set decisions (name agent) (fallback WITHHOLD_KNOWLEDGE),
         dict_set knowledge_shared (name agent) [])
    end) (imap pair agents) ([], []).

(** What one pass of that loop stores for the agent at position [ia.1]. *)
Definition ks_decision_of (g : KnowledgeSharingGame) (context : option UserContext)
    (agents : list BaseGameAgent) (ia : nat * BaseGameAgent) : GameDecision :=
  match make_decision ia.2 (ks_game_context g context agents ia.1) None with
  | Ok decision => decision
  | Raise _ => fallback WITHHOLD_KNOWLEDGE
  end.

Definition ks_offer_of (g : KnowledgeSharingGame) (context : option UserContext)
    (agents : list BaseGameAgent) (ia : nat * BaseGameAgent) : list string :=
  match make_decision ia.2 (ks_game_context g context agents ia.1) None with
  | Ok decision => or_empty (knowledge_to_share decision)
  | Raise _ => []
  end.

(** One pass of the inner loop of the payoff computation: what [agent]
    gains from [other_agent]. *)
Definition ks_receive_step (g : KnowledgeSharingGame)
    (knowledge_shared : Dict (list string)) (agent : BaseGameAgent)
    (acc : Q * Dict (list string)) (other_agent : BaseGameAgent)
    : Result (Q * Dict (list string)) :=
  let '(payoff, knowledge_received) := acc in
  if decide (name other_agent ≠ name agent) then
    shared_knowledge ← dict_get knowledge_shared (name other_agent);
    if nonempty shared_knowledge then
      if Qgtb (get_trust_score other_agent (name agent)) 0.3 then
        received ← dict_get knowledge_received (name agent);
        Ok (payoff + knowledge_value g * Qlen shared_knowledge,
            dict_set knowledge_received (name agent) (received ++ shared_knowledge))
      else Ok acc
    else Ok acc
  else Ok acc.

(** One pass of the outer loop: the payoff of [agent]. *)
Definition ks_payoff_step (g : KnowledgeSharingGame)
    (knowledge_shared : Dict (list string)) (agents : list BaseGameAgent)
    (acc : Dict Q * Dict (list string)) (agent : BaseGameAgent)
    : Result (Dict Q * Dict (list string)) :=
  let '(payoffs, knowledge_received) := acc in
  own ← dict_get knowledge_shared (name agent);
  let payoff0 := if nonempty own then 0 - sharing_cost g * Qlen own else 0 in
  '(payoff, knowledge_received') ←
    foldM (ks_receive_step g knowledge_shared agent) agents
          (payoff0, knowledge_received);
  Ok (dict_set payoffs (name agent) payoff, knowledge_received').

(** The loop "Calculate payoffs and distribute knowledge". *)
Definition ks_payoffs_of (g : KnowledgeSharingGame)
    (knowledge_shared : Dict (list string)) (agents : list BaseGameAgent)
    : Result (Dict Q * Dict (list string)) :=
  foldM (ks_payoff_step g knowledge_shared agents) agents
        ([], dict_of name (λ _, []) agents).

(** The body of the loop "Actually transfer knowledge between agents". *)
Definition ks_transfer (knowledge_received : Dict (list string))
    (agent : BaseGameAgent) : Result BaseGameAgent :=
  received ← dict_get knowledge_received (name agent);
  Ok (if nonempty received then share_knowledge agent received else agent).

(** The body of the loop "Update agent states": one [update_state] per
    other agent. *)
Definition ks_update_agent (knowledge_shared : Dict (list string))
    (payoffs : Dict Q) (decisions : Dict GameDecision)
    (agents : list BaseGameAgent) (agent : BaseGameAgent)
    : Result BaseGameAgent :=
  foldM (λ agent' other_agent,
    if decide (name other_agent ≠ name agent) then
      other_knowledge ← dict_get knowledge_shared (name other_agent);
      let other_shared := nonempty other_knowledge in
      let act := if other_shared then SHARE_KNOWLEDGE else WITHHOLD_KNOWLEDGE in
      payoff ← dict_get payoffs (name agent);
      decision ← dict_get decisions (name agent);
      Ok (update_state agent' (name other_agent) act payoff (action decision))
    else Ok agent') agents agent.

(** [KnowledgeSharingGame.play_round(agents, context)] *)
Definition ks_play_round (context : option UserContext)
    (g : KnowledgeSharingGame) (agents : list BaseGameAgent)
    : Result KSRound * (KnowledgeSharingGame * list BaseGameAgent) :=
  let g1 := next_round g in
  let rn := round_number (base g1) in
  let agents1 := ks_seed rn agents in
  let '(decisions, knowledge_shared) := ks_collect g1 context agents1 in
  match ks_payoffs_of g1 knowledge_shared agents1 with
  | Raise e => (Raise e, (g1, agents1))
  | Ok (payoffs, knowledge_received) =>
      match for_each_agent (ks_transfer knowledge_received) agents1 with
      | (Raise e, agents2) => (Raise e, (g1, agents2))
      | (Ok _, agents2) =>
          match for_each_agent
                  (ks_update_agent knowledge_shared payoffs decisions agents2)
                  agents2 with
          | (Raise e, agents3) => (Raise e, (g1, agents3))
          | (Ok _, agents3) =>
              (Ok (mkKSRound rn decisions knowledge_shared knowledge_received payoffs),
               (g1, agents3))
          end
      end
  end.

(** The sharing rate of one agent over the rounds played. *)
Definition ks_rate_of_agent (round_results : list KSRound) (agent : BaseGameAgent)
    : Q :=
  let '(sharing_count, total_rounds) :=
    fold_left (λ acc round_result,
      match dict_lookup (ks_knowledge_shared round_result) (name agent) with
      | Some shared =>
          (if nonempty shared then S acc.1 else acc.1, S acc.2)
      | None => acc
      end) round_results (O, O) in
  inject_Z (Z.of_nat sharing_count) / inject_Z (Z.of_nat (Nat.max 1 total_rounds)).

(** The statistics [KnowledgeSharingGame.play_full_game] computes after
    the last round. *)
Definition ks_final_result (agents : list BaseGameAgent) (num_rounds : nat)
    (round_results : list KSRound) : Result GameResult :=
  total_payoffs ←
    accumulate_payoffs (ks_payoffs <$> round_results)
                       (dict_of name (λ _, 0) agents);
  let actions_history :=
    concat ((λ r, prod_map id action <$> ks_decisions r) <$> round_results) in
  let cooperation_rates :=
    fold_left (λ rates agent,
      dict_set rates (name agent) (ks_rate_of_agent round_results agent))
      agents [] in
  winner ← max_key total_payoffs;
  let total_knowledge_shared :=
    sum_list (concat ((λ r, length <$> dict_values (ks_knowledge_shared r))
                      <$> round_results)) in
  let final_knowledge_counts :=
    dict_of name (λ agent, length (knowledge_base (state agent))) agents in
  average_sharing_rate ←
    qdiv (Qsum (dict_values cooperation_rates)) (Qlen cooperation_rates);
  Ok (mkGameResult KNOWLEDGE_SHARING (name <$> agents) num_rounds actions_history
        total_payoffs cooperation_rates (Some winner)
        (KSMetrics total_knowledge_shared final_knowledge_counts
                   average_sharing_rate)).

(** [KnowledgeSharingGame.play_full_game(agents, num_rounds, context)] *)
Definition ks_play_full_game (context : option UserContext)
    (g : KnowledgeSharingGame) (agents : list BaseGameAgent) (num_rounds : nat)
    : Result GameResult * (KnowledgeSharingGame * list BaseGameAgent) :=
  match play_rounds (ks_play_round context) num_rounds (reset g) agents with
  | (Ok round_results, (g', agents')) =>
      match ks_final_result agents' num_rounds round_results with
      | Ok result => (Ok result, (record_result g' result, agents'))
      | Raise e => (Raise e, (g', agents'))
      end
  | (Raise e, st) => (Raise e, st)
  end.

(** ** src/agents/coordinator.py *)

(** A value of [self.games]: one of the three game objects. *)
Inductive AnyGame :=
  | PDGame (g : PrisonersDilemma)
  | PGGame (g : PublicGoodsGame)
  | KSGame (g : KnowledgeSharingGame).

Record GameCoordinator := mkCoordinator {
  games : list (GameType * AnyGame);
  agents : Dict BaseGameAgent
}.

(** [GameCoordinator.__init__] with [_initialize_games]. *)
Definition new_coordinator : GameCoordinator :=
  mkCoordinator
    [ (PRISONERS_DILEMMA, PDGame (new_PrisonersDilemma None));
      (PUBLIC_GOODS, PGGame (new_PublicGoodsGame 2 10));
      (KNOWLEDGE_SHARING, KSGame (new_KnowledgeSharingGame 2 0.5)) ]
    [].

(** [GameCoordinator.register_agent(agent)] *)
Definition register_agent (c : GameCoordinator) (agent : BaseGameAgent)
    : GameCoordinator :=
  mkCoordinator (games c) (dict_set (agents c) (name agent) agent).

Fixpoint games_lookup (gs : list (GameType * AnyGame)) (t : GameType)
    : option AnyGame :=
  match gs with
  | [] => None
  | (t', g) :: gs' => if decide (t' = t) then Some g else games_lookup gs' t
  end.

(** The game object of type [t] after its methods changed it in place. *)
Fixpoint games_store (gs : list (GameType * AnyGame)) (t : GameType) (g : AnyGame)
    : list (GameType * AnyGame) :=
  match gs with
  | [] => []
  | (t', g') :: gs' =>
      if decide (t' = t) then (t', g) :: gs' else (t', g') :: games_store gs' t g
  end.

(** [GameCoordinator.get_game(game_type)] *)
Definition get_game (c : GameCoordinator) (t : GameType) : Result AnyGame :=
  match games_lookup (games c) t with
  | Some g => Ok g
  | None => Raise (ValueError "Unknown game type")
  end.

(** [game.reset()] on whichever game it is. *)
Definition any_reset (g : AnyGame) : AnyGame :=
  match g with
  | PDGame g' => PDGame (reset g')
  | PGGame g' => PGGame (reset g')
  | KSGame g' => KSGame (reset g')
  end.

(** [game.play_full_game(agents, num_rounds, context)] on whichever game
    it is. *)
Definition any_play_full_game (context : option UserContext) (g : AnyGame)
    (players : list BaseGameAgent) (num_rounds : nat)
    : Result GameResult * (AnyGame * list BaseGameAgent) :=
  match g with
  | PDGame g' =>
      let '(r, (g'', players')) := pd_play_full_game context g' players num_rounds in
      (r, (PDGame g'', players'))
  | PGGame g' =>
      let '(r, (g'', players')) := pg_play_full_game context g' players num_rounds in
      (r, (PGGame g'', players'))
  | KSGame g' =>
      let '(r, (g'', players')) := ks_play_full_game context g' players num_rounds in
      (r, (KSGame g'', players'))
  end.

(** The listed names that are registered, [name in self.agents]. *)
Definition registered_names (c : GameCoordinator) (agent_names : list string)
    : list string :=
  filter (λ x, is_Some (dict_lookup (agents c) x)) agent_names.

(** [[self.agents[name] for name in agent_names if name in self.agents]] *)
Definition registered_agents (c : GameCoordinator) (agent_names : list string)
    : list BaseGameAgent :=
  omap (dict_lookup (agents c)) agent_names.

(** The registry after the game changed the players in place: each
    selected entry holds the agent the game left. *)
Definition store_agents (registry : Dict BaseGameAgent) (keys : list string)
    (players : list BaseGameAgent) : Dict BaseGameAgent :=
  fold_left (λ reg ka, dict_set reg ka.1 ka.2) (zip keys players) registry.

(** [GameCoordinator.run_single_game(game_type, agent_names, num_rounds,
    context)] with [enable_conversation_tracking] left at its default
    [False], so that the caller's context reaches the game as it is.  The
    list of players holds one object per listed name; the model reads
    every position as an object of its own, which is what the code has
    when no registered name is listed twice.  When one is, the code hands
    the same object to the game at both positions and every update lands
    on it, whereas here the positions are updated apart and the registry
    keeps the last: the agents stored afterwards are then not the code's,
    the rest is. *)
Definition run_single_game (c : GameCoordinator) (t : GameType)
    (agent_names : list string) (num_rounds : nat)
    (context : option UserContext) : Result GameResult * GameCoordinator :=
  match get_game c t with
  | Raise e => (Raise e, c)
  | Ok game =>
      let players := registered_agents c agent_names in
      if decide (length players < 2)%nat
      then (Raise (ValueError "Need at least 2 agents to run a game"), c)
      else
        let '(r, (game', players')) :=
          any_play_full_game context (any_reset game) players num_rounds in
        (r, mkCoordinator (games_store (games c) t game')
                          (store_agents (agents c) (registered_names c agent_names)
                                        players'))
  end.

End Games.

Arguments context_session_id {UserContext}.
Arguments context_enable_tracking {UserContext}.
Arguments active_sessions {UserContext}.

(** ** Definitions used to state the properties *)

(** Every stored trust score lies in [0,1]. *)
Definition trust_in_unit_interval (st : AgentState) : Prop :=
  map_Forall (λ _ v, 0 <= v <= 1) (trust_scores st).

(** A finite sequence of [update_trust] calls with the default decay rate:
    each call names a peer and says whether it cooperated. *)
Definition update_trust_many (st : AgentState) (calls : list (string * bool))
    : AgentState :=
  fold_left (λ st' c, update_trust st' c.1 c.2 default_decay_rate) calls st.

(** The number of rounds of a history in which the move of player 1 was
    cooperative or not ([c1]) and the move of player 2 likewise ([c2]). *)
Definition count_rounds (c1 c2 : bool) (history : list (AgentAction * AgentAction))
    : nat :=
  length (filter (λ h, (is_cooperative h.1, is_cooperative h.2) = (c1, c2)) history).

(** A decision provider that answers every request with the same action
    and shares nothing, like the mocks of tests/test_game_theory.py. *)
Definition fixed_decision (a : AgentAction)
    : BaseGameAgent → GameContext () → option (list AgentAction) → Result GameDecision :=
  λ _ _ _, Ok (mkDecision a "Test" 0.8 (Some [])).

(** No conversation tracking: contexts carry neither key and no session
    is open. *)
Definition no_tracking : Tracking () := mkTracking () (λ _, None) (λ _, false) [].

(** A freshly created agent. *)
Definition new_agent (n strat : string) : BaseGameAgent :=
  mkAgent n strat 0.5 0.5 initial_state.

(** The game object left by one round of the Prisoner's Dilemma between two
    fresh agents that both cooperate. *)
Definition pd_after_one_round : PrisonersDilemma :=
  (pd_play_round () (fixed_decision COOPERATE) no_tracking None (new_PrisonersDilemma None)
     [new_agent "Agent1" "always_cooperate"; new_agent "Agent2" "always_cooperate"]).2.1.

(** The same for one round of the Public Goods Game. *)
Definition pg_after_one_round : PublicGoodsGame :=
  (pg_play_round () (fixed_decision COOPERATE) None (new_PublicGoodsGame 2 10)
     [new_agent "Agent1" "always_cooperate"; new_agent "Agent2" "always_cooperate"]).2.1.

(** The trust gate of the Knowledge Sharing Game,
    [other_agent.get_trust_score(agent.name) > 0.3]. *)
Definition ks_gate (sharer receiver : BaseGameAgent) : bool :=
  Qgtb (get_trust_score sharer (name receiver)) 0.3.

(** What [receiver] gets from [sharer], who offered [offer]: all of it when
    the two are different participants and the gate is open, nothing
    otherwise. *)
Definition ks_pair_transfer (offer : BaseGameAgent → list string)
    (receiver sharer : BaseGameAgent) : list string :=
  if decide (name sharer ≠ name receiver)
  then if ks_gate sharer receiver then offer sharer else []
  else [].

(** What [receiver] gets in a round, sharer by sharer in the order of the
    participants. *)
Definition ks_transferred (offer : BaseGameAgent → list string)
    (agents : list BaseGameAgent) (receiver : BaseGameAgent) : list string :=
  flat_map (ks_pair_transfer offer receiver) agents.

(** The offer of a participant as the round records it,
    [knowledge_shared[agent.name]]. *)
Definition offer_in (knowledge_shared : Dict (list string)) (a : BaseGameAgent)
    : list string :=
  default [] (dict_lookup knowledge_shared (name a)).

(** One pass of the inner loop of the payoff computation of the Knowledge
    Sharing Game, the payoff alone: [payoff += knowledge_value *
    len(shared_knowledge)] when a transfer from [sharer] reaches
    [receiver]. *)
Definition ks_credit (g : KnowledgeSharingGame) (offer : BaseGameAgent → list string)
    (receiver : BaseGameAgent) (payoff : Q) (sharer : BaseGameAgent) : Q :=
  let shared_knowledge := ks_pair_transfer offer receiver sharer in
  if nonempty shared_knowledge
  then payoff + knowledge_value g * Qlen shared_knowledge
  else payoff.

(** The payoff of [receiver] in a round, by the operations of the code in
    their order: from 0.0, less the cost of its own offer if it offered
    anything, then sharer by sharer plus the value of each transfer that
    reaches it. *)
Definition ks_round_payoff (g : KnowledgeSharingGame)
    (offer : BaseGameAgent → list string) (agents : list BaseGameAgent)
    (receiver : BaseGameAgent) : Q :=
  fold_left (ks_credit g offer receiver) agents
            (if nonempty (offer receiver)
             then 0 - sharing_cost g * Qlen (offer receiver) else 0).

(** A decision provider that always shares the first item of the agent's
    knowledge base. *)
Definition share_first_item
    : BaseGameAgent → GameContext () → option (list AgentAction) → Result GameDecision :=
  λ a _ _, Ok (mkDecision SHARE_KNOWLEDGE "Test" 0.8
                 (Some (take 1 (knowledge_base (state a))))).

(** Alice distrusts Bob (0.2); Bob has no opinion of Alice (default 0.5). *)
Definition wary_alice : BaseGameAgent :=
  mkAgent "Alice" "adaptive" 0.5 0.5
    (mkState {[ "Bob" := 0.2 ]} ["alice's secret"] [] [] 0.5).
Definition fresh_bob : BaseGameAgent := new_agent "Bob" "adaptive".

(** [w] is the first key of [d] that carries the greatest value: no value
    is greater, and every earlier value is smaller. *)
Definition first_max_key (d : Dict Q) (w : string) : Prop :=
  ∃ i v, d !! i = Some (w, v)
         ∧ (∀ j kv, d !! j = Some kv → kv.2 <= v)
         ∧ (∀ j kv, (j < i)%nat → d !! j = Some kv → kv.2 < v).

(** A coordinator with two registered agents, "Alice" and "Bob". *)
Definition two_agent_coordinator : GameCoordinator :=
  register_agent
    (register_agent new_coordinator (new_agent "Alice" "always_cooperate"))
    (new_agent "Bob" "always_cooperate").

(** The number of rounds the analysis attached to a Prisoner's Dilemma
    result covers. *)
Definition analysed_rounds (res : GameResult) : option nat :=
  match additional_metrics res with
  | PDMetrics (Some analysis) => Some (total_rounds analysis)
  | _ => None
  end.

(** The result of a second one-round Prisoner's Dilemma played on the game
    object that an earlier one-round game has used. *)
Definition pd_second_game : Result GameResult :=
  let players := [new_agent "Agent1" "always_cooperate";
                  new_agent "Agent2" "always_cooperate"] in
  let '(_, (game, players')) :=
    pd_play_full_game () (fixed_decision COOPERATE) no_tracking None
                      (new_PrisonersDilemma None) players 1 in
  (pd_play_full_game () (fixed_decision COOPERATE) no_tracking None game players' 1).1.

(** The payoff pair seen from the other player. *)
Definition mirror (p : Q * Q) : Q * Q := (p.2, p.1).

(** The cooperative class of an action, as a representative action. *)
Definition action_class (a : AgentAction) : AgentAction :=
  if is_cooperative a then COOPERATE else DEFECT.

(** A reward matrix that treats the two players alike. *)
Definition symmetric_matrix (rm : RewardMatrix) : Prop :=
  cooperate_cooperate rm = mirror (cooperate_cooperate rm)
  ∧ defect_defect rm = mirror (defect_defect rm)
  ∧ defect_cooperate rm = mirror (cooperate_defect rm).

(** ** src/agents/base_agent.py: the remaining methods *)

(** [int(x)] on a float: truncation toward zero. *)
Definition py_int (q : Q) : Z := Z.quot (Qnum q) (Z.pos (Qden q)).

(** [BaseGameAgent.get_knowledge_to_share(requester_id)] *)
Definition get_knowledge_to_share (a : BaseGameAgent) (requester_id : string)
    : list string :=
  let trust_score := get_trust_score a requester_id in
  if Qltb trust_score (trust_threshold a) then []
  else
    let max_items :=
      Z.max 1 (py_int (Qlen (knowledge_base (state a)) * trust_score)) in
    take (Z.to_nat max_items) (knowledge_base (state a)).

(** A sequence of [update_state] calls, each with the opponent's id and
    action, the payoff and the agent's own action. *)
Definition update_state_many (a : BaseGameAgent)
    (calls : list (string * AgentAction * Q * AgentAction)) : BaseGameAgent :=
  fold_left (λ a' c, update_state a' c.1.1.1 c.1.1.2 c.1.2 c.2) calls a.

(** What the fields of an [AgentState] are meant to satisfy: trust scores
    and reputation in [0,1], one payoff per recorded interaction. *)
Definition state_well_formed (st : AgentState) : Prop :=
  trust_in_unit_interval st
  ∧ 0 <= reputation st <= 1
  ∧ length (cooperation_history st) = length (payoff_history st).

(** ** src/game_theory/strategies.py: the other strategies *)

Module BaseStrategy.

(** The fields every strategy inherits. *)
Record t := mk {
  name : string;
  history : list AgentAction;
  opponent_history : list AgentAction;
  payoff_history : list Q
}.

(** [BaseStrategy.__init__(name)] *)
Definition new (n : string) : t := mk n [] [] [].

(** [BaseStrategy.update_history(my_action, opponent_action, my_payoff)] *)
Definition update_history (s : t) (my_action opponent_action : AgentAction)
    (my_payoff : Q) : t :=
  mk (name s) (history s ++ [my_action]) (opponent_history s ++ [opponent_action])
     (payoff_history s ++ [my_payoff]).

(** [BaseStrategy.reset()] *)
Definition reset (s : t) : t := mk (name s) [] [] [].

End BaseStrategy.

Module TitForTat.

(** [TitForTat()] *)
Definition new : BaseStrategy.t := BaseStrategy.new "Tit-for-Tat".

(** [TitForTat.decide(round_number, opponent_last_action, game_context)] *)
Definition decide (round_number : Z) (opponent_last_action : option AgentAction)
    : AgentAction :=
  match opponent_last_action with
  | None => COOPERATE
  | Some last =>
      if decide (round_number = 0%Z) then COOPERATE
      else if is_cooperative last then COOPERATE else DEFECT
  end.

End TitForTat.

Module GenerousTitForTat.

Record t := mk {
  base : BaseStrategy.t;
  forgiveness_probability : Q
}.

(** [GenerousTitForTat(forgiveness_probability=0.1)] *)
Definition new (forgiveness_probability : Q) : t :=
  mk (BaseStrategy.new "Generous-Tit-for-Tat") forgiveness_probability.

(** [GenerousTitForTat.decide]; [draw] is the value of [random.random()],
    which the code asks for only after a defection. *)
Definition decide (s : t) (round_number : Z)
    (opponent_last_action : option AgentAction) (draw : Q) : AgentAction :=
  match opponent_last_action with
  | None => COOPERATE
  | Some last =>
      if decide (round_number = 0%Z) then COOPERATE
      else if is_cooperative last then COOPERATE
      else if Qltb draw (forgiveness_probability s) then COOPERATE else DEFECT
  end.

End GenerousTitForTat.

Module AlwaysCooperate.

Definition new : BaseStrategy.t := BaseStrategy.new "Always-Cooperate".

Definition decide (round_number : Z) (opponent_last_action : option AgentAction)
    : AgentAction := COOPERATE.

End AlwaysCooperate.

Module AlwaysDefect.

Definition new : BaseStrategy.t := BaseStrategy.new "Always-Defect".

Definition decide (round_number : Z) (opponent_last_action : option AgentAction)
    : AgentAction := DEFECT.

End AlwaysDefect.

Module Random.

Record t := mk {
  base : BaseStrategy.t;
  cooperation_probability : Q
}.

(** [Random(cooperation_probability=0.5)] *)
Definition new (cooperation_probability : Q) : t :=
  mk (BaseStrategy.new "Random") cooperation_probability.

(** [Random.decide]; [draw] is the value of [random.random()]. *)
Definition decide (s : t) (round_number : Z)
    (opponent_last_action : option AgentAction) (draw : Q) : AgentAction :=
  if Qltb draw (cooperation_probability s) then COOPERATE else DEFECT.

End Random.

Module Pavlov.

Record t := mk {
  base : BaseStrategy.t;
  win_threshold : Q;
  last_action : AgentAction
}.

(** [Pavlov(win_threshold=2.5)] *)
Definition new (win_threshold : Q) : t :=
  mk (BaseStrategy.new "Pavlov") win_threshold COOPERATE.

(** [Pavlov.decide]: the action and the strategy object after the call. *)
Definition decide (s : t) (round_number : Z)
    (opponent_last_action : option AgentAction) : AgentAction * t :=
  if decide (round_number = 0%Z)
  then (COOPERATE, mk (base s) (win_threshold s) COOPERATE)
  else
    match last (BaseStrategy.payoff_history (base s)) with
    | Some last_payoff =>
        if Qltb last_payoff (win_threshold s) then
          let shifted :=
            if decide (last_action s = COOPERATE) then DEFECT else COOPERATE in
          (shifted, mk (base s) (win_threshold s) shifted)
        else (last_action s, s)
    | None => (last_action s, s)
    end.

(** [update_history] and [reset] are the inherited ones: [reset] leaves
    [last_action] as it is. *)
Definition update_history (s : t) (my_action opponent_action : AgentAction)
    (my_payoff : Q) : t :=
  mk (BaseStrategy.update_history (base s) my_action opponent_action my_payoff)
     (win_threshold s) (last_action s).

Definition reset (s : t) : t :=
  mk (BaseStrategy.reset (base s)) (win_threshold s) (last_action s).

End Pavlov.

Module Grudger.

Record t := mk {
  base : BaseStrategy.t;
  opponent_ever_defected : bool
}.

(** [Grudger()] *)
Definition new : t := mk (BaseStrategy.new "Grudger") false.

(** [Grudger.decide]: the action and the strategy object after the call. *)
Definition decide (s : t) (round_number : Z)
    (opponent_last_action : option AgentAction) : AgentAction * t :=
  let ever :=
    match opponent_last_action with
    | Some DEFECT | Some WITHHOLD_KNOWLEDGE => true
    | _ => opponent_ever_defected s
    end in
  (if ever then DEFECT else COOPERATE, mk (base s) ever).

Definition update_history (s : t) (my_action opponent_action : AgentAction)
    (my_payoff : Q) : t :=
  mk (BaseStrategy.update_history (base s) my_action opponent_action my_payoff)
     (opponent_ever_defected s).

(** [Grudger.reset()]: the inherited reset, then the flag. *)
Definition reset (s : t) : t := mk (BaseStrategy.reset (base s)) false.

End Grudger.

(** [BaseStrategy.reset()] on an [Adaptive] strategy, which does not
    override it: the learned probability stays. *)
Definition adaptive_reset (s : Strategies.Adaptive) : Strategies.Adaptive :=
  Strategies.mkAdaptive [] [] []
    (Strategies.learning_rate s) (Strategies.exploration_rate s)
    (Strategies.cooperation_threshold s) (Strategies.cooperation_probability s).

Inductive StrategyType :=
  | TIT_FOR_TAT
  | ALWAYS_COOPERATE
  | ALWAYS_DEFECT
  | RANDOM
  | ADAPTIVE
  | GENEROUS_TIT_FOR_TAT
  | PAVLOV
  | GRUDGER.

(** A strategy object of any of the eight classes. *)
Inductive AnyStrategy :=
  | IsTitForTat (s : BaseStrategy.t)
  | IsAlwaysCooperate (s : BaseStrategy.t)
  | IsAlwaysDefect (s : BaseStrategy.t)
  | IsRandom (s : Random.t)
  | IsAdaptive (s : Strategies.Adaptive)
  | IsGenerousTitForTat (s : GenerousTitForTat.t)
  | IsPavlov (s : Pavlov.t)
  | IsGrudger (s : Grudger.t).

(** [kwargs.get(key, default)] *)
Definition kwargs_get (kwargs : Dict Q) (key : string) (dflt : Q) : Q :=
  default dflt (dict_lookup kwargs key).

(** [create_strategy(strategy_type, **kwargs)] *)
Definition create_strategy (strategy_type : StrategyType) (kwargs : Dict Q)
    : AnyStrategy :=
  match strategy_type with
  | TIT_FOR_TAT => IsTitForTat TitForTat.new
  | ALWAYS_COOPERATE => IsAlwaysCooperate AlwaysCooperate.new
  | ALWAYS_DEFECT => IsAlwaysDefect AlwaysDefect.new
  | RANDOM => IsRandom (Random.new (kwargs_get kwargs "cooperation_probability" 0.5))
  | ADAPTIVE =>
      IsAdaptive (Strategies.new_adaptive
                    (kwargs_get kwargs "learning_rate" 0.1)
                    (kwargs_get kwargs "exploration_rate" 0.1)
                    (kwargs_get kwargs "cooperation_threshold" 0.5))
  | GENEROUS_TIT_FOR_TAT =>
      IsGenerousTitForTat
        (GenerousTitForTat.new (kwargs_get kwargs "forgiveness_probability" 0.1))
  | PAVLOV => IsPavlov (Pavlov.new (kwargs_get kwargs "win_threshold" 2.5))
  | GRUDGER => IsGrudger Grudger.new
  end.

(** [strategy.decide(round_number, opponent_last_action)] on a strategy of
    any class; [rnd] holds what the [random] module returns during the
    call, the first [random.random()] being [explore_draw rnd]. *)
Definition strategy_decide (s : AnyStrategy) (round_number : Z)
    (opponent_last_action : option AgentAction) (rnd : Strategies.Draws)
    : AgentAction * AnyStrategy :=
  match s with
  | IsTitForTat b => (TitForTat.decide round_number opponent_last_action, s)
  | IsAlwaysCooperate b => (AlwaysCooperate.decide round_number opponent_last_action, s)
  | IsAlwaysDefect b => (AlwaysDefect.decide round_number opponent_last_action, s)
  | IsRandom r =>
      (Random.decide r round_number opponent_last_action (Strategies.explore_draw rnd), s)
  | IsAdaptive a =>
      let '(act, a') := Strategies.decide a round_number opponent_last_action rnd in
      (act, IsAdaptive a')
  | IsGenerousTitForTat g =>
      (GenerousTitForTat.decide g round_number opponent_last_action
         (Strategies.explore_draw rnd), s)
  | IsPavlov p =>
      let '(act, p') := Pavlov.decide p round_number opponent_last_action in
      (act, IsPavlov p')
  | IsGrudger gr =>
      let '(act, gr') := Grudger.decide gr round_number opponent_last_action in
      (act, IsGrudger gr')
  end.

(** [strategy.reset()] on a strategy of any class. *)
Definition strategy_reset (s : AnyStrategy) : AnyStrategy :=
  match s with
  | IsTitForTat b => IsTitForTat (BaseStrategy.reset b)
  | IsAlwaysCooperate b => IsAlwaysCooperate (BaseStrategy.reset b)
  | IsAlwaysDefect b => IsAlwaysDefect (BaseStrategy.reset b)
  | IsRandom r =>
      IsRandom (Random.mk (BaseStrategy.reset (Random.base r))
                          (Random.cooperation_probability r))
  | IsAdaptive a => IsAdaptive (adaptive_reset a)
  | IsGenerousTitForTat g =>
      IsGenerousTitForTat
        (GenerousTitForTat.mk (BaseStrategy.reset (GenerousTitForTat.base g))
                              (GenerousTitForTat.forgiveness_probability g))
  | IsPavlov p => IsPavlov (Pavlov.reset p)
  | IsGrudger gr => IsGrudger (Grudger.reset gr)
  end.

(** The moves of a strategy that is told, round after round from round 0,
    the opponent's move of the round before ([None] in round 0). *)
Definition moves_against (decide : Z → option AgentAction → AgentAction)
    (opponent_moves : list AgentAction) : list AgentAction :=
  imap (λ k last, decide (Z.of_nat k) last) (None :: (Some <$> opponent_moves)).

(** A sequence of [decide] calls on a Grudger, each with its round number
    and the opponent's last action: the strategy object after them. *)
Definition grudger_after (s : Grudger.t) (calls : list (Z * option AgentAction))
    : Grudger.t :=
  fold_left (λ s' c, (Grudger.decide s' c.1 c.2).2) calls s.

(** The calls a user can make on an [Adaptive] strategy. *)
Inductive AdaptiveCall :=
  | CallDecide (round_number : Z) (opponent_last_action : option AgentAction)
               (rnd : Strategies.Draws)
  | CallUpdateHistory (my_action opponent_action : AgentAction) (my_payoff : Q)
  | CallReset.

Definition adaptive_call (s : Strategies.Adaptive) (c : AdaptiveCall)
    : Strategies.Adaptive :=
  match c with
  | CallDecide r last rnd => (Strategies.decide s r last rnd).2
  | CallUpdateHistory my opp p => Strategies.update_history s my opp p
  | CallReset => adaptive_reset s
  end.

(** [opponent_last_action in [AgentAction.DEFECT, AgentAction.WITHHOLD_KNOWLEDGE]] *)
Definition is_defection (a : option AgentAction) : bool :=
  match a with
  | Some DEFECT | Some WITHHOLD_KNOWLEDGE => true
  | _ => false
  end.

(** The other of the two basic actions. *)
Definition shifted (a : AgentAction) : AgentAction :=
  if decide (a = COOPERATE) then DEFECT else COOPERATE.

(** A decision maker that cooperates for every agent except the one named
    [failing], whose call raises. *)
Definition failing_decision (failing : string)
    : BaseGameAgent → GameContext () → option (list AgentAction) → Result GameDecision :=
  λ a _ _,
    if decide (name a = failing) then Raise (DecisionError "no answer")
    else Ok (mkDecision COOPERATE "Test" 0.8 (Some [])).

(** [a'] is the agent [a] later on, with everything [a] knew still in its
    knowledge base, in the same order and before anything learnt since,
    and with no item twice if [a] had none twice. *)
Definition keeps_knowledge (a a' : BaseGameAgent) : Prop :=
  name a' = name a
  ∧ knowledge_base (state a) `prefix_of` knowledge_base (state a')
  ∧ (NoDup (knowledge_base (state a)) → NoDup (knowledge_base (state a'))).

(** ** src/agents/coordinator.py: the remaining methods *)

(** [GameCoordinator.reset_all_agents()]: every registered agent gets the
    state of a new agent. *)
Definition reset_all_agents (c : GameCoordinator) : GameCoordinator :=
  mkCoordinator (games c)
    ((λ ka : string * BaseGameAgent, (ka.1, set_state ka.2 initial_state))
       <$> agents c).

(** One entry of the dict [get_agent_statistics] returns. *)
Record AgentStatistics := mkStatistics {
  stat_strategy : string;
  stat_total_games : nat;
  stat_average_payoff : Q;
  stat_cooperation_rate : Q;
  stat_reputation : Q;
  stat_trust_scores : gmap string Q;
  stat_knowledge_count : nat
}.

Definition agent_statistics (agent : BaseGameAgent) : AgentStatistics :=
  let payoffs := payoff_history (state agent) in
  mkStatistics (strategy agent) (length payoffs)
    (match payoffs with
     | [] => 0
     | _ => Qsum payoffs / Qlen payoffs
     end)
    (get_cooperation_rate agent None)
    (reputation (state agent))
    (trust_scores (state agent))
    (length (knowledge_base (state agent))).

(** [GameCoordinator.get_agent_statistics()] *)
Definition get_agent_statistics (c : GameCoordinator) : Dict AgentStatistics :=
  fold_left (λ stats ka, dict_set stats ka.1 (agent_statistics ka.2)) (agents c) [].

(** The constructors of the rule-based agents of game_agents.py, without
    keyword arguments.  The class of an agent is read off its [strategy];
    [adaptation_rate], which [AdaptiveAgent] stores and no method reads, is
    left out. *)
Definition CooperativeAgent (n : string) : BaseGameAgent :=
  mkAgent n "always_cooperate" 0.2 0.3 initial_state.
Definition CompetitiveAgent (n : string) : BaseGameAgent :=
  mkAgent n "always_defect" 0.8 0.7 initial_state.
Definition TitForTatAgent (n : string) : BaseGameAgent :=
  mkAgent n "tit_for_tat" 0.5 0.5 initial_state.
Definition AdaptiveAgent (n : string) : BaseGameAgent :=
  mkAgent n "adaptive" 0.5 0.5 initial_state.
Definition RandomAgent (n : string) : BaseGameAgent :=
  mkAgent n "random" 0.5 0.5 initial_state.

Definition agent_classes : Dict (string → BaseGameAgent) :=
  [ ("cooperative", CooperativeAgent);
    ("competitive", CompetitiveAgent);
    ("tit_for_tat", TitForTatAgent);
    ("adaptive", AdaptiveAgent);
    ("random", RandomAgent) ].

(** [GameCoordinator.create_agent(agent_type, name)] with [use_llm=False]
    and no keyword arguments. *)
Definition create_agent (c : GameCoordinator) (agent_type n : string)
    : Result BaseGameAgent * GameCoordinator :=
  match dict_lookup agent_classes agent_type with
  | None => (Raise (ValueError ("未知のエージェントタイプ: " +:+ agent_type)), c)
  | Some agent_class =>
      let agent := agent_class n in
      (Ok agent, register_agent c agent)
  end.

Definition agent_configs : list (string * string) :=
  [ ("Alice_Cooperative", "cooperative");
    ("Bob_Competitive", "competitive");
    ("Charlie_TitForTat", "tit_for_tat");
    ("Diana_Adaptive", "adaptive");
    ("Eve_Random", "random") ].

(** [GameCoordinator.create_standard_agent_set()] with [use_llm=False]; a
    raise in [create_agent] ends the loop. *)
Definition create_standard_agent_set (c : GameCoordinator)
    : Result () * GameCoordinator :=
  fold_left (λ (acc : Result () * GameCoordinator) (cfg : string * string),
    match acc with
    | (Ok _, c') =>
        match create_agent c' cfg.2 cfg.1 with
        | (Ok _, c'') => (Ok (), c'')
        | (Raise e, c'') => (Raise e, c'')
        end
    | (Raise e, c') => (Raise e, c')
    end) agent_configs (Ok (), c).

(** A result of [run_tournament]: the game result together with the
    entries the tournament stores into its [additional_metrics] (the
    timestamp apart).  The code stores them into the result object the
    game also holds in its [results_history]; here they are kept beside
    the result, and the copy in [results_history] is the result as the
    game returned it. *)
Record TournamentResult := mkTournamentResult {
  match_result : GameResult;
  tournament_match : string;
  repetition : nat;
  match_number : nat;
  total_matches : nat
}.

(** The matches of a tournament in the order the three nested loops of
    [run_tournament] reach them: [for i in range(n)],
    [for j in range(i + 1, n)], [for rep in range(num_repetitions)]. *)
Definition tournament_matches (agent_names : list string) (num_repetitions : nat)
    : list (string * string * nat) :=
  i ← seq 0 (length agent_names);
  j ← seq (S i) (length agent_names - S i);
  rep ← seq 0 num_repetitions;
  match agent_names !! i, agent_names !! j with
  | Some agent1, Some agent2 => [(agent1, agent2, rep)]
  | _, _ => []
  end.

Section Tournament.

Variable UserContext : Type.
Variable make_decision :
  BaseGameAgent → GameContext UserContext → option (list AgentAction)
  → Result GameDecision.
Variable tracking : Tracking UserContext.
Variable random_index : nat → nat → nat.

(** The body of the innermost loop of [run_tournament]: one match.  An
    exception of the match is logged and the tournament goes on; what the
    match changed before it raised stays changed. *)
Definition tournament_step (t : GameType) (num_rounds : nat)
    (context : option UserContext) (total : nat)
    (acc : GameCoordinator * nat * list TournamentResult)
    (m : string * string * nat)
    : GameCoordinator * nat * list TournamentResult :=
  let '(c, match_count, results) := acc in
  let '(agent1, agent2, rep) := m in
  let match_count := S match_count in
  match run_single_game UserContext make_decision tracking random_index c t
          [agent1; agent2] num_rounds context with
  | (Ok result, c') =>
      (c', match_count,
       results ++ [mkTournamentResult result (agent1 +:+ "_vs_" +:+ agent2)
                     (S rep) match_count total])
  | (Raise _, c') => (c', match_count, results)
  end.

(** [GameCoordinator.run_tournament(game_type, num_rounds, num_repetitions,
    context)], without conversation tracking and experiment logger. *)
Definition run_tournament (c : GameCoordinator) (t : GameType)
    (num_rounds num_repetitions : nat) (context : option UserContext)
    : Result (list TournamentResult) * GameCoordinator :=
  if decide (length (agents c) < 2)%nat
  then (Raise (ValueError "Need at least 2 agents for a tournament"), c)
  else
    let agent_names := dict_keys (agents c) in
    let total :=
      ((length agent_names * (length agent_names - 1)) `div` 2 * num_repetitions)%nat in
    let '(c', _, results) :=
      fold_left (tournament_step t num_rounds context total)
                (tournament_matches agent_names num_repetitions) (c, O, []) in
    (Ok results, c').

End Tournament.

(** ** src/agents/game_agents.py *)

(** [action.value] *)
Definition action_value (a : AgentAction) : string :=
  match a with
  | COOPERATE => "cooperate"
  | DEFECT => "defect"
  | SHARE_KNOWLEDGE => "share_knowledge"
  | WITHHOLD_KNOWLEDGE => "withhold_knowledge"
  end.

Section GameAgents.

Variable UserContext : Type.

(** The entry of the caller's context under the key ['opponent_id'], if it
    has one: the games build [{..., **(context or {})}], so that the
    caller's entry replaces the game's own. *)
Variable user_opponent_id : UserContext → option string.

(** [game_context.get('opponent_id')]: only the Prisoner's Dilemma puts the
    key into the context it builds. *)
Definition context_opponent_id (game_context : GameContext UserContext)
    : option string :=
  match game_context with
  | PDContext _ _ opponent_id _ context =>
      Some (default opponent_id (context ≫= user_opponent_id))
  | PGContext _ _ _ _ _ _ context => context ≫= user_opponent_id
  | KSContext _ _ _ _ _ context => context ≫= user_opponent_id
  end.

(** [CooperativeAgent.make_decision(game_context, opponent_history)] *)
Definition cooperative_make_decision (a : BaseGameAgent)
    (game_context : GameContext UserContext)
    (opponent_history : option (list AgentAction)) : Result GameDecision :=
  let knowledge_to_share :=
    match context_opponent_id game_context with
    | Some opponent_id => get_knowledge_to_share a opponent_id
    | None => []
    end in
  Ok (mkDecision COOPERATE
        "I believe in cooperation for mutual benefit. Sharing knowledge helps everyone succeed."
        0.9 (Some (take 3 knowledge_to_share))).

(** [CompetitiveAgent.make_decision(game_context, opponent_history)] *)
Definition competitive_make_decision (a : BaseGameAgent)
    (game_context : GameContext UserContext)
    (opponent_history : option (list AgentAction)) : Result GameDecision :=
  let opponent_id := context_opponent_id game_context in
  if str_truthy opponent_id
     && Qgtb (get_trust_score a (default "" opponent_id)) (cooperation_threshold a)
  then
    Ok (mkDecision COOPERATE
          "Despite my competitive nature, I trust this agent enough to cooperate this time."
          0.6 (Some (take 1 (get_knowledge_to_share a (default "" opponent_id)))))
  else
    Ok (mkDecision DEFECT
          "I prioritize my own success. Competition drives excellence."
          0.85 (Some [])).

(** The opponent's last action as [TitForTatAgent.make_decision] finds it:
    in the history handed over if that is not empty, otherwise in the
    agent's own record of that opponent. *)
Definition last_opponent_action (a : BaseGameAgent) (opponent_id : string)
    (opponent_history : option (list AgentAction)) : option AgentAction :=
  match default [] opponent_history with
  | [] =>
      if decide (opponent_id = "") then None
      else last (filter (λ p, p.1 = opponent_id) (cooperation_history (state a))).*2
  | h => last h
  end.

(** [TitForTatAgent.make_decision(game_context, opponent_history)] *)
Definition tit_for_tat_make_decision (a : BaseGameAgent)
    (game_context : GameContext UserContext)
    (opponent_history : option (list AgentAction)) : Result GameDecision :=
  let opponent_id := default "" (context_opponent_id game_context) in
  let '(act, reasoning, confidence) :=
    match last_opponent_action a opponent_id opponent_history with
    | None =>
        (COOPERATE,
         "First interaction with this agent - starting with cooperation as per tit-for-tat strategy.",
         0.8)
    | Some last_action =>
        if is_cooperative last_action then
          (COOPERATE,
           "Opponent cooperated last time (" +:+ action_value last_action
             +:+ "), so I will cooperate in return.",
           0.9)
        else
          (DEFECT,
           "Opponent defected last time (" +:+ action_value last_action
             +:+ "), so I will defect in return.",
           0.9)
    end in
  let knowledge_to_share :=
    if decide (act = COOPERATE ∧ opponent_id ≠ "")
    then take 2 (get_knowledge_to_share a opponent_id) else [] in
  Ok (mkDecision act reasoning confidence (Some knowledge_to_share)).

End GameAgents.

(** ** The arithmetic of a Public Goods round, exact and on doubles *)

(** The operations on numbers that [PublicGoodsGame.play_round] performs
    on the contributions, with the literal [0.8], the [0] that [sum] starts
    from and the conversion of [len(agents)] for the division. *)
Record Arithmetic (N : Type) := mkArithmetic {
  num_add : N → N → N;
  num_sub : N → N → N;
  num_mul : N → N → N;
  num_div : N → N → N;
  num_zero : N;
  num_of_nat : nat → N;
  num_08 : N
}.
Arguments num_add {N}.
Arguments num_sub {N}.
Arguments num_mul {N}.
Arguments num_div {N}.
Arguments num_zero {N}.
Arguments num_of_nat {N}.
Arguments num_08 {N}.




(** The payoffs of a round from its contributions:
    [total_contributions = sum(contributions.values())],
    [public_pool = total_contributions * self.multiplier],
    [equal_share = public_pool / len(agents)] and, per agent,
    [(self.endowment - contribution) + equal_share].  [sum] is read as
    adding the values in their order onto 0.  (From version 3.12 on
    CPython also carries the rounding errors of these additions along and
    adds them at the end; on the sums evaluated in this file, where every
    addition but the last is exact, the result is the same.) *)
Definition round_payoffs {N} (A : Arithmetic N) (E m : N) (contributions : list N)
    : list N :=
  let total_contributions := fold_left (num_add A) contributions (num_zero A) in
  let public_pool := num_mul A total_contributions m in
  let equal_share := num_div A public_pool (num_of_nat A (length contributions)) in
  (λ contribution, num_add A (num_sub A E contribution) equal_share)
    <$> contributions.


(** * Properties *)

(** ** AgentState.update_trust *)

Lemma update_trust_lookup st p cooperated decay_rate q :
  trust_scores (update_trust st p cooperated decay_rate) !! q =
    if decide (q = p)
    then Some (if cooperated
               then Qmin 1 (default 0.5 (trust_scores st !! p) + 0.1)
               else Qmax 0 (default 0.5 (trust_scores st !! p) - 0.2))
    else (λ v, v * (1 - decay_rate)) <$> trust_scores st !! q.
Proof.
  unfold update_trust; simpl. rewrite map_lookup_imap.
  destruct (decide (q = p)) as [->|Hne];
    destruct (trust_scores st !! p) as [old|] eqn:Hp; simpl;
    rewrite ?Hp; simpl; destruct cooperated;
    rewrite ?lookup_insert_eq, ?lookup_insert_ne by done; simpl;
    try (rewrite decide_False by auto; done).
  all: destruct (trust_scores st !! q); simpl; [|done];
    rewrite decide_True by done; done.
Qed.

(** C5. [update_trust(p, cooperated, decay_rate)] sets the trust score of
    [p] to [min(1.0, old + 0.1)] when [cooperated] and to
    [max(0.0, old - 0.2)] otherwise, where [old] is 0.5 for a peer without
    an entry; the score of every other recorded peer is multiplied by
    [1 - decay_rate] (and a peer without an entry stays without one); no
    other field of the [AgentState] changes. *)
Theorem update_trust_spec (st : AgentState) (p : string) (cooperated : bool)
    (decay_rate : Q) :
  let old := default 0.5 (trust_scores st !! p) in
  let st' := update_trust st p cooperated decay_rate in
  trust_scores st' !! p =
    Some (if cooperated then Qmin 1 (old + 0.1) else Qmax 0 (old - 0.2))
  ∧ (∀ q, q ≠ p →
       trust_scores st' !! q = (λ v, v * (1 - decay_rate)) <$> trust_scores st !! q)
  ∧ knowledge_base st' = knowledge_base st
  ∧ cooperation_history st' = cooperation_history st
  ∧ payoff_history st' = payoff_history st
  ∧ reputation st' = reputation st.
Proof.
  cbv zeta. split; [|split; [|done]].
  - rewrite update_trust_lookup, decide_True by done. done.
  - intros q Hq. rewrite update_trust_lookup, decide_False by done. done.
Qed.

Lemma Qmin_1_bounds x : 0 <= x + 0.1 → 0 <= Qmin 1 (x + 0.1) <= 1.
Proof.
  intros Hx.
  destruct (Q.min_spec 1 (x + 0.1)) as [[Hlt Heq]|[Hle Heq]]; rewrite Heq; lra.
Qed.

Lemma Qmax_0_bounds x : x - 0.2 <= 1 → 0 <= Qmax 0 (x - 0.2) <= 1.
Proof.
  intros Hx.
  destruct (Q.max_spec 0 (x - 0.2)) as [[Hlt Heq]|[Hle Heq]]; rewrite Heq; lra.
Qed.

Lemma update_trust_in_unit_interval st p cooperated :
  trust_in_unit_interval st →
  trust_in_unit_interval (update_trust st p cooperated default_decay_rate).
Proof.
  unfold trust_in_unit_interval. intros Hst q v Hq.
  rewrite update_trust_lookup in Hq.
  assert (Hold : 0 <= default 0.5 (trust_scores st !! p) <= 1).
  { destruct (trust_scores st !! p) as [old|] eqn:Hp; simpl; [|lra].
    exact (Hst p old Hp). }
  destruct (decide (q = p)) as [->|Hne].
  - injection Hq as <-. destruct cooperated.
    + apply Qmin_1_bounds. lra.
    + apply Qmax_0_bounds. lra.
  - destruct (trust_scores st !! q) as [w|] eqn:Hw; simpl in Hq; [|done].
    injection Hq as <-. pose proof (Hst q w Hw) as Hw'. simpl in Hw'.
    unfold default_decay_rate. lra.
Qed.

(** C6. If every trust score of an [AgentState] lies in [0,1], then after
    any finite sequence of [update_trust] calls (any peers, any cooperation
    flags, the default [decay_rate] 0.1) every stored trust score still lies
    in [0,1]. *)
Theorem trust_stays_in_unit_interval (st : AgentState) (calls : list (string * bool)) :
  trust_in_unit_interval st →
  trust_in_unit_interval (update_trust_many st calls).
Proof.
  unfold update_trust_many. revert st.
  induction calls as [|[p c] calls IH]; intros st Hst; simpl; [done|].
  apply IH. by apply update_trust_in_unit_interval.
Qed.

Lemma trust_stays_in_unit_interval_witness :
  trust_in_unit_interval (mkState {[ "bob" := 1 ]} [] [] [] 0.5)
  ∧ trust_in_unit_interval
      (update_trust_many (mkState {[ "bob" := 1 ]} [] [] [] 0.5)
         [("bob", true); ("eve", false); ("eve", false); ("eve", false); ("bob", false)]).
Proof.
  assert (H : trust_in_unit_interval (mkState {[ "bob" := 1 ]} [] [] [] 0.5)).
  { unfold trust_in_unit_interval; simpl. apply map_Forall_singleton. lra. }
  split; [exact H|].
  exact (trust_stays_in_unit_interval _ _ H).
Defined.

(** ** Cooperation rates *)

Lemma Qltb_lt x y : Qltb x y = true ↔ x < y.
Proof.
  unfold Qltb. rewrite Qlt_alt. destruct (x ?= y); split; congruence.
Qed.

Lemma Qltb_ge x y : Qltb x y = false ↔ y <= x.
Proof.
  rewrite <- not_true_iff_false, Qltb_lt. split; [apply Qnot_lt_le|apply Qle_not_lt].
Qed.

Lemma Qgtb_gt x y : Qgtb x y = true ↔ y < x.
Proof. apply Qltb_lt. Qed.

Lemma Qgtb_le x y : Qgtb x y = false ↔ x <= y.
Proof. apply Qltb_ge. Qed.

Lemma Qlen_cons_nonzero {A} (x : A) (l : list A) : ¬ Qlen (x :: l) == 0.
Proof.
  unfold Qlen, Qeq; simpl. lia.
Qed.

Lemma count_cooperative_replicate n :
  count_cooperative (replicate n COOPERATE) = n.
Proof.
  unfold count_cooperative.
  induction n as [|n IH]; [done|].
  change (replicate (S n) COOPERATE) with (COOPERATE :: replicate n COOPERATE).
  rewrite filter_cons_True by done. simpl. by rewrite IH.
Qed.

(** C8. [calculate_cooperation_rate] returns 0.0 on the empty list (the
    function is total: it never raises); on a non-empty list it returns the
    number of cooperative actions divided by the length, where an action is
    counted iff it is COOPERATE or SHARE_KNOWLEDGE; on [n] COOPERATE actions,
    [n > 0], the result is 1. *)
Theorem calculate_cooperation_rate_spec :
  calculate_cooperation_rate [] = 0
  ∧ (∀ a actions,
       calculate_cooperation_rate (a :: actions) =
         inject_Z (Z.of_nat (length (filter (λ x, x = COOPERATE ∨ x = SHARE_KNOWLEDGE)
                                            (a :: actions))))
         / inject_Z (Z.of_nat (length (a :: actions))))
  ∧ (∀ n, calculate_cooperation_rate (replicate (S n) COOPERATE) == 1).
Proof.
  split; [done|]. split.
  - intros a actions. unfold calculate_cooperation_rate, count_cooperative, Qlen.
    do 4 f_equal. apply list_filter_iff. intros x. destruct x; simpl; intuition congruence.
  - intros n. change (replicate (S n) COOPERATE) with (COOPERATE :: replicate n COOPERATE).
    unfold calculate_cooperation_rate.
    change (COOPERATE :: replicate n COOPERATE) with (replicate (S n) COOPERATE).
    rewrite count_cooperative_replicate. unfold Qlen. rewrite length_replicate.
    apply Qmult_inv_r. unfold Qeq; simpl. lia.
Qed.

(** C9. [get_cooperation_rate] returns 0.5 in both edge cases without
    data: when the cooperation history is empty (whatever the argument),
    and when a peer id is given (a non-empty string, which is how the code's
    [if agent_id:] reads "given") and no recorded interaction is with that
    peer.  [calculate_cooperation_rate] returns 0.0 on its empty input, and
    the two defaults differ. *)
Theorem get_cooperation_rate_default (a : BaseGameAgent) (agent_id : option string) :
  (cooperation_history (state a) = []
   ∨ ∃ p, agent_id = Some p ∧ p ≠ ""
          ∧ Forall (λ e, e.1 ≠ p) (cooperation_history (state a))) →
  get_cooperation_rate a agent_id = 0.5
  ∧ calculate_cooperation_rate [] = 0
  ∧ ¬ 0.5 == 0.
Proof.
  intros H. split; [|split; [done|by intros ?]].
  unfold get_cooperation_rate.
  destruct H as [->|(p & -> & Hp & Hall)]; [done|].
  destruct (cooperation_history (state a)) as [|e hist] eqn:Hh; [done|].
  unfold str_truthy. rewrite decide_False by done.
  assert (Hnil : filter (λ e0 : string * AgentAction, Some e0.1 = Some p) (e :: hist) = []).
  { clear Hh. induction Hall as [|e' l He' _ IH]; [done|].
    rewrite filter_cons_False by (intros [=]; done). exact IH. }
  by rewrite Hnil.
Qed.

Lemma get_cooperation_rate_default_witness :
  get_cooperation_rate
    (mkAgent "alice" "tit_for_tat" 0.5 0.5
       (mkState ∅ [] [("bob", DEFECT)] [0] 0))
    (Some "eve") = 0.5
  ∧ get_cooperation_rate (mkAgent "alice" "tit_for_tat" 0.5 0.5 initial_state) None = 0.5.
Proof.
  split.
  - apply (get_cooperation_rate_default
             (mkAgent "alice" "tit_for_tat" 0.5 0.5
                (mkState ∅ [] [("bob", DEFECT)] [0] 0)) (Some "eve")).
    right. exists "eve". split; [reflexivity|]. split; [discriminate|].
    repeat constructor. discriminate.
  - apply (get_cooperation_rate_default
             (mkAgent "alice" "tit_for_tat" 0.5 0.5 initial_state) None).
    left. reflexivity.
Defined.

(** ** Adaptive.decide *)

Lemma clamp_bounds x : 0 <= Qmax 0 (Qmin 1 x) <= 1.
Proof.
  destruct (Q.max_spec 0 (Qmin 1 x)) as [[Hlt Heq]|[Hle Heq]]; rewrite Heq;
    destruct (Q.min_spec 1 x) as [[Hlt' Heq']|[Hle' Heq']]; rewrite ?Heq' in *; lra.
Qed.

Lemma adaptive_decide_probability_eq s round_number last rnd :
  round_number ≠ 0%Z →
  Strategies.cooperation_probability (Strategies.decide s round_number last rnd).2 =
    Strategies.adapt_probability s.
Proof.
  intros Hr. unfold Strategies.decide. rewrite decide_False by done.
  repeat case_match; done.
Qed.

(** C3 (as stated in the specification, refuted).  The claim reads: on every
    [decide] call with [round_number >= 1] and a non-empty payoff history the
    new cooperation probability is the one of [spec_adapt_probability]
    (raised when the trailing average exceeds 3.0, otherwise moved by the
    opponent's trailing cooperation rate).  After one round of mutual
    cooperation at payoff 3.0 the code leaves the probability at 0.5 where
    the claim moves it to 0.55. *)
Lemma adaptive_otherwise_counterexample :
  ¬ (∀ (s : Strategies.Adaptive) (round_number : Z)
       (last : option AgentAction) (rnd : Strategies.Draws),
       (1 <= round_number)%Z →
       Strategies.payoff_history s ≠ [] →
       Strategies.cooperation_probability
         (Strategies.decide s round_number last rnd).2
       == Strategies.spec_adapt_probability s).
Proof.
  intros H.
  specialize (H (Strategies.update_history (Strategies.new_adaptive 0.1 0.1 0.5)
                   COOPERATE COOPERATE 3)
                1%Z (Some COOPERATE) (Strategies.mkDraws 0.9 COOPERATE 0.9)).
  assert (Hne : Strategies.payoff_history
                  (Strategies.update_history (Strategies.new_adaptive 0.1 0.1 0.5)
                     COOPERATE COOPERATE 3) ≠ []) by discriminate.
  specialize (H ltac:(lia) Hne).
  vm_compute in H. discriminate H.
Qed.

(** C3 (amended).  On every [decide] call with [round_number >= 1] and a
    non-empty payoff history, with [avg] the average of the last 5 own
    payoffs: if [avg > 3.0] the cooperation probability is raised by
    [learning_rate * 0.1]; if [avg < 2.0] it is moved by
    [(rate - 0.5) * learning_rate], [rate] being the opponent's cooperation
    rate over the last 5 opponent actions (and left alone when no opponent
    action is recorded); if [2.0 <= avg <= 3.0] it is left alone; in every
    case the result is then clamped to [0,1]. *)
Theorem adaptive_decide_probability (s : Strategies.Adaptive) (round_number : Z)
    (last : option AgentAction) (rnd : Strategies.Draws) :
  (1 <= round_number)%Z →
  Strategies.payoff_history s ≠ [] →
  let avg := Strategies.recent_avg_payoff s in
  let p := Strategies.cooperation_probability s in
  let lr := Strategies.learning_rate s in
  let rate := Strategies.opponent_cooperation_rate s in
  let p' := Strategies.cooperation_probability
              (Strategies.decide s round_number last rnd).2 in
  (3 < avg → p' = Qmax 0 (Qmin 1 (p + lr * 0.1)))
  ∧ (avg < 2 → Strategies.opponent_history s ≠ [] →
       p' = Qmax 0 (Qmin 1 (p + (rate - 0.5) * lr)))
  ∧ (avg < 2 → Strategies.opponent_history s = [] → p' = Qmax 0 (Qmin 1 p))
  ∧ (2 <= avg <= 3 → p' = Qmax 0 (Qmin 1 p))
  ∧ 0 <= p' <= 1.
Proof.
  intros Hr Hpay. cbv zeta.
  rewrite adaptive_decide_probability_eq by lia.
  unfold Strategies.adapt_probability.
  destruct (Strategies.payoff_history s) as [|x pays] eqn:Hp; [done|].
  repeat split; try apply clamp_bounds.
  - intros Havg. apply Qgtb_gt in Havg. by rewrite Havg.
  - intros Havg Hopp.
    assert (Hle : Strategies.recent_avg_payoff s <= 3) by lra.
    apply Qgtb_le in Hle. apply Qltb_lt in Havg. rewrite Hle, Havg.
    by destruct (Strategies.opponent_history s).
  - intros Havg Hopp.
    assert (Hle : Strategies.recent_avg_payoff s <= 3) by lra.
    apply Qgtb_le in Hle. apply Qltb_lt in Havg. rewrite Hle, Havg.
    by rewrite Hopp.
  - intros [Hlo Hhi]. apply Qgtb_le in Hhi. apply Qltb_ge in Hlo.
    by rewrite Hhi, Hlo.
Qed.

Lemma adaptive_decide_probability_witness :
  Strategies.cooperation_probability
    (Strategies.decide
       (Strategies.update_history (Strategies.new_adaptive 0.1 0.1 0.5)
          COOPERATE DEFECT 0)
       1%Z (Some DEFECT) (Strategies.mkDraws 0.9 COOPERATE 0.9)).2
  = Qmax 0 (Qmin 1 (0.5 + (0 / 1 - 0.5) * 0.1)).
Proof.
  assert (Hne : Strategies.payoff_history
                  (Strategies.update_history (Strategies.new_adaptive 0.1 0.1 0.5)
                     COOPERATE DEFECT 0) ≠ []) by discriminate.
  assert (Hr : (1 <= 1)%Z) by lia.
  pose proof (adaptive_decide_probability
                (Strategies.update_history (Strategies.new_adaptive 0.1 0.1 0.5)
                   COOPERATE DEFECT 0)
                1%Z (Some DEFECT) (Strategies.mkDraws 0.9 COOPERATE 0.9) Hr Hne)
    as (_ & Hlow & _).
  apply Hlow; [reflexivity|discriminate].
Defined.

(** ** BaseGame.reset *)

(** What [reset] does on each game: the round counter and the list of
    results are cleared, every field a subclass adds is kept. *)
Lemma reset_effect :
  (∀ g : PrisonersDilemma,
     round_number (base (reset g)) = O ∧ results_history (base (reset g)) = []
     ∧ reward_matrix (reset g) = reward_matrix g
     ∧ game_history (reset g) = game_history g)
  ∧ (∀ g : PublicGoodsGame,
       round_number (base (reset g)) = O ∧ results_history (base (reset g)) = []
       ∧ multiplier (reset g) = multiplier g ∧ endowment (reset g) = endowment g
       ∧ contribution_history (reset g) = contribution_history g)
  ∧ (∀ g : KnowledgeSharingGame,
       round_number (base (reset g)) = O ∧ results_history (base (reset g)) = []
       ∧ knowledge_value (reset g) = knowledge_value g
       ∧ sharing_cost (reset g) = sharing_cost g).
Proof. repeat split. Qed.

(** C2 (the code departs from the claim).  After one round has been played,
    [reset()] brings the round counter back to 0 and empties
    [results_history], but the per-round history of the game is still there:
    [game_history] of the Prisoner's Dilemma keeps the round's pair of
    actions and [contribution_history] of the Public Goods Game keeps the
    round's contributions. *)
Theorem reset_keeps_round_history :
  round_number (base pd_after_one_round) = 1%nat
  ∧ round_number (base (reset pd_after_one_round)) = O
  ∧ results_history (base (reset pd_after_one_round)) = []
  ∧ game_history (reset pd_after_one_round) = [(COOPERATE, COOPERATE)]
  ∧ round_number (base (reset pg_after_one_round)) = O
  ∧ contribution_history (reset pg_after_one_round)
    = [[("Agent1", 10 * 0.8); ("Agent2", 10 * 0.8)]].
Proof. repeat split. Qed.

(** [play_full_game] starts with [reset()], yet the second one-round game
    on the same object analyses two rounds: the round of the first game is
    still in [game_history]. *)
Example pd_second_game_analyses_two_rounds :
  (rounds <$> (match pd_second_game with Ok res => Some res | _ => None end))
  = Some 1%nat
  ∧ (match pd_second_game with Ok res => analysed_rounds res | _ => None end)
    = Some 2%nat.
Proof. split; reflexivity. Qed.

(** ** Dicts and loops *)

Section dict_lemmas.
Context {V : Type}.
Implicit Types (d : Dict V) (k : string) (v : V).

Lemma dict_lookup_set_eq d k v : dict_lookup (dict_set d k v) k = Some v.
Proof.
  induction d as [|[k' v'] d IH]; simpl.
  - by rewrite decide_True.
  - destruct (decide (k' = k)); simpl.
    + by rewrite decide_True.
    + by rewrite decide_False.
Qed.

Lemma dict_lookup_set_ne d k k' v :
  k ≠ k' → dict_lookup (dict_set d k v) k' = dict_lookup d k'.
Proof.
  intros Hne. induction d as [|[k0 v0] d IH]; simpl.
  - by rewrite decide_False.
  - destruct (decide (k0 = k)) as [->|]; simpl.
    + by rewrite !decide_False.
    + by rewrite IH.
Qed.

Lemma dict_lookup_None d k : dict_lookup d k = None ↔ k ∉ dict_keys d.
Proof.
  unfold dict_keys. induction d as [|[k' v'] d IH]; simpl.
  - split; [intros _; apply not_elem_of_nil|done].
  - rewrite not_elem_of_cons. destruct (decide (k' = k)) as [->|]; simpl.
    + split; [done|intros [? _]; done].
    + rewrite IH. split; [by intros ?; split|by intros [_ ?]].
Qed.

Lemma dict_lookup_is_Some d k : is_Some (dict_lookup d k) ↔ k ∈ dict_keys d.
Proof.
  rewrite <- not_eq_None_Some, dict_lookup_None.
  split; [apply dec_stable|auto].
Qed.

Lemma dict_set_fresh d k v : k ∉ dict_keys d → dict_set d k v = d ++ [(k, v)].
Proof.
  unfold dict_keys. induction d as [|[k' v'] d IH]; simpl; [done|].
  rewrite not_elem_of_cons. intros [Hne Hnin].
  rewrite decide_False by done. by rewrite IH.
Qed.

Lemma dict_keys_set_in d k v : k ∈ dict_keys d → dict_keys (dict_set d k v) = dict_keys d.
Proof.
  unfold dict_keys. induction d as [|[k' v'] d IH]; simpl.
  - by intros ?%elem_of_nil.
  - destruct (decide (k' = k)) as [->|Hne]; simpl; [done|].
    rewrite elem_of_cons. intros [?|Hin]; [done|]. f_equal. by apply IH.
Qed.

Lemma dict_keys_set d k v :
  dict_keys (dict_set d k v) =
    if decide (k ∈ dict_keys d) then dict_keys d else dict_keys d ++ [k].
Proof.
  destruct (decide (k ∈ dict_keys d)).
  - by apply dict_keys_set_in.
  - rewrite dict_set_fresh by done. unfold dict_keys. by rewrite fmap_app.
Qed.

Lemma elem_of_dict_keys_set d k v k' :
  k' ∈ dict_keys (dict_set d k v) ↔ k' = k ∨ k' ∈ dict_keys d.
Proof.
  rewrite dict_keys_set. destruct (decide (k ∈ dict_keys d)).
  - split; [by right|by intros [->|?]].
  - rewrite elem_of_app, list_elem_of_singleton. tauto.
Qed.

Lemma dict_get_Ok d k v : dict_get d k = Ok v ↔ dict_lookup d k = Some v.
Proof.
  unfold dict_get. destruct (dict_lookup d k); split; congruence.
Qed.

Lemma dict_lookup_app d d' k :
  dict_lookup (d ++ d') k =
    match dict_lookup d k with Some v => Some v | None => dict_lookup d' k end.
Proof.
  induction d as [|[k' v'] d IH]; simpl; [done|].
  by destruct (decide (k' = k)).
Qed.

Lemma dict_set_nonempty d k v : dict_set d k v ≠ [].
Proof. destruct d as [|[k' v'] d]; simpl; [done|]. by destruct (decide (k' = k)). Qed.

End dict_lemmas.

(** A dict built by one [d[key(x)] = val(x)] per element of a list with
    pairwise different keys lists the elements in order. *)
Lemma dict_build_nodup {A V} (key : A → string) (val : A → V) (l : list A)
    (d : Dict V) :
  NoDup (key <$> l) →
  (∀ x, x ∈ l → key x ∉ dict_keys d) →
  fold_left (λ d' x, dict_set d' (key x) (val x)) l d
  = d ++ ((λ x, (key x, val x)) <$> l).
Proof.
  revert d. induction l as [|x l IH]; intros d Hnd Hfresh; simpl.
  - by rewrite app_nil_r.
  - rewrite fmap_cons in Hnd. apply NoDup_cons in Hnd as [Hx Hnd].
    rewrite dict_set_fresh by (apply Hfresh; left).
    rewrite IH; [by rewrite <- app_assoc|done|].
    intros y Hy. unfold dict_keys. rewrite fmap_app, elem_of_app. simpl.
    intros [Hin|Hin%list_elem_of_singleton].
    + by apply (Hfresh y); [right|].
    + apply Hx. rewrite <- Hin. by apply list_elem_of_fmap_2.
Qed.

Lemma dict_of_nodup {A V} (key : A → string) (val : A → V) (l : list A) :
  NoDup (key <$> l) → dict_of key val l = (λ x, (key x, val x)) <$> l.
Proof.
  intros Hnd. unfold dict_of. rewrite dict_build_nodup; [done|done|].
  intros x _. apply not_elem_of_nil.
Qed.

(** Looking up the key of a listed element in such a dict. *)
Lemma dict_lookup_fmap_nodup {A V} (key : A → string) (val : A → V) (l : list A) x :
  NoDup (key <$> l) → x ∈ l →
  dict_lookup ((λ y, (key y, val y)) <$> l) (key x) = Some (val x).
Proof.
  induction l as [|y l IH]; intros Hnd Hx; [by apply elem_of_nil in Hx|].
  rewrite fmap_cons in Hnd. apply NoDup_cons in Hnd as [Hy Hnd].
  simpl. apply elem_of_cons in Hx as [->|Hx].
  - by rewrite decide_True.
  - rewrite decide_False; [by apply IH|].
    intros Heq. apply Hy. rewrite Heq. by apply list_elem_of_fmap_2.
Qed.

Lemma fold_left_ext {A B} (f h : B → A → B) (l : list A) (b : B) :
  (∀ b' x, f b' x = h b' x) → fold_left f l b = fold_left h l b.
Proof.
  intros Hfh. revert b. induction l as [|x l IH]; intros b; simpl; [done|].
  by rewrite Hfh, IH.
Qed.

Lemma fold_left_pair {A B C} (f : B → A → B) (h : C → A → C) (l : list A) b c :
  fold_left (λ acc x, (f acc.1 x, h acc.2 x)) l (b, c)
  = (fold_left f l b, fold_left h l c).
Proof.
  revert b c. induction l as [|x l IH]; intros b c; simpl; [done|]. by rewrite IH.
Qed.

Lemma for_each_agent_ok (body : BaseGameAgent → Result BaseGameAgent)
    (f : BaseGameAgent → BaseGameAgent) (l : list BaseGameAgent) :
  (∀ a, a ∈ l → body a = Ok (f a)) →
  for_each_agent body l = (Ok (), f <$> l).
Proof.
  induction l as [|a l IH]; intros Hok; simpl; [done|].
  rewrite (Hok a) by left. rewrite IH; [done|].
  intros a' Ha'. apply Hok. by right.
Qed.

Lemma foldM_inv {A B} (I : B → Prop) (f : B → A → Result B) (l : list A) (b : B) :
  I b →
  (∀ b' x, I b' → x ∈ l → ∃ b'', f b' x = Ok b'' ∧ I b'') →
  ∃ b', foldM f l b = Ok b' ∧ I b'.
Proof.
  revert b. induction l as [|x l IH]; intros b Hb Hstep; simpl.
  - by exists b.
  - destruct (Hstep b x Hb) as (b1 & Hf & Hb1); [left|].
    rewrite Hf. simpl. apply IH; [done|].
    intros b' y Hb' Hy. apply Hstep; [done|by right].
Qed.

Lemma snd_imap_pair {A} (l : list A) : snd <$> imap pair l = l.
Proof.
  rewrite fmap_imap. unfold compose; simpl.
  revert l. generalize O. intros n l. 
  induction l as [|x l IH]; simpl; [done|]. f_equal.
  rewrite <- IH at 2. apply imap_ext. done.
Qed.

(** ** PublicGoodsGame.play_round *)

Section public_goods.
Context {UserContext : Type}.
Context (make_decision :
  BaseGameAgent → GameContext UserContext → option (list AgentAction) → Result GameDecision).
Implicit Types (g : PublicGoodsGame) (agents : list BaseGameAgent).

Lemma names_imap_pair agents :
  (λ ia : nat * BaseGameAgent, name ia.2) <$> imap pair agents = name <$> agents.
Proof.
  change (λ ia : nat * BaseGameAgent, name ia.2) with (name ∘ (snd : nat * BaseGameAgent → _)).
  by rewrite list_fmap_compose, snd_imap_pair.
Qed.

Lemma pg_collect_nodup g context agents :
  NoDup (name <$> agents) →
  pg_collect UserContext make_decision g context agents =
    ((λ ia, (name ia.2, pg_contribution_of UserContext make_decision g context agents ia))
       <$> imap pair agents,
     (λ ia, (name ia.2, pg_decision_of UserContext make_decision g context agents ia))
       <$> imap pair agents).
Proof.
  intros Hnd. unfold pg_collect.
  rewrite (fold_left_ext _
    (λ acc ia,
       (dict_set acc.1 (name ia.2)
          (pg_contribution_of UserContext make_decision g context agents ia),
        dict_set acc.2 (name ia.2)
          (pg_decision_of UserContext make_decision g context agents ia)))).
  - rewrite (fold_left_pair
      (λ c ia, dict_set c (name ia.2)
                 (pg_contribution_of UserContext make_decision g context agents ia))
      (λ d ia, dict_set d (name ia.2)
                 (pg_decision_of UserContext make_decision g context agents ia))).
    rewrite !dict_build_nodup; try (by rewrite names_imap_pair);
      try (intros; apply not_elem_of_nil).
    done.
  - intros [c d] [i a]. unfold pg_contribution_of, pg_decision_of. simpl.
    by destruct (make_decision a _ None).
Qed.

Lemma for_each_agent_Forall2 (P : BaseGameAgent → BaseGameAgent → Prop)
    (body : BaseGameAgent → Result BaseGameAgent) agents :
  (∀ a, a ∈ agents → ∃ a', body a = Ok a' ∧ P a a') →
  ∃ agents', for_each_agent body agents = (Ok (), agents') ∧ Forall2 P agents agents'.
Proof.
  induction agents as [|a l IH]; intros Hok; simpl.
  - exists []. by split.
  - destruct (Hok a) as (a' & Ha & HP); [left|]. rewrite Ha.
    destruct IH as (l' & Hl & HF); [intros b Hb; apply Hok; by right|].
    rewrite Hl. exists (a' :: l'). split; [done|by constructor].
Qed.




Lemma qdiv_Ok x y : ¬ y == 0 → qdiv x y = Ok (x / y).
Proof.
  intros Hy. unfold qdiv.
  destruct (Qeq_bool y 0) eqn:Hb; [|done].
  by apply Qeq_bool_iff in Hb.
Qed.

Lemma Qlen_nonzero {A} (l : list A) : l ≠ [] → ¬ Qlen l == 0.
Proof. destruct l; [done|]. intros _. apply Qlen_cons_nonzero. Qed.

Lemma elem_of_imap_pair {A} (l : list A) i x :
  (i, x) ∈ imap pair l ↔ l !! i = Some x.
Proof.
  rewrite list_elem_of_lookup. split.
  - intros [j Hj]. rewrite list_lookup_imap in Hj.
    destruct (l !! j) eqn:Hlj; simpl in Hj; [|done]. by simplify_eq.
  - intros Hi. exists i. by rewrite list_lookup_imap, Hi.
Qed.

Lemma dict_lookup_indexed {V} (val : nat * BaseGameAgent → V) agents i a :
  NoDup (name <$> agents) → agents !! i = Some a →
  dict_lookup ((λ ia : nat * BaseGameAgent, (name ia.2, val ia)) <$> imap pair agents)
              (name a) = Some (val (i, a)).
Proof.
  intros Hnd Hi.
  apply (dict_lookup_fmap_nodup (λ ia : nat * BaseGameAgent, name ia.2) val _ (i, a)).
  - by rewrite names_imap_pair.
  - by apply elem_of_imap_pair.
Qed.




End public_goods.



(** ** KnowledgeSharingGame.play_round *)

Section knowledge_sharing.
Context {UserContext : Type}.
Context (make_decision :
  BaseGameAgent → GameContext UserContext → option (list AgentAction) → Result GameDecision).
Context (random_index : nat → nat → nat).
Implicit Types (g : KnowledgeSharingGame) (agents : list BaseGameAgent).
Implicit Types (ks rec : Dict (list string)) (pay : Dict Q).

Lemma ks_collect_nodup g context agents :
  NoDup (name <$> agents) →
  ks_collect UserContext make_decision g context agents =
    ((λ ia, (name ia.2, ks_decision_of UserContext make_decision g context agents ia))
       <$> imap pair agents,
     (λ ia, (name ia.2, ks_offer_of UserContext make_decision g context agents ia))
       <$> imap pair agents).
Proof.
  intros Hnd. unfold ks_collect.
  rewrite (fold_left_ext _
    (λ acc ia,
       (dict_set acc.1 (name ia.2)
          (ks_decision_of UserContext make_decision g context agents ia),
        dict_set acc.2 (name ia.2)
          (ks_offer_of UserContext make_decision g context agents ia)))).
  - rewrite (fold_left_pair
      (λ d ia, dict_set d (name ia.2)
                 (ks_decision_of UserContext make_decision g context agents ia))
      (λ k ia, dict_set k (name ia.2)
                 (ks_offer_of UserContext make_decision g context agents ia))).
    rewrite !dict_build_nodup; try (by rewrite names_imap_pair);
      try (intros; apply not_elem_of_nil).
    done.
  - intros [d k] [i a]. unfold ks_decision_of, ks_offer_of. simpl.
    by destruct (make_decision a _ None).
Qed.

Lemma dict_set_id {V} (d : Dict V) k v : dict_lookup d k = Some v → dict_set d k v = d.
Proof.
  induction d as [|[k' v'] d IH]; simpl; [done|].
  destruct (decide (k' = k)) as [->|]; [by intros [= ->]|].
  intros Hd. by rewrite IH.
Qed.

Lemma dict_set_set {V} (d : Dict V) k v v' :
  dict_set (dict_set d k v) k v' = dict_set d k v'.
Proof.
  induction d as [|[k0 v0] d IH]; simpl.
  - by rewrite decide_True.
  - destruct (decide (k0 = k)) as [->|]; simpl.
    + by rewrite decide_True.
    + by rewrite decide_False, IH.
Qed.

Lemma Qlen_app {A} (l1 l2 : list A) : Qlen (l1 ++ l2) == Qlen l1 + Qlen l2.
Proof.
  unfold Qlen. by rewrite length_app, Nat2Z.inj_add, inject_Z_plus.
Qed.

Lemma nonempty_false {A} (l : list A) : nonempty l = false → l = [].
Proof. by destruct l. Qed.

Lemma foldM_cons {A B} (f : B → A → Result B) x l b :
  foldM f (x :: l) b = f b x ≫= foldM f l.
Proof. done. Qed.

Lemma ks_receive_step_eq g ks (rcv s : BaseGameAgent) (p : Q) rec shared got :
  dict_lookup ks (name s) = Some shared →
  dict_lookup rec (name rcv) = Some got →
  ks_receive_step g ks rcv (p, rec) s =
    Ok (if bool_decide (name s ≠ name rcv) && nonempty shared && ks_gate s rcv
        then (p + knowledge_value g * Qlen shared,
              dict_set rec (name rcv) (got ++ shared))
        else (p, rec)).
Proof.
  intros Hs Hr. unfold ks_receive_step, ks_gate, dict_get. rewrite Hs, Hr.
  destruct (decide (name s ≠ name rcv)).
  - rewrite bool_decide_eq_true_2 by done. simpl.
    destruct (nonempty shared); [|done].
    by destruct (Qgtb (get_trust_score s (name rcv)) 0.3).
  - by rewrite bool_decide_eq_false_2 by done.
Qed.

Lemma ks_pair_transfer_eq ks (rcv s : BaseGameAgent) shared :
  dict_lookup ks (name s) = Some shared →
  ks_pair_transfer (offer_in ks) rcv s =
    if bool_decide (name s ≠ name rcv) && nonempty shared && ks_gate s rcv
    then shared else [].
Proof.
  intros Hs. unfold ks_pair_transfer, offer_in. rewrite Hs. simpl.
  destruct (decide (name s ≠ name rcv)).
  - rewrite bool_decide_eq_true_2 by done. simpl.
    destruct shared; simpl; [by destruct (ks_gate s rcv)|done].
  - by rewrite bool_decide_eq_false_2 by done.
Qed.

(** The inner loop for one receiver: what the receiver gets from the
    sharers in [l]. *)
Lemma ks_receive_fold g ks (rcv : BaseGameAgent) (l : list BaseGameAgent)
    (p : Q) rec (got : list string) :
  (∀ s, s ∈ l → name s ∈ dict_keys ks) →
  dict_lookup rec (name rcv) = Some got →
  ∃ p',
    foldM (ks_receive_step g ks rcv) l (p, rec)
    = Ok (p', dict_set rec (name rcv)
                (got ++ flat_map (ks_pair_transfer (offer_in ks) rcv) l))
    ∧ p' == p + knowledge_value g
                * Qlen (flat_map (ks_pair_transfer (offer_in ks) rcv) l)
    ∧ p' = fold_left (ks_credit g (offer_in ks) rcv) l p.
Proof.
  revert p rec got. induction l as [|s l IH]; intros p rec got Hks Hrec.
  - exists p. simpl. rewrite app_nil_r, dict_set_id by done.
    split; [done|]. split; [|done]. change (Qlen (@nil string)) with 0. lra.
  - assert (Hs : is_Some (dict_lookup ks (name s))).
    { apply dict_lookup_is_Some, Hks. left. }
    destruct Hs as [shared Hshared].
    assert (Hl : ∀ s', s' ∈ l → name s' ∈ dict_keys ks).
    { intros s' Hs'. apply Hks. by right. }
    rewrite foldM_cons, (ks_receive_step_eq g ks rcv s p rec shared got) by done.
    cbn [flat_map fold_left]. unfold ks_credit at 2.
    rewrite (ks_pair_transfer_eq ks rcv s shared) by done.
    destruct (bool_decide (name s ≠ name rcv) && nonempty shared && ks_gate s rcv)
      eqn:Hcond.
    + assert (Hnonempty : nonempty shared = true).
      { by destruct (bool_decide _), (nonempty shared). }
      rewrite Hnonempty.
      destruct (IH (p + knowledge_value g * Qlen shared)
                   (dict_set rec (name rcv) (got ++ shared))
                   (got ++ shared) Hl (dict_lookup_set_eq _ _ _))
        as (p' & Hfold & Hp' & Heq).
      exists p'. simpl. rewrite Hfold, dict_set_set, <- app_assoc.
      split; [done|]. split; [|done]. rewrite Hp', Qlen_app. lra.
    + destruct (IH p rec got Hl Hrec) as (p' & Hfold & Hp' & Heq).
      exists p'. simpl. rewrite Hfold. done.
Qed.

Lemma Qlen_nonempty_if {A} (l : list A) (c : Q) :
  (if nonempty l then 0 - c * Qlen l else 0) == - (c * Qlen l).
Proof.
  destruct l; simpl; [|lra]. change (Qlen (@nil A)) with 0. lra.
Qed.

Lemma ks_payoff_step_eq g ks agents (a : BaseGameAgent) pay rec own :
  dict_lookup ks (name a) = Some own →
  ks_payoff_step g ks agents (pay, rec) a =
    foldM (ks_receive_step g ks a) agents
          (if nonempty own then 0 - sharing_cost g * Qlen own else 0, rec)
    ≫= λ pr, Ok (dict_set pay (name a) pr.1, pr.2).
Proof.
  intros Hown. unfold ks_payoff_step, dict_get. rewrite Hown. simpl.
  by destruct (foldM _ _ _) as [[??]|].
Qed.

(** The outer loop: after the receivers in [l] have been processed, each
    of them has its received list and its payoff recorded. *)
Lemma ks_payoff_fold g ks agents (l : list BaseGameAgent) pay rec :
  (∀ s, s ∈ agents → name s ∈ dict_keys ks) →
  (∀ a, a ∈ l → name a ∈ dict_keys ks) →
  NoDup (name <$> l) →
  (∀ a, a ∈ l → dict_lookup rec (name a) = Some []) →
  ∃ pay' rec',
    foldM (ks_payoff_step g ks agents) l (pay, rec) = Ok (pay', rec')
    ∧ (∀ a, a ∈ l →
         dict_lookup rec' (name a) = Some (ks_transferred (offer_in ks) agents a)
         ∧ ∃ p, dict_lookup pay' (name a) = Some p
                ∧ p == knowledge_value g * Qlen (ks_transferred (offer_in ks) agents a)
                       - sharing_cost g * Qlen (offer_in ks a)
                ∧ p = ks_round_payoff g (offer_in ks) agents a)
    ∧ (∀ k, k ∉ name <$> l →
         dict_lookup rec' k = dict_lookup rec k ∧ dict_lookup pay' k = dict_lookup pay k).
Proof.
  intros Hks. revert pay rec.
  induction l as [|a l IH]; intros pay rec Hl Hnd Hrec.
  - exists pay, rec. simpl. split; [done|]. split; [|done].
    by intros a Ha%elem_of_nil.
  - rewrite fmap_cons in Hnd. apply NoDup_cons in Hnd as [Ha Hnd].
    assert (Hown : is_Some (dict_lookup ks (name a))).
    { apply dict_lookup_is_Some, Hl. left. }
    destruct Hown as [own Hown].
    set (payoff0 := if nonempty own then 0 - sharing_cost g * Qlen own else 0).
    destruct (ks_receive_fold g ks a agents payoff0 rec [] Hks (Hrec a ltac:(left)))
      as (p' & Hinner & Hp' & Hops).
    rewrite foldM_cons, (ks_payoff_step_eq g ks agents a pay rec own Hown).
    fold payoff0. rewrite Hinner. cbn [mbind Result_bind app fst snd].
    fold (ks_transferred (offer_in ks) agents a) in *.
    destruct (IH (dict_set pay (name a) p')
                 (dict_set rec (name a) (ks_transferred (offer_in ks) agents a)))
      as (pay' & rec' & Hfold & Hin & Hout).
    { intros a' Ha'. apply Hl. by right. }
    { done. }
    { intros a' Ha'. rewrite dict_lookup_set_ne; [apply Hrec; by right|].
      intros Heq. apply Ha. rewrite Heq. by apply list_elem_of_fmap_2. }
    exists pay', rec'. split; [done|]. split.
    + intros a' [->|Ha']%elem_of_cons; [|by apply Hin].
      destruct (Hout (name a) Ha) as [Hr Hp]. rewrite Hr, Hp.
      rewrite !dict_lookup_set_eq. split; [done|].
      exists p'. split; [done|]. split.
      * rewrite Hp'. unfold payoff0, offer_in.
        rewrite Hown. simpl. rewrite Qlen_nonempty_if. lra.
      * assert (Hoffer : offer_in ks a = own) by (unfold offer_in; by rewrite Hown).
        rewrite Hops. unfold ks_round_payoff, payoff0. by rewrite Hoffer.
    + intros k Hk. rewrite fmap_cons, not_elem_of_cons in Hk.
      destruct Hk as [Hne Hk]. destruct (Hout k Hk) as [Hr Hp].
      rewrite Hr, Hp. by rewrite !dict_lookup_set_ne.
Qed.

Lemma share_knowledge_frame (a : BaseGameAgent) (knowledge : list string) :
  name (share_knowledge a knowledge) = name a
  ∧ trust_scores (state (share_knowledge a knowledge)) = trust_scores (state a)
  ∧ knowledge_base (state (share_knowledge a knowledge))
    = add_knowledge (knowledge_base (state a)) knowledge.
Proof. done. Qed.

Lemma update_state_frame (a : BaseGameAgent) opponent_id opponent_action payoff my_action :
  name (update_state a opponent_id opponent_action payoff my_action) = name a
  ∧ knowledge_base (state (update_state a opponent_id opponent_action payoff my_action))
    = knowledge_base (state a).
Proof. done. Qed.

Lemma ks_seed_lookup rn agents i :
  ks_seed random_index rn agents !! i =
    (λ a, if decide (length (knowledge_base (state a)) < 3)%nat
          then share_knowledge a [new_knowledge random_index rn i] else a)
    <$> agents !! i.
Proof. unfold ks_seed. by rewrite list_lookup_imap. Qed.

Lemma ks_seed_frame rn agents i a1 :
  ks_seed random_index rn agents !! i = Some a1 →
  ∃ a, agents !! i = Some a ∧ name a1 = name a
       ∧ trust_scores (state a1) = trust_scores (state a).
Proof.
  rewrite ks_seed_lookup. destruct (agents !! i) as [a|]; [|done].
  simpl. intros [= <-]. exists a. split; [done|]. by case_decide.
Qed.

Lemma ks_seed_names rn agents :
  name <$> ks_seed random_index rn agents = name <$> agents.
Proof.
  apply list_eq. intros i. rewrite !list_lookup_fmap, ks_seed_lookup.
  destruct (agents !! i) as [a|]; [|done]. simpl. by case_decide.
Qed.

Lemma dict_keys_fmap {A V} (key : A → string) (val : A → V) (l : list A) :
  dict_keys ((λ x, (key x, val x)) <$> l) = key <$> l.
Proof. unfold dict_keys. by rewrite <- list_fmap_compose. Qed.

Lemma Forall2_names (P : BaseGameAgent → BaseGameAgent → Prop) agents agents' :
  (∀ a a', P a a' → name a' = name a) →
  Forall2 P agents agents' → name <$> agents' = name <$> agents.
Proof.
  intros HP HF. induction HF as [|a a' l l' Ha _ IH]; [done|].
  rewrite !fmap_cons. by rewrite (HP a a' Ha), IH.
Qed.

(** The transfer of a pair depends on the two agents only through their
    names and the sharer's trust scores. *)
Lemma ks_pair_transfer_frame ks (rcv rcv1 s s1 : BaseGameAgent) :
  name rcv1 = name rcv → name s1 = name s →
  trust_scores (state s1) = trust_scores (state s) →
  ks_pair_transfer (offer_in ks) rcv1 s1 = ks_pair_transfer (offer_in ks) rcv s.
Proof.
  intros Hr Hs Ht. unfold ks_pair_transfer, ks_gate, get_trust_score, offer_in.
  by rewrite Hr, Hs, Ht.
Qed.

Lemma flat_map_lookup_ext {A B C} (f : A → list C) (h : B → list C)
    (l : list A) (l' : list B) :
  (∀ i, match l !! i, l' !! i with
        | Some x, Some y => f x = h y
        | None, None => True
        | _, _ => False
        end) →
  flat_map f l = flat_map h l'.
Proof.
  revert l'. induction l as [|x l IH]; intros [|y l'] Hext; simpl.
  - done.
  - by specialize (Hext O).
  - by specialize (Hext O).
  - pose proof (Hext O) as H0. simpl in H0. rewrite H0. f_equal.
    apply IH. intros i. apply (Hext (S i)).
Qed.

Lemma ks_transferred_seed ks rn agents (rcv rcv1 : BaseGameAgent) :
  name rcv1 = name rcv →
  ks_transferred (offer_in ks) (ks_seed random_index rn agents) rcv1
  = ks_transferred (offer_in ks) agents rcv.
Proof.
  intros Hr. unfold ks_transferred. apply flat_map_lookup_ext. intros i.
  rewrite ks_seed_lookup. destruct (agents !! i) as [s|]; simpl; [|done].
  apply ks_pair_transfer_frame; [done|by case_decide..].
Qed.

Lemma fold_left_lookup_ext {A B C} (f : C → A → C) (h : C → B → C)
    (l : list A) (l' : list B) (c : C) :
  (∀ i, match l !! i, l' !! i with
        | Some x, Some y => ∀ c', f c' x = h c' y
        | None, None => True
        | _, _ => False
        end) →
  fold_left f l c = fold_left h l' c.
Proof.
  revert l' c. induction l as [|x l IH]; intros [|y l'] c Hext; simpl.
  - done.
  - by specialize (Hext O).
  - by specialize (Hext O).
  - pose proof (Hext O) as H0. simpl in H0. rewrite H0.
    apply IH. intros i. apply (Hext (S i)).
Qed.

Lemma ks_round_payoff_seed g ks rn agents (rcv rcv1 : BaseGameAgent) :
  name rcv1 = name rcv →
  ks_round_payoff g (offer_in ks) (ks_seed random_index rn agents) rcv1
  = ks_round_payoff g (offer_in ks) agents rcv.
Proof.
  intros Hr. unfold ks_round_payoff.
  assert (Hoffer : offer_in ks rcv1 = offer_in ks rcv).
  { unfold offer_in. by rewrite Hr. }
  rewrite Hoffer. apply fold_left_lookup_ext. intros i.
  rewrite ks_seed_lookup. destruct (agents !! i) as [s|]; simpl; [|done].
  intros c. unfold ks_credit.
  by rewrite (ks_pair_transfer_frame ks rcv rcv1 s) by (done || by case_decide).
Qed.

Lemma add_knowledge_nil kb : add_knowledge kb [] = kb.
Proof. done. Qed.

Lemma elem_of_names agents n :
  n ∈ name <$> agents ↔ ∃ a, a ∈ agents ∧ name a = n.
Proof.
  rewrite list_elem_of_fmap. split; intros (a & H1 & H2); exists a; by split.
Qed.

(** One round of the Knowledge Sharing Game among participants with
    pairwise different names: the round is completed, and for each
    participant the records of the round and the agent it leaves are as
    follows. *)
Lemma ks_play_round_spec (context : option UserContext) g agents :
  NoDup (name <$> agents) →
  ∃ r agents',
    ks_play_round UserContext make_decision random_index context g agents
    = (Ok r, (next_round g, agents'))
    ∧ name <$> agents' = name <$> agents
    ∧ (∀ k, k ∉ name <$> agents → dict_lookup (ks_payoffs r) k = None)
    ∧ ∀ i a, agents !! i = Some a →
        ∃ a1 a',
          ks_seed random_index (S (round_number (base g))) agents !! i = Some a1
          ∧ agents' !! i = Some a'
          ∧ name a' = name a
          ∧ dict_lookup (ks_knowledge_shared r) (name a)
            = Some (ks_offer_of UserContext make_decision (next_round g) context
                      (ks_seed random_index (S (round_number (base g))) agents) (i, a1))
          ∧ dict_lookup (ks_knowledge_received r) (name a)
            = Some (ks_transferred (offer_in (ks_knowledge_shared r)) agents a)
          ∧ (∃ p, dict_lookup (ks_payoffs r) (name a) = Some p
                  ∧ p == knowledge_value g
                         * Qlen (ks_transferred (offer_in (ks_knowledge_shared r)) agents a)
                         - sharing_cost g * Qlen (offer_in (ks_knowledge_shared r) a)
                  ∧ p = ks_round_payoff g (offer_in (ks_knowledge_shared r)) agents a)
          ∧ knowledge_base (state a')
            = add_knowledge (knowledge_base (state a1))
                (ks_transferred (offer_in (ks_knowledge_shared r)) agents a).
Proof.
  intros Hnd. unfold ks_play_round.
  set (g1 := next_round g).
  change (round_number (base g1)) with (S (round_number (base g))).
  set (rn := S (round_number (base g))).
  set (agents1 := ks_seed random_index rn agents).
  assert (Hnames1 : name <$> agents1 = name <$> agents) by apply ks_seed_names.
  assert (Hnd1 : NoDup (name <$> agents1)) by by rewrite Hnames1.
  rewrite ks_collect_nodup by done.
  set (ds := (λ ia : nat * BaseGameAgent,
                (name ia.2, ks_decision_of UserContext make_decision g1 context agents1 ia))
             <$> imap pair agents1).
  set (ks := (λ ia : nat * BaseGameAgent,
                (name ia.2, ks_offer_of UserContext make_decision g1 context agents1 ia))
             <$> imap pair agents1).
  assert (Hkeys_ks : dict_keys ks = name <$> agents1).
  { unfold ks. by rewrite dict_keys_fmap, names_imap_pair. }
  assert (Hkeys_ds : dict_keys ds = name <$> agents1).
  { unfold ds. by rewrite dict_keys_fmap, names_imap_pair. }
  assert (Hks : ∀ s, s ∈ agents1 → name s ∈ dict_keys ks).
  { intros s Hs. rewrite Hkeys_ks. by apply list_elem_of_fmap_2. }
  unfold ks_payoffs_of. rewrite dict_of_nodup by done.
  destruct (ks_payoff_fold g1 ks agents1 agents1 []
              ((λ x : BaseGameAgent, (name x, [])) <$> agents1) Hks Hks Hnd1)
    as (pay & rec & Hfold & Hin & Hout).
  { intros a Ha. by apply (dict_lookup_fmap_nodup name (λ _, [])). }
  rewrite Hfold.
  set (T := ks_transferred (offer_in ks) agents1) in *.
  destruct (for_each_agent_Forall2
              (λ a a2, name a2 = name a
                        ∧ knowledge_base (state a2)
                          = add_knowledge (knowledge_base (state a)) (T a))
              (ks_transfer rec) agents1) as (agents2 & Hloop2 & HF2).
  { intros a Ha. destruct (Hin a Ha) as [Hrec _].
    unfold ks_transfer, dict_get. rewrite Hrec. simpl.
    eexists. split; [done|].
    destruct (nonempty (T a)) eqn:Hne; [done|].
    apply nonempty_false in Hne. by rewrite Hne. }
  rewrite Hloop2.
  assert (Hnames2 : name <$> agents2 = name <$> agents1).
  { apply (Forall2_names _ _ _ (λ a a' H, proj1 H) HF2). }
  assert (Hget : ∀ n, n ∈ name <$> agents1 →
            is_Some (dict_lookup ks n) ∧ is_Some (dict_lookup pay n)
            ∧ is_Some (dict_lookup ds n)).
  { intros n Hn. split; [|split].
    - apply dict_lookup_is_Some. by rewrite Hkeys_ks.
    - apply elem_of_names in Hn as (a & Ha & <-).
      destruct (Hin a Ha) as (_ & p & Hp & _). by rewrite Hp.
    - apply dict_lookup_is_Some. by rewrite Hkeys_ds. }
  destruct (for_each_agent_Forall2
              (λ a2 a3, name a3 = name a2
                         ∧ knowledge_base (state a3) = knowledge_base (state a2))
              (ks_update_agent ks pay ds agents2) agents2) as (agents3 & Hloop3 & HF3).
  { intros a2 Ha2. unfold ks_update_agent.
    apply (foldM_inv
             (λ a', name a' = name a2
                    ∧ knowledge_base (state a') = knowledge_base (state a2)));
      [done|].
    intros a' other [Hn Hk] Hother.
    destruct (decide (name other ≠ name a2)); [|by exists a'].
    destruct (Hget (name other)) as ([k Hk1] & _).
    { rewrite <- Hnames2. by apply list_elem_of_fmap_2. }
    destruct (Hget (name a2)) as (_ & [p Hp] & [d Hd]).
    { rewrite <- Hnames2. by apply list_elem_of_fmap_2. }
    unfold dict_get. rewrite Hk1, Hp, Hd. simpl.
    eexists. split; [done|]. by split. }
  rewrite Hloop3. exists (mkKSRound rn ds ks rec pay), agents3.
  split; [done|]. split.
  { rewrite <- Hnames1, <- Hnames2.
    apply (Forall2_names _ _ _ (λ a a' H, proj1 H) HF3). }
  split.
  { intros k Hk. simpl. rewrite <- Hnames1 in Hk. by destruct (Hout k Hk) as [_ ->]. }
  intros i a Hi. simpl.
  assert (H1 : ∃ a1, agents1 !! i = Some a1 ∧ name a1 = name a) .
  { unfold agents1. rewrite ks_seed_lookup, Hi. simpl. eexists. split; [done|].
    by case_decide. }
  destruct H1 as (a1 & Hi1 & Hn1).
  destruct (Forall2_lookup_l _ _ _ _ _ HF2 Hi1) as (a2 & Hi2 & Hn2 & Hkb2).
  destruct (Forall2_lookup_l _ _ _ _ _ HF3 Hi2) as (a3 & Hi3 & Hn3 & Hkb3).
  assert (Ha1 : a1 ∈ agents1) by by eapply list_elem_of_lookup_2.
  destruct (Hin a1 Ha1) as (Hrec & p & Hp & Hpeq & Hops).
  assert (HT : T a1 = ks_transferred (offer_in ks) agents a).
  { by apply ks_transferred_seed. }
  assert (Hoffer : offer_in ks a1 = offer_in ks a).
  { unfold offer_in. by rewrite Hn1. }
  exists a1, a3. rewrite <- Hn1.
  split; [done|]. split; [done|]. split; [by rewrite Hn3, Hn2|].
  split; [by apply (dict_lookup_indexed _ agents1 i a1)|].
  split; [by rewrite Hrec, HT|]. split.
  - exists p. split; [done|]. split; [by rewrite Hpeq, HT, Hoffer|].
    rewrite Hops, <- (ks_round_payoff_seed g ks rn agents a a1 Hn1). reflexivity.
  - by rewrite Hkb3, Hkb2, HT.
Qed.

Lemma elem_of_add_knowledge kb knowledge x :
  x ∈ add_knowledge kb knowledge ↔ x ∈ kb ∨ x ∈ knowledge.
Proof.
  unfold add_knowledge. revert kb.
  induction knowledge as [|y l IH]; intros kb; simpl.
  - rewrite elem_of_nil. tauto.
  - rewrite IH, elem_of_cons. destruct (decide (y ∈ kb)) as [Hy|Hy].
    + split; [tauto|]. intros [?|[->|?]]; tauto.
    + rewrite elem_of_app, list_elem_of_singleton. tauto.
Qed.

Lemma elem_of_flat_map {A B} (f : A → list B) (l : list A) y :
  y ∈ flat_map f l ↔ ∃ x, x ∈ l ∧ y ∈ f x.
Proof.
  rewrite list_elem_of_In, in_flat_map.
  split; intros (x & Hx & Hy); exists x; by rewrite ?list_elem_of_In in *.
Qed.

Lemma ks_pair_transfer_gate (offer : BaseGameAgent → list string)
    (receiver sharer : BaseGameAgent) :
  name sharer ≠ name receiver →
  (0.3 < get_trust_score sharer (name receiver) →
     ks_pair_transfer offer receiver sharer = offer sharer)
  ∧ (get_trust_score sharer (name receiver) <= 0.3 →
     ks_pair_transfer offer receiver sharer = []).
Proof.
  intros Hne. unfold ks_pair_transfer, ks_gate. rewrite decide_True by done.
  split.
  - intros Hgt%Qgtb_gt. by rewrite Hgt.
  - intros Hle%Qgtb_le. by rewrite Hle.
Qed.

(** C1. In every round of the Knowledge Sharing Game among participants
    with pairwise different names the round is completed and, for every
    receiver: what it receives is the concatenation over the sharers of the
    pair transfers; for every other participant (sharer), the pair transfer
    is the sharer's whole offer if the sharer's trust score for the receiver
    exceeds 0.3 and nothing otherwise; every item received is credited at
    [knowledge_value] and added to the receiver's knowledge base, which
    takes in nothing else; every participant is debited [sharing_cost] per
    item it offered, whether or not any transfer passes the gate.  The
    payoff is given twice: as the sum in exact arithmetic, value times the
    items received less cost times the items offered, and by the
    operations of the code in their order ([ks_round_payoff]: from 0.0, less
    cost times the items offered if any were, then sharer by sharer plus
    value times the items of each transfer that arrives), which is the
    form that also holds of the doubles. *)
Theorem knowledge_sharing_trust_gate (context : option UserContext) g agents :
  NoDup (name <$> agents) →
  ∃ r agents',
    ks_play_round UserContext make_decision random_index context g agents
    = (Ok r, (next_round g, agents'))
    ∧ ∀ j receiver, agents !! j = Some receiver →
        ∃ seeded receiver' received payoff,
          ks_seed random_index (S (round_number (base g))) agents !! j = Some seeded
          ∧ agents' !! j = Some receiver'
          ∧ dict_lookup (ks_knowledge_received r) (name receiver) = Some received
          ∧ dict_lookup (ks_payoffs r) (name receiver) = Some payoff
          ∧ received
            = flat_map (ks_pair_transfer (offer_in (ks_knowledge_shared r)) receiver)
                       agents
          ∧ payoff == knowledge_value g * Qlen received
                      - sharing_cost g * Qlen (offer_in (ks_knowledge_shared r) receiver)
          ∧ payoff = ks_round_payoff g (offer_in (ks_knowledge_shared r)) agents
                                     receiver
          ∧ knowledge_base (state receiver')
            = add_knowledge (knowledge_base (state seeded)) received
          ∧ (∀ sharer, sharer ∈ agents → name sharer ≠ name receiver →
               (0.3 < get_trust_score sharer (name receiver) →
                  ks_pair_transfer (offer_in (ks_knowledge_shared r)) receiver sharer
                  = offer_in (ks_knowledge_shared r) sharer
                  ∧ ∀ x, x ∈ offer_in (ks_knowledge_shared r) sharer →
                         x ∈ received ∧ x ∈ knowledge_base (state receiver'))
               ∧ (get_trust_score sharer (name receiver) <= 0.3 →
                  ks_pair_transfer (offer_in (ks_knowledge_shared r)) receiver sharer
                  = []))
          ∧ (∀ x, x ∈ received →
               ∃ sharer, sharer ∈ agents ∧ name sharer ≠ name receiver
                         ∧ 0.3 < get_trust_score sharer (name receiver)
                         ∧ x ∈ offer_in (ks_knowledge_shared r) sharer).
Proof.
  intros Hnd.
  destruct (ks_play_round_spec context g agents Hnd)
    as (r & agents' & Hround & _ & _ & Hspec).
  exists r, agents'. split; [done|].
  intros j receiver Hj.
  destruct (Hspec j receiver Hj)
    as (a1 & a' & Hseed & Hj' & _ & _ & Hrec & (p & Hp & Hpeq & Hops) & Hkb).
  set (offer := offer_in (ks_knowledge_shared r)) in *.
  exists a1, a', (ks_transferred offer agents receiver), p.
  do 8 (split; [done|]). split.
  - intros sharer Hs Hne.
    destruct (ks_pair_transfer_gate offer receiver sharer Hne) as [Hopen Hclosed].
    split; [|done]. intros Hgt. split; [by apply Hopen|].
    intros x Hx.
    assert (Hin : x ∈ ks_transferred offer agents receiver).
    { apply elem_of_flat_map. exists sharer. split; [done|]. by rewrite Hopen. }
    split; [done|]. rewrite Hkb. apply elem_of_add_knowledge. by right.
  - intros x (sharer & Hs & Hx)%elem_of_flat_map.
    exists sharer. split; [done|].
    unfold ks_pair_transfer in Hx.
    destruct (decide (name sharer ≠ name receiver)); [|by apply elem_of_nil in Hx].
    split; [done|]. unfold ks_gate in Hx.
    destruct (Qgtb (get_trust_score sharer (name receiver)) 0.3) eqn:Hgate;
      [|by apply elem_of_nil in Hx].
    split; [by apply Qgtb_gt|done].
Qed.

End knowledge_sharing.

Lemma knowledge_sharing_trust_gate_witness :
  ∃ r agents',
    ks_play_round () share_first_item (λ _ _, O) None
      (new_KnowledgeSharingGame 2 0.5) [wary_alice; fresh_bob]
    = (Ok r, (next_round (new_KnowledgeSharingGame 2 0.5), agents'))
    ∧ dict_lookup (ks_knowledge_received r) "Bob" = Some []
    ∧ (∃ p, dict_lookup (ks_payoffs r) "Alice" = Some p ∧ p == 2 * 1 - 0.5 * 1).
Proof.
  destruct (knowledge_sharing_trust_gate share_first_item (λ _ _, O) None
              (new_KnowledgeSharingGame 2 0.5) [wary_alice; fresh_bob])
    as (r & agents' & Hround & Hspec).
  { compute_done. }
  exists r, agents'. split; [exact Hround|].
  vm_compute in Hround. injection Hround as <- <-.
  split; [reflexivity|]. eexists. split; [reflexivity|]. reflexivity.
Defined.

(** The same round, evaluated: Alice offers her secret and pays for it, her
    trust in Bob (0.2) keeps the gate shut, and Bob's knowledge base holds
    only his own seeded item; Bob's offer reaches Alice. *)
Example ks_gate_closed_round :
  match ks_play_round () share_first_item (λ _ _, O) None
          (new_KnowledgeSharingGame 2 0.5) [wary_alice; fresh_bob] with
  | (Ok r, (_, [alice'; bob'])) =>
      dict_lookup (ks_knowledge_shared r) "Alice" = Some ["alice's secret"]
      ∧ dict_lookup (ks_knowledge_received r) "Bob" = Some []
      ∧ knowledge_base (state bob')
        = ["Knowledge_1_1: Advanced algorithm optimization"]
      ∧ knowledge_base (state alice')
        = ["alice's secret"; "Knowledge_1_0: Advanced algorithm optimization";
           "Knowledge_1_1: Advanced algorithm optimization"]
      ∧ (Qred <$> dict_lookup (ks_payoffs r) "Alice") = Some (3 # 2)
      ∧ (Qred <$> dict_lookup (ks_payoffs r) "Bob") = Some (-1 # 2)
  | _ => False
  end.
Proof. vm_compute. repeat split. Qed.

(** ** Winners of full games *)

Lemma max_fold_first (pre d : Dict Q) (best : string * Q) (i : nat) :
  pre !! i = Some best →
  (∀ j kv, pre !! j = Some kv → kv.2 <= best.2) →
  (∀ j kv, (j < i)%nat → pre !! j = Some kv → kv.2 < best.2) →
  ∃ i' best',
    fold_left (λ b kv', if Qgtb kv'.2 b.2 then kv' else b) d best = best'
    ∧ (pre ++ d) !! i' = Some best'
    ∧ (∀ j kv, (pre ++ d) !! j = Some kv → kv.2 <= best'.2)
    ∧ (∀ j kv, (j < i')%nat → (pre ++ d) !! j = Some kv → kv.2 < best'.2).
Proof.
  revert pre best i. induction d as [|kv' d IH]; intros pre best i Hi Hle Hlt.
  - exists i, best. rewrite app_nil_r. by repeat split.
  - simpl. replace (pre ++ kv' :: d) with ((pre ++ [kv']) ++ d)
      by by rewrite <- app_assoc.
    destruct (Qgtb kv'.2 best.2) eqn:Hcmp.
    + apply Qgtb_gt in Hcmp.
      apply (IH (pre ++ [kv']) kv' (length pre)).
      * by rewrite lookup_app_r, Nat.sub_diag by lia.
      * intros j kv Hj. apply lookup_app_Some in Hj as [Hj|[_ Hj]].
        -- apply Qlt_le_weak. eapply Qle_lt_trans; [by eapply Hle|done].
        -- apply list_lookup_singleton_Some in Hj as [_ <-]. apply Qle_refl.
      * intros j kv Hlen Hj. rewrite lookup_app_l in Hj by done.
        eapply Qle_lt_trans; [by eapply Hle|done].
    + apply Qgtb_le in Hcmp.
      apply (IH (pre ++ [kv']) best i).
      * rewrite lookup_app_l; [done|]. by eapply lookup_lt_Some.
      * intros j kv Hj. apply lookup_app_Some in Hj as [Hj|[_ Hj]].
        -- by eapply Hle.
        -- by apply list_lookup_singleton_Some in Hj as [_ <-].
      * intros j kv Hji Hj. apply (Hlt j kv Hji).
        rewrite lookup_app_l in Hj; [done|].
        apply lookup_lt_Some in Hi. lia.
Qed.

(** [max] with a key function returns the first maximal element. *)
Lemma max_key_first_max (d : Dict Q) (w : string) :
  max_key d = Ok w → first_max_key d w.
Proof.
  destruct d as [|kv d]; [done|]. simpl. intros [= <-].
  destruct (max_fold_first [kv] d kv O) as (i & best & Hfold & Hi & Hle & Hlt).
  - done.
  - intros j kv' Hj. apply list_lookup_singleton_Some in Hj as [_ <-]. apply Qle_refl.
  - intros j kv' Hj. lia.
  - rewrite Hfold. exists i, best.2. destruct best as [k v]. by repeat split.
Qed.

Lemma max_key_nonempty (d : Dict Q) : d ≠ [] → ∃ w, max_key d = Ok w.
Proof. destruct d; [done|]. intros _. by eexists. Qed.

Lemma first_max_key_elem (d : Dict Q) (w : string) :
  first_max_key d w → w ∈ dict_keys d.
Proof.
  intros (i & v & Hi & _). unfold dict_keys.
  apply list_elem_of_fmap. exists (w, v). split; [done|].
  by eapply list_elem_of_lookup_2.
Qed.

(** [total[k] += v] keeps the keys of [total]. *)
Lemma dict_iadd_keys (total total' : Dict Q) k v :
  dict_iadd total k v = Ok total' → dict_keys total' = dict_keys total.
Proof.
  unfold dict_iadd, dict_get.
  destruct (dict_lookup total k) as [old|] eqn:Hk; [|done]. simpl.
  intros [= <-]. apply dict_keys_set_in, dict_lookup_is_Some. by rewrite Hk.
Qed.

Lemma dict_iadd_ok (total : Dict Q) k v :
  k ∈ dict_keys total → ∃ total', dict_iadd total k v = Ok total'.
Proof.
  intros [old Hk]%dict_lookup_is_Some. unfold dict_iadd, dict_get.
  rewrite Hk. by eexists.
Qed.

Lemma accumulate_payoffs_keys (round_payoffs : list (Dict Q)) (total total' : Dict Q) :
  accumulate_payoffs round_payoffs total = Ok total' →
  dict_keys total' = dict_keys total.
Proof.
  unfold accumulate_payoffs. revert total.
  induction round_payoffs as [|ps rest IH]; intros total; simpl.
  - by intros [= <-].
  - destruct (foldM _ ps total) as [tot1|] eqn:Hinner; [|done]. simpl.
    intros Hrest%IH. rewrite Hrest. clear -Hinner.
    revert total Hinner. induction ps as [|[k v] ps IH]; intros total; simpl.
    + by intros [= <-].
    + destruct (dict_iadd total k v) as [t1|] eqn:Hadd; [|done]. simpl.
      intros Hps%IH. rewrite Hps. by eapply dict_iadd_keys.
Qed.

Lemma accumulate_payoffs_ok (round_payoffs : list (Dict Q)) (total : Dict Q) :
  Forall (λ ps, ∀ k, k ∈ dict_keys ps → k ∈ dict_keys total) round_payoffs →
  ∃ total', accumulate_payoffs round_payoffs total = Ok total'.
Proof.
  unfold accumulate_payoffs. intros Hall.
  destruct (foldM_inv (λ t, dict_keys t = dict_keys total)
              (λ tot ps, foldM (λ t kv, dict_iadd t kv.1 kv.2) ps tot)
              round_payoffs total) as (t' & Ht' & _); [done| |by exists t'].
  intros t ps Ht Hps.
  rewrite Forall_forall in Hall. specialize (Hall ps Hps).
  apply (foldM_inv (λ t0, dict_keys t0 = dict_keys total)); [done|].
  intros t0 [k v] Ht0 Hkv.
  destruct (dict_iadd_ok t0 k v) as [t1 Ht1].
  { rewrite Ht0. apply Hall. unfold dict_keys.
    apply list_elem_of_fmap. by exists (k, v). }
  exists t1. split; [done|]. rewrite <- Ht0. by eapply dict_iadd_keys.
Qed.

Lemma elem_of_dict_of_keys {A V} (key : A → string) (val : A → V) (l : list A) k :
  k ∈ dict_keys (dict_of key val l) ↔ k ∈ key <$> l.
Proof.
  unfold dict_of.
  assert (H : ∀ d, k ∈ dict_keys (fold_left (λ d' x, dict_set d' (key x) (val x)) l d)
                   ↔ k ∈ dict_keys d ∨ k ∈ key <$> l).
  { induction l as [|x l IH]; intros d.
    - simpl. rewrite elem_of_nil. tauto.
    - rewrite fmap_cons, elem_of_cons. cbn [fold_left].
      rewrite IH, elem_of_dict_keys_set. tauto. }
  rewrite H. unfold dict_keys at 1. simpl. rewrite elem_of_nil. tauto.
Qed.

Section winners.
Context {UserContext : Type}.
Context (make_decision :
  BaseGameAgent → GameContext UserContext → option (list AgentAction) → Result GameDecision).
Context (tracking : Tracking UserContext).
Context (random_index : nat → nat → nat).
Implicit Types (agents : list BaseGameAgent).

Lemma dict_of_nonempty {A V} (key : A → string) (val : A → V) (l : list A) :
  l ≠ [] → dict_of key val l ≠ [].
Proof.
  intros Hl Hd. destruct l as [|x l]; [done|].
  assert (Hk : key x ∈ dict_keys (dict_of key val (x :: l))).
  { apply elem_of_dict_of_keys. rewrite fmap_cons. left. }
  rewrite Hd in Hk. by apply elem_of_nil in Hk.
Qed.

Lemma fold_dict_set_nonempty {A V} (key : A → string) (val : A → V) (l : list A)
    (d : Dict V) :
  d ≠ [] → fold_left (λ d' x, dict_set d' (key x) (val x)) l d ≠ [].
Proof.
  revert d. induction l as [|x l IH]; intros d Hd; simpl; [done|].
  apply IH, dict_set_nonempty.
Qed.

Lemma dict_keys_nonempty {V} (d d' : Dict V) :
  dict_keys d' = dict_keys d → d ≠ [] → d' ≠ [].
Proof. destruct d, d'; done. Qed.

(** *** KnowledgeSharingGame *)

Lemma ks_final_result_winner agents num_rounds round_results res :
  ks_final_result agents num_rounds round_results = Ok res →
  ∃ w, winner res = Some w ∧ first_max_key (payoffs res) w ∧ w ∈ participants res.
Proof.
  unfold ks_final_result.
  destruct (accumulate_payoffs _ _) as [tot|] eqn:Hacc; [|done]. simpl.
  destruct (max_key tot) as [w|] eqn:Hmax; [|done]. simpl.
  destruct (qdiv _ _) as [avg|]; [|done]. simpl.
  intros [= <-]. simpl. exists w. split; [done|].
  pose proof (max_key_first_max _ _ Hmax) as Hfirst. split; [done|].
  apply first_max_key_elem in Hfirst.
  rewrite (accumulate_payoffs_keys _ _ _ Hacc) in Hfirst.
  by apply elem_of_dict_of_keys in Hfirst.
Qed.

Lemma ks_final_result_keys agents num_rounds round_results res :
  NoDup (name <$> agents) →
  ks_final_result agents num_rounds round_results = Ok res →
  dict_keys (payoffs res) = name <$> agents.
Proof.
  intros Hnd. unfold ks_final_result.
  destruct (accumulate_payoffs _ _) as [tot|] eqn:Hacc; [|done]. simpl.
  destruct (max_key tot) as [w|]; [|done]. simpl.
  destruct (qdiv _ _) as [avg|]; [|done]. simpl.
  intros [= <-]. simpl. rewrite (accumulate_payoffs_keys _ _ _ Hacc).
  by rewrite dict_of_nodup, dict_keys_fmap.
Qed.

Lemma ks_play_full_game_final (context : option UserContext) g agents num_rounds res st :
  ks_play_full_game UserContext make_decision random_index context g agents num_rounds
  = (Ok res, st) →
  ∃ agents' round_results, ks_final_result agents' num_rounds round_results = Ok res.
Proof.
  unfold ks_play_full_game.
  destruct (play_rounds _ _ _ _) as [[rs|] [g' agents']]; [|done].
  destruct (ks_final_result agents' num_rounds rs) as [res'|] eqn:Hfin; [|done].
  intros [= <- _]. by exists agents', rs.
Qed.

Lemma ks_play_rounds_ok (context : option UserContext) num_rounds g agents :
  NoDup (name <$> agents) →
  ∃ rs g' agents',
    play_rounds (ks_play_round UserContext make_decision random_index context)
                num_rounds g agents = (Ok rs, (g', agents'))
    ∧ name <$> agents' = name <$> agents
    ∧ Forall (λ r, ∀ k, k ∈ dict_keys (ks_payoffs r) → k ∈ name <$> agents) rs.
Proof.
  revert g agents. induction num_rounds as [|n IH]; intros g agents Hnd; simpl.
  - exists [], g, agents. by repeat split.
  - destruct (ks_play_round_spec make_decision random_index context g agents Hnd)
      as (r & agents1 & Hround & Hnames & Hkeys & _).
    rewrite Hround.
    destruct (IH (next_round g) agents1) as (rs & g' & agents' & Hrest & Hnames' & Hall).
    { by rewrite Hnames. }
    rewrite Hrest. exists (r :: rs), g', agents'.
    split; [done|]. split; [by rewrite Hnames', Hnames|].
    constructor.
    + intros k Hk. destruct (decide (k ∈ name <$> agents)) as [|Hnot]; [done|].
      apply dict_lookup_is_Some in Hk. rewrite (Hkeys k Hnot) in Hk.
      by destruct Hk.
    + by rewrite <- Hnames.
Qed.

Lemma ks_final_result_ok agents num_rounds round_results :
  agents ≠ [] →
  Forall (λ r, ∀ k, k ∈ dict_keys (ks_payoffs r) → k ∈ name <$> agents) round_results →
  ∃ res, ks_final_result agents num_rounds round_results = Ok res.
Proof.
  intros Hne Hall. unfold ks_final_result.
  destruct (accumulate_payoffs_ok (ks_payoffs <$> round_results)
              (dict_of name (λ _, 0) agents)) as [tot Hacc].
  { apply Forall_fmap. eapply Forall_impl; [exact Hall|].
    intros r Hr k Hk. simpl. apply elem_of_dict_of_keys. by apply Hr. }
  rewrite Hacc. simpl.
  destruct (max_key_nonempty tot) as [w Hw].
  { eapply dict_keys_nonempty; [by eapply accumulate_payoffs_keys|].
    by apply dict_of_nonempty. }
  rewrite Hw. simpl. rewrite qdiv_Ok; [by eexists|].
  apply Qlen_nonzero. destruct agents as [|a agents]; [done|]. simpl.
  by apply fold_dict_set_nonempty.
Qed.

(** *** PublicGoodsGame *)

Lemma pg_final_result_winner g agents num_rounds round_results res :
  pg_final_result g agents num_rounds round_results = Ok res →
  ∃ w, winner res = Some w ∧ first_max_key (payoffs res) w ∧ w ∈ participants res.
Proof.
  unfold pg_final_result.
  destruct (accumulate_payoffs _ _) as [tot|] eqn:Hacc; [|done]. simpl.
  destruct (foldM _ agents []) as [rates|]; [|done]. simpl.
  destruct (max_key tot) as [w|] eqn:Hmax; [|done]. simpl.
  destruct (qdiv _ _) as [avg|]; [|done]. simpl.
  intros [= <-]. simpl. exists w. split; [done|].
  pose proof (max_key_first_max _ _ Hmax) as Hfirst. split; [done|].
  apply first_max_key_elem in Hfirst.
  rewrite (accumulate_payoffs_keys _ _ _ Hacc) in Hfirst.
  by apply elem_of_dict_of_keys in Hfirst.
Qed.

Lemma pg_final_result_keys g agents num_rounds round_results res :
  NoDup (name <$> agents) →
  pg_final_result g agents num_rounds round_results = Ok res →
  dict_keys (payoffs res) = name <$> agents.
Proof.
  intros Hnd. unfold pg_final_result.
  destruct (accumulate_payoffs _ _) as [tot|] eqn:Hacc; [|done]. simpl.
  destruct (foldM _ agents []) as [rates|]; [|done]. simpl.
  destruct (max_key tot) as [w|]; [|done]. simpl.
  destruct (qdiv _ _) as [avg|]; [|done]. simpl.
  intros [= <-]. simpl. rewrite (accumulate_payoffs_keys _ _ _ Hacc).
  by rewrite dict_of_nodup, dict_keys_fmap.
Qed.

Lemma pg_play_full_game_final (context : option UserContext) g agents num_rounds res st :
  pg_play_full_game UserContext make_decision context g agents num_rounds = (Ok res, st) →
  ∃ g' agents' round_results,
    pg_final_result g' agents' num_rounds round_results = Ok res.
Proof.
  unfold pg_play_full_game.
  destruct (play_rounds _ _ _ _) as [[rs|] [g' agents']]; [|done].
  destruct (pg_final_result g' agents' num_rounds rs) as [res'|] eqn:Hfin; [|done].
  intros [= <- _]. by exists g', agents', rs.
Qed.

Lemma pg_play_round_ok (context : option UserContext) (g : PublicGoodsGame) agents :
  NoDup (name <$> agents) → agents ≠ [] →
  ∃ r g' agents',
    pg_play_round UserContext make_decision context g agents = (Ok r, (g', agents'))
    ∧ name <$> agents' = name <$> agents
    ∧ endowment g' = endowment g
    ∧ dict_keys (pg_payoffs r) = name <$> agents
    ∧ dict_keys (pg_contributions r) = name <$> agents.
Proof.
  intros Hnd Hne. unfold pg_play_round.
  rewrite pg_collect_nodup by done.
  set (g1 := next_round g).
  set (contrib := pg_contribution_of UserContext make_decision g1 context agents).
  set (dec := pg_decision_of UserContext make_decision g1 context agents).
  set (cs := (λ ia : nat * BaseGameAgent, (name ia.2, contrib ia)) <$> imap pair agents).
  set (ds := (λ ia : nat * BaseGameAgent, (name ia.2, dec ia)) <$> imap pair agents).
  rewrite qdiv_Ok by by apply Qlen_nonzero.
  set (share := Qsum (dict_values cs) * multiplier g1 / Qlen agents).
  assert (Hpay : pg_payoffs_of g1 cs share
            = (λ ia : nat * BaseGameAgent,
                 (name ia.2, endowment g1 - contrib ia + share)) <$> imap pair agents).
  { unfold pg_payoffs_of.
    rewrite (dict_build_nodup fst (λ nc, endowment g1 - nc.2 + share)).
    - unfold cs. by rewrite <- list_fmap_compose.
    - unfold cs. rewrite <- list_fmap_compose. by rewrite names_imap_pair.
    - intros; apply not_elem_of_nil. }
  rewrite Hpay.
  destruct (for_each_agent_Forall2 (λ a a', name a' = name a)
              (pg_update_agent g1 (length agents) cs
                 ((λ ia : nat * BaseGameAgent,
                     (name ia.2, endowment g1 - contrib ia + share)) <$> imap pair agents)
                 ds) agents) as (agents' & Hloop & HF).
  { intros a Ha. apply list_elem_of_lookup in Ha as [i Hi].
    unfold pg_update_agent.
    rewrite (proj2 (dict_get_Ok _ _ _)
               (dict_lookup_indexed (λ ia, endowment g1 - contrib ia + share)
                  agents i a Hnd Hi)).
    unfold ds.
    rewrite (proj2 (dict_get_Ok _ _ _) (dict_lookup_indexed dec agents i a Hnd Hi)).
    simpl. eauto. }
  rewrite Hloop. eexists _, _, _. split; [reflexivity|]. simpl.
  split; [by apply (Forall2_names _ _ _ (λ a a' H, H) HF)|].
  split; [done|].
  split; [by rewrite dict_keys_fmap, names_imap_pair|].
  unfold cs. by rewrite dict_keys_fmap, names_imap_pair.
Qed.

Lemma pg_play_rounds_ok (context : option UserContext) num_rounds
    (g : PublicGoodsGame) agents :
  NoDup (name <$> agents) → agents ≠ [] →
  ∃ rs g' agents',
    play_rounds (pg_play_round UserContext make_decision context)
                num_rounds g agents = (Ok rs, (g', agents'))
    ∧ name <$> agents' = name <$> agents
    ∧ endowment g' = endowment g
    ∧ length rs = num_rounds
    ∧ Forall (λ r, dict_keys (pg_payoffs r) = name <$> agents
                   ∧ dict_keys (pg_contributions r) = name <$> agents) rs.
Proof.
  revert g agents. induction num_rounds as [|n IH]; intros g agents Hnd Hne; simpl.
  - exists [], g, agents. by repeat split.
  - destruct (pg_play_round_ok context g agents Hnd Hne)
      as (r & g1 & agents1 & Hround & Hnames & Hendow & Hk1 & Hk2).
    rewrite Hround.
    destruct (IH g1 agents1)
      as (rs & g' & agents' & Hrest & Hnames' & Hendow' & Hlen & Hall).
    { by rewrite Hnames. }
    { intros ->. destruct agents; done. }
    rewrite Hrest. exists (r :: rs), g', agents'.
    split; [done|]. split; [by rewrite Hnames', Hnames|].
    split; [by rewrite Hendow', Hendow|]. split; [by rewrite <- Hlen|].
    constructor; [done|]. by rewrite <- Hnames.
Qed.

Lemma pg_rate_of_agent_ok (g : PublicGoodsGame) (num_rounds : nat)
    (round_results : list PGRound) (rates : Dict Q) (agent : BaseGameAgent) :
  round_results ≠ [] → num_rounds ≠ O → ¬ endowment g == 0 →
  Forall (λ r, name agent ∈ dict_keys (pg_contributions r)) round_results →
  ∃ rates', pg_rate_of_agent g num_rounds round_results rates agent = Ok rates'
            ∧ rates' ≠ [].
Proof.
  intros Hrs Hn Hendow Hall. unfold pg_rate_of_agent.
  destruct round_results as [|r rs]; [done|].
  apply Forall_cons in Hall as [Hr Hall].
  assert (Hstep : ∀ rates0 r0, name agent ∈ dict_keys (pg_contributions r0) →
            ∃ c, (dict_get (pg_contributions r0) (name agent) ≫= λ contribution,
                  qdiv contribution (endowment g) ≫= λ contrib_rate,
                  Ok (dict_set rates0 (name agent)
                        (default 0 (dict_lookup rates0 (name agent)) + contrib_rate)))
                 = Ok (dict_set rates0 (name agent) c)).
  { intros rates0 r0 [c Hc]%dict_lookup_is_Some. unfold dict_get. rewrite Hc. simpl.
    rewrite qdiv_Ok by done. simpl. by eexists. }
  rewrite foldM_cons. destruct (Hstep rates r Hr) as [c Hc]. rewrite Hc. simpl.
  destruct (foldM_inv (λ rates0, name agent ∈ dict_keys rates0)
              (λ rs0 round_result,
                 dict_get (pg_contributions round_result) (name agent) ≫= λ contribution,
                 qdiv contribution (endowment g) ≫= λ contrib_rate,
                 Ok (dict_set rs0 (name agent)
                       (default 0 (dict_lookup rs0 (name agent)) + contrib_rate)))
              rs (dict_set rates (name agent) c)) as (rates1 & Hfold & Hin).
  { apply elem_of_dict_keys_set. by left. }
  { intros rates0 r0 _ Hr0. rewrite Forall_forall in Hall.
    destruct (Hstep rates0 r0 (Hall r0 Hr0)) as [c0 Hc0].
    eexists. split; [exact Hc0|]. apply elem_of_dict_keys_set. by left. }
  rewrite Hfold. simpl.
  apply dict_lookup_is_Some in Hin as [total Htotal].
  unfold dict_get. rewrite Htotal. simpl. rewrite qdiv_Ok.
  - simpl. eexists. split; [done|]. apply dict_set_nonempty.
  - unfold Qeq. simpl. lia.
Qed.

Lemma pg_final_result_ok (g : PublicGoodsGame) agents num_rounds round_results :
  agents ≠ [] → num_rounds ≠ O → length round_results = num_rounds →
  ¬ endowment g == 0 →
  Forall (λ r, dict_keys (pg_payoffs r) = name <$> agents
               ∧ dict_keys (pg_contributions r) = name <$> agents) round_results →
  ∃ res, pg_final_result g agents num_rounds round_results = Ok res.
Proof.
  intros Hne Hn Hlen Hendow Hall. unfold pg_final_result.
  destruct (accumulate_payoffs_ok (pg_payoffs <$> round_results)
              (dict_of name (λ _, 0) agents)) as [tot Hacc].
  { apply Forall_fmap. eapply Forall_impl; [exact Hall|].
    intros r [Hr _] k Hk. simpl in *. apply elem_of_dict_of_keys. by rewrite <- Hr. }
  rewrite Hacc. simpl.
  assert (Hrs : round_results ≠ []).
  { intros ->. simpl in Hlen. lia. }
  assert (Hrate : ∀ rates a, a ∈ agents →
            ∃ rates', pg_rate_of_agent g num_rounds round_results rates a = Ok rates'
                      ∧ rates' ≠ []).
  { intros rates a Ha. apply pg_rate_of_agent_ok; try done.
    eapply Forall_impl; [exact Hall|]. intros r [_ Hr]. simpl. rewrite Hr.
    by apply list_elem_of_fmap_2. }
  destruct agents as [|a agents]; [done|].
  rewrite foldM_cons.
  destruct (Hrate [] a) as (rates1 & Hr1 & Hne1); [left|]. rewrite Hr1. simpl.
  destruct (foldM_inv (λ rates, rates ≠ [])
              (pg_rate_of_agent g num_rounds round_results) agents rates1)
    as (rates & Hfold & Hrates); [done| |].
  { intros rates0 b _ Hb. apply Hrate. by right. }
  rewrite Hfold. simpl.
  destruct (max_key_nonempty tot) as [w Hw].
  { eapply dict_keys_nonempty; [by eapply accumulate_payoffs_keys|].
    by apply dict_of_nonempty. }
  rewrite Hw. simpl. rewrite qdiv_Ok; [by eexists|]. by apply Qlen_nonzero.
Qed.

(** *** PrisonersDilemma *)

Lemma receive_from_name (d : GameDecision) (a : BaseGameAgent) :
  name (receive_from d a) = name a.
Proof. unfold receive_from. by destruct (nonempty _). Qed.

Lemma pd_play_round_two (context : option UserContext) (g : PrisonersDilemma)
    (a1 a2 : BaseGameAgent) :
  ∃ r g' a1' a2',
    pd_play_round UserContext make_decision tracking context g [a1; a2]
    = (Ok r, (g', [a1'; a2']))
    ∧ name a1' = name a1 ∧ name a2' = name a2
    ∧ ∀ k, k ∈ dict_keys (pd_payoffs r) → k = name a1 ∨ k = name a2.
Proof.
  unfold pd_play_round.
  destruct (match pd_decide _ _ _ _ _ _ _ _ _ _ _ with
            | Ok decisions => decisions
            | Raise _ => (fallback DEFECT, fallback DEFECT)
            end) as [d1 d2].
  destruct (calculate_round_payoffs _ _ _) as [p1 p2].
  eexists _, _, _, _. split; [reflexivity|]. simpl.
  rewrite !receive_from_name. split; [done|]. split; [done|].
  intros k. case_decide; unfold dict_keys; simpl;
    rewrite ?elem_of_cons, elem_of_nil; tauto.
Qed.

Lemma pd_play_rounds_two (context : option UserContext) num_rounds
    (g : PrisonersDilemma) (a1 a2 : BaseGameAgent) :
  ∃ rs g' a1' a2',
    play_rounds (pd_play_round UserContext make_decision tracking context)
                num_rounds g [a1; a2] = (Ok rs, (g', [a1'; a2']))
    ∧ Forall (λ r, ∀ k, k ∈ dict_keys (pd_payoffs r) → k = name a1 ∨ k = name a2) rs.
Proof.
  revert g a1 a2. induction num_rounds as [|n IH]; intros g a1 a2;
    cbn [play_rounds].
  - exists [], g, a1, a2. by split.
  - destruct (pd_play_round_two context g a1 a2)
      as (r & g1 & b1 & b2 & Hround & Hn1 & Hn2 & Hkeys).
    rewrite Hround.
    destruct (IH g1 b1 b2) as (rs & g' & c1 & c2 & Hrest & Hall).
    rewrite Hrest. exists (r :: rs), g', c1, c2. split; [done|].
    constructor; [done|]. by rewrite <- Hn1, <- Hn2.
Qed.

Lemma pd_final_result_spec (g : PrisonersDilemma) (a1 a2 : BaseGameAgent)
    (num_rounds : nat) (round_results : list PDRound) :
  Forall (λ r, ∀ k, k ∈ dict_keys (pd_payoffs r) → k = name a1 ∨ k = name a2)
         round_results →
  ∃ res t1 t2,
    pd_final_result g a1 a2 num_rounds round_results = Ok res
    ∧ dict_lookup (payoffs res) (name a1) = Some t1
    ∧ dict_lookup (payoffs res) (name a2) = Some t2
    ∧ (t1 == t2 → winner res = None)
    ∧ (¬ t1 == t2 → ∃ w, winner res = Some w ∧ first_max_key (payoffs res) w).
Proof.
  intros Hall. unfold pd_final_result.
  set (tot0 := dict_set (dict_set [] (name a1) 0) (name a2) 0).
  assert (Hk0 : ∀ k, k ∈ dict_keys tot0 ↔ k = name a2 ∨ k = name a1).
  { intros k. unfold tot0. rewrite !elem_of_dict_keys_set.
    unfold dict_keys. simpl. rewrite elem_of_nil. tauto. }
  destruct (accumulate_payoffs_ok (pd_payoffs <$> round_results) tot0) as [tot Hacc].
  { apply Forall_fmap. eapply Forall_impl; [exact Hall|].
    intros r Hr k Hk. simpl in *. apply Hk0. destruct (Hr k Hk); tauto. }
  rewrite Hacc. simpl.
  pose proof (accumulate_payoffs_keys _ _ _ Hacc) as Hkeys.
  destruct (max_key_nonempty tot) as [w Hw].
  { eapply dict_keys_nonempty; [exact Hkeys|]. apply dict_set_nonempty. }
  rewrite Hw. simpl.
  assert (H1 : is_Some (dict_lookup tot (name a1))).
  { apply dict_lookup_is_Some. rewrite Hkeys. apply Hk0. by right. }
  assert (H2 : is_Some (dict_lookup tot (name a2))).
  { apply dict_lookup_is_Some. rewrite Hkeys. apply Hk0. by left. }
  destruct H1 as [t1 Ht1], H2 as [t2 Ht2].
  unfold dict_get. rewrite Ht1, Ht2. simpl.
  eexists _, t1, t2. split; [reflexivity|]. simpl.
  split; [done|]. split; [done|]. split.
  - intros Heq%Qeq_bool_iff. by rewrite Heq.
  - intros Hneq. destruct (Qeq_bool t1 t2) eqn:Hb.
    + by apply Qeq_bool_iff in Hb.
    + exists w. split; [done|]. by apply max_key_first_max.
Qed.

(** C10. A full Public Goods or Knowledge Sharing game that returns a
    result names a winner: some participant, the first key of the payoff
    totals that attains the maximum, never [None], ties included; and such
    a game among participants with pairwise different names does return a
    result (Public Goods: at least one round and a non-zero endowment).  A
    full Prisoner's Dilemma between two agents always returns a result, and
    it alone turns equal totals into [winner = None]; with different totals
    its winner is again the first key that attains the maximum.  The keys
    of the totals are the participants in their order, so "first key" is
    "first agent". *)
Theorem full_game_winner (context : option UserContext) :
  (∀ g agents num_rounds res st,
     pg_play_full_game UserContext make_decision context g agents num_rounds
     = (Ok res, st) →
     ∃ w, winner res = Some w ∧ first_max_key (payoffs res) w ∧ w ∈ participants res)
  ∧ (∀ g agents num_rounds res st,
       ks_play_full_game UserContext make_decision random_index context g agents
                         num_rounds = (Ok res, st) →
       ∃ w, winner res = Some w ∧ first_max_key (payoffs res) w ∧ w ∈ participants res)
  ∧ (∀ (g : PublicGoodsGame) agents num_rounds,
       NoDup (name <$> agents) → agents ≠ [] → num_rounds ≠ O → ¬ endowment g == 0 →
       ∃ res st,
         pg_play_full_game UserContext make_decision context g agents num_rounds
         = (Ok res, st)
         ∧ dict_keys (payoffs res) = name <$> agents)
  ∧ (∀ (g : KnowledgeSharingGame) agents num_rounds,
       NoDup (name <$> agents) → agents ≠ [] →
       ∃ res st,
         ks_play_full_game UserContext make_decision random_index context g agents
                           num_rounds = (Ok res, st)
         ∧ dict_keys (payoffs res) = name <$> agents)
  ∧ (∀ (g : PrisonersDilemma) (a1 a2 : BaseGameAgent) num_rounds,
       ∃ res st t1 t2,
         pd_play_full_game UserContext make_decision tracking context g [a1; a2] num_rounds
         = (Ok res, st)
         ∧ dict_lookup (payoffs res) (name a1) = Some t1
         ∧ dict_lookup (payoffs res) (name a2) = Some t2
         ∧ (t1 == t2 → winner res = None)
         ∧ (¬ t1 == t2 →
              ∃ w, winner res = Some w ∧ first_max_key (payoffs res) w)).
Proof.
  split; [|split; [|split; [|split]]].
  - intros g agents n res st Hgame.
    destruct (pg_play_full_game_final context g agents n res st Hgame)
      as (g' & agents' & rs & Hfin).
    by eapply pg_final_result_winner.
  - intros g agents n res st Hgame.
    destruct (ks_play_full_game_final context g agents n res st Hgame)
      as (agents' & rs & Hfin).
    by eapply ks_final_result_winner.
  - intros g agents n Hnd Hne Hn Hendow. unfold pg_play_full_game.
    destruct (pg_play_rounds_ok context n (reset g) agents Hnd Hne)
      as (rs & g' & agents' & Hrounds & Hnames & Hendow' & Hlen & Hall).
    rewrite Hrounds.
    destruct (pg_final_result_ok g' agents' n rs) as [res Hres]; try done.
    + intros ->. destruct agents; done.
    + by rewrite Hendow'.
    + by rewrite Hnames.
    + rewrite Hres. eexists _, _. split; [done|].
      rewrite <- Hnames. eapply pg_final_result_keys; [by rewrite Hnames|done].
  - intros g agents n Hnd Hne. unfold ks_play_full_game.
    destruct (ks_play_rounds_ok context n (reset g) agents Hnd)
      as (rs & g' & agents' & Hrounds & Hnames & Hall).
    rewrite Hrounds.
    destruct (ks_final_result_ok agents' n rs) as [res Hres].
    + intros ->. destruct agents; done.
    + by rewrite Hnames.
    + rewrite Hres. eexists _, _. split; [done|].
      rewrite <- Hnames. eapply ks_final_result_keys; [by rewrite Hnames|done].
  - intros g a1 a2 n. unfold pd_play_full_game.
    destruct (pd_play_rounds_two context n (reset g) a1 a2)
      as (rs & g' & b1 & b2 & Hrounds & Hall).
    rewrite Hrounds.
    destruct (pd_final_result_spec g' a1 a2 n rs Hall)
      as (res & t1 & t2 & Hres & Hrest).
    rewrite Hres. by eexists _, _, t1, t2.
Qed.

End winners.

Lemma full_game_winner_witness :
  ∃ res st,
    ks_play_full_game () (fixed_decision WITHHOLD_KNOWLEDGE) (λ _ _, O) None
      (new_KnowledgeSharingGame 2 0.5)
      [new_agent "Agent1" "always_defect"; new_agent "Agent2" "always_defect"] 3
    = (Ok res, st)
    ∧ payoffs res = [("Agent1", 0 + 0 + 0 + 0); ("Agent2", 0 + 0 + 0 + 0)]
    ∧ winner res = Some "Agent1".
Proof.
  destruct (full_game_winner (fixed_decision WITHHOLD_KNOWLEDGE) no_tracking (λ _ _, O)
              None)
    as (_ & Hwinner & _ & Htotal & _).
  destruct (Htotal (new_KnowledgeSharingGame 2 0.5)
              [new_agent "Agent1" "always_defect"; new_agent "Agent2" "always_defect"]
              3%nat) as (res & st & Hgame & _).
  { compute_done. }
  { discriminate. }
  destruct (Hwinner _ _ _ _ _ Hgame) as (w & Hw & _).
  exists res, st. split; [exact Hgame|].
  vm_compute in Hgame. injection Hgame as <- <-. split; reflexivity.
Defined.

(** Ties, evaluated: with equal totals the Public Goods and the Knowledge
    Sharing game name the first participant, the Prisoner's Dilemma names
    nobody. *)
Example tie_winners :
  winner <$> (match pg_play_full_game () (fixed_decision COOPERATE) None
                      (new_PublicGoodsGame 2 10)
                      [new_agent "Agent1" "x"; new_agent "Agent2" "x"] 2 with
              | (Ok res, _) => Some res | _ => None end) = Some (Some "Agent1")
  ∧ winner <$> (match ks_play_full_game () (fixed_decision WITHHOLD_KNOWLEDGE)
                        (λ _ _, O) None (new_KnowledgeSharingGame 2 0.5)
                        [new_agent "Agent1" "x"; new_agent "Agent2" "x"] 2 with
                | (Ok res, _) => Some res | _ => None end) = Some (Some "Agent1")
  ∧ winner <$> (match pd_play_full_game () (fixed_decision COOPERATE) no_tracking None
                        (new_PrisonersDilemma None)
                        [new_agent "Agent1" "x"; new_agent "Agent2" "x"] 2 with
                | (Ok res, _) => Some res | _ => None end) = Some None.
Proof. vm_compute. repeat split. Qed.

(** ** GameCoordinator.run_single_game *)

Lemma for_each_agent_names (body : BaseGameAgent → Result BaseGameAgent)
    (l l' : list BaseGameAgent) (r : Result ()) :
  (∀ a a', body a = Ok a' → name a' = name a) →
  for_each_agent body l = (r, l') → name <$> l' = name <$> l.
Proof.
  intros Hbody. revert l' r. induction l as [|a l IH]; intros l' r; simpl.
  - by intros [= _ <-].
  - destruct (body a) as [a'|e] eqn:Ha; [|by intros [= _ <-]].
    destruct (for_each_agent body l) as [r0 rest] eqn:Hrest.
    intros [= _ <-]. rewrite !fmap_cons.
    by rewrite (Hbody a a' Ha), (IH rest r0).
Qed.

Lemma foldM_preserves {A B} (I : B → Prop) (f : B → A → Result B) (l : list A) (b b' : B) :
  I b → (∀ b0 x b1, I b0 → f b0 x = Ok b1 → I b1) → foldM f l b = Ok b' → I b'.
Proof.
  intros Hb Hstep. revert b Hb. induction l as [|x l IH]; intros b Hb; simpl.
  - by intros [= <-].
  - destruct (f b x) as [b1|] eqn:Hf; [|done]. simpl. apply IH. by eapply Hstep.
Qed.

Lemma bind_Ok {A B} (r : Result A) (k : A → Result B) (b : B) :
  r ≫= k = Ok b → ∃ a, r = Ok a ∧ k a = Ok b.
Proof. destruct r as [a|]; [|done]. simpl. intros Hk. by exists a. Qed.

Lemma play_rounds_names {G R}
    (play_round : G → list BaseGameAgent → Result R * (G * list BaseGameAgent))
    (num_rounds : nat) (g g' : G) (agents agents' : list BaseGameAgent)
    (r : Result (list R)) :
  (∀ g0 l r0 g1 l', play_round g0 l = (r0, (g1, l')) → name <$> l' = name <$> l) →
  play_rounds play_round num_rounds g agents = (r, (g', agents')) →
  name <$> agents' = name <$> agents.
Proof.
  intros Hround. revert g g' agents agents' r.
  induction num_rounds as [|n IH]; intros g g' agents agents' r; simpl.
  - by intros [= _ _ <-].
  - destruct (play_round g agents) as [[r0|e] [g1 l1]] eqn:H1.
    + destruct (play_rounds play_round n g1 l1) as [[rs|e] [g2 l2]] eqn:H2;
        intros [= _ _ <-];
        by rewrite (IH _ _ _ _ _ H2), (Hround _ _ _ _ _ H1).
    + intros [= _ _ <-]. by rewrite (Hround _ _ _ _ _ H1).
Qed.

Section coordinator.
Context {UserContext : Type}.
Context (make_decision :
  BaseGameAgent → GameContext UserContext → option (list AgentAction) → Result GameDecision).
Context (tracking : Tracking UserContext).
Context (random_index : nat → nat → nat).
Implicit Types (agents : list BaseGameAgent) (c : GameCoordinator).

Lemma pg_play_round_names (context : option UserContext) (g g' : PublicGoodsGame)
    agents agents' r :
  pg_play_round UserContext make_decision context g agents = (r, (g', agents')) →
  name <$> agents' = name <$> agents.
Proof.
  unfold pg_play_round.
  destruct (pg_collect _ _ _ _ _) as [cs ds].
  destruct (qdiv _ _) as [share|]; [|by intros [= _ _ <-]].
  destruct (for_each_agent _ agents) as [[[]|e] l] eqn:Hloop;
    intros [= _ _ <-]; eapply for_each_agent_names; try exact Hloop.
  all: intros a a'; unfold pg_update_agent;
    intros (p & _ & (d & _ & [= <-])%bind_Ok)%bind_Ok; done.
Qed.

Lemma ks_update_agent_name ks pay ds agents (a a' : BaseGameAgent) :
  ks_update_agent ks pay ds agents a = Ok a' → name a' = name a.
Proof.
  unfold ks_update_agent.
  apply (foldM_preserves (λ b, name b = name a)); [done|].
  intros b other b1 Hb. case_decide; [|by intros [= <-]].
  by intros (k & _ & (p & _ & (d & _ & [= <-])%bind_Ok)%bind_Ok)%bind_Ok.
Qed.

Lemma ks_play_round_names (context : option UserContext) (g g' : KnowledgeSharingGame)
    agents agents' r :
  ks_play_round UserContext make_decision random_index context g agents
  = (r, (g', agents')) →
  name <$> agents' = name <$> agents.
Proof.
  unfold ks_play_round.
  pose proof (ks_seed_names random_index (round_number (base (next_round g))) agents)
    as Hseed.
  destruct (ks_collect _ _ _ _ _) as [ds ks].
  destruct (ks_payoffs_of _ _ _) as [[pay rec]|]; [|by intros [= _ _ <-]].
  destruct (for_each_agent (ks_transfer rec) _) as [r2 l2] eqn:Hloop2.
  assert (H2 : name <$> l2 = name <$> agents).
  { rewrite <- Hseed. eapply for_each_agent_names; [|exact Hloop2].
    intros a a'. unfold ks_transfer. intros (k & _ & [= <-])%bind_Ok.
    by destruct (nonempty k). }
  destruct r2 as [[]|e]; [|by intros [= _ _ <-]].
  destruct (for_each_agent _ l2) as [r3 l3] eqn:Hloop3.
  assert (H3 : name <$> l3 = name <$> agents).
  { rewrite <- H2. eapply for_each_agent_names; [|exact Hloop3].
    intros a a'. apply ks_update_agent_name. }
  by destruct r3 as [[]|e]; intros [= _ _ <-].
Qed.

(** A game that returns a result lists as participants the agents it was
    called with. *)
Lemma any_play_full_game_participants (context : option UserContext)
    (game game' : AnyGame) agents agents' num_rounds res :
  any_play_full_game UserContext make_decision tracking random_index context game agents
                     num_rounds = (Ok res, (game', agents')) →
  participants res = name <$> agents.
Proof.
  destruct game as [g|g|g]; simpl.
  - destruct (pd_play_full_game _ _ _ _ _ _) as [r [g1 l1]] eqn:Hgame.
    intros [= -> _ _]. unfold pd_play_full_game in Hgame.
    destruct agents as [|a1 [|a2 [|]]]; try done.
    destruct (play_rounds _ _ _ _) as [[rs|] [g2 l2]]; [|done].
    unfold pd_final_result in Hgame.
    destruct (accumulate_payoffs _ _) as [tot|]; [|done]. simpl in Hgame.
    destruct (max_key tot) as [w|]; [|done]. simpl in Hgame.
    destruct (dict_get tot (name a1)) as [t1|]; [|done]. simpl in Hgame.
    destruct (dict_get tot (name a2)) as [t2|]; [|done]. simpl in Hgame.
    by injection Hgame as <- _ _.
  - destruct (pg_play_full_game _ _ _ _ _ _) as [r [g1 l1]] eqn:Hgame.
    intros [= -> _ _]. unfold pg_play_full_game in Hgame.
    destruct (play_rounds _ _ _ _) as [[rs|] [g2 l2]] eqn:Hrounds; [|done].
    apply play_rounds_names in Hrounds;
      [|intros ?????; apply pg_play_round_names].
    unfold pg_final_result in Hgame.
    destruct (accumulate_payoffs _ _) as [tot|]; [|done]. simpl in Hgame.
    destruct (foldM _ l2 []) as [rates|]; [|done]. simpl in Hgame.
    destruct (max_key tot) as [w|]; [|done]. simpl in Hgame.
    destruct (qdiv _ _) as [avg|]; [|done]. simpl in Hgame.
    by injection Hgame as <- _ _.
  - destruct (ks_play_full_game _ _ _ _ _ _ _) as [r [g1 l1]] eqn:Hgame.
    intros [= -> _ _]. unfold ks_play_full_game in Hgame.
    destruct (play_rounds _ _ _ _) as [[rs|] [g2 l2]] eqn:Hrounds; [|done].
    apply play_rounds_names in Hrounds;
      [|intros ?????; apply ks_play_round_names].
    unfold ks_final_result in Hgame.
    destruct (accumulate_payoffs _ _) as [tot|]; [|done]. simpl in Hgame.
    destruct (max_key tot) as [w|]; [|done]. simpl in Hgame.
    destruct (qdiv _ _) as [avg|]; [|done]. simpl in Hgame.
    by injection Hgame as <- _ _.
Qed.

Lemma elem_of_registered_agents c (agent_names : list string) (a : BaseGameAgent) :
  a ∈ registered_agents c agent_names
  ↔ ∃ x, x ∈ agent_names ∧ dict_lookup (agents c) x = Some a.
Proof. unfold registered_agents. apply list_elem_of_omap. Qed.

(** C4 (amended).  [run_single_game] selects, in the order listed, the
    agents registered under the listed names and leaves out the names that
    are not registered.  For a known game type: if fewer than two listed
    names are registered it raises "Need at least 2 agents to run a game"
    at once, the coordinator with its games and agents being left as it
    was; otherwise it resets the game and plays it with exactly the selected
    agents, and a result it returns lists exactly those as participants. *)
Theorem run_single_game_registered_subset (context : option UserContext) c
    (t : GameType) (game : AnyGame) (agent_names : list string) (num_rounds : nat) :
  get_game c t = Ok game →
  (∀ a, a ∈ registered_agents c agent_names
        ↔ ∃ x, x ∈ agent_names ∧ dict_lookup (agents c) x = Some a)
  ∧ ((length (registered_agents c agent_names) < 2)%nat →
       run_single_game UserContext make_decision tracking random_index c t agent_names
                       num_rounds context
       = (Raise (ValueError "Need at least 2 agents to run a game"), c))
  ∧ ((2 ≤ length (registered_agents c agent_names))%nat →
       ∃ r game' players',
         any_play_full_game UserContext make_decision tracking random_index context
           (any_reset game) (registered_agents c agent_names) num_rounds
         = (r, (game', players'))
         ∧ run_single_game UserContext make_decision tracking random_index c t agent_names
                           num_rounds context
           = (r, mkCoordinator (games_store (games c) t game')
                               (store_agents (agents c)
                                  (registered_names c agent_names) players'))
         ∧ ∀ res, r = Ok res →
             participants res = name <$> registered_agents c agent_names).
Proof.
  intros Hgame. split; [apply elem_of_registered_agents|].
  unfold run_single_game. rewrite Hgame. split.
  - intros Hlt. by rewrite decide_True.
  - intros Hge. rewrite decide_False by lia.
    destruct (any_play_full_game _ _ _ _ _ _ _) as [r [game' players']] eqn:Hplay.
    exists r, game', players'. split; [done|]. split; [done|].
    intros res ->. by eapply any_play_full_game_participants.
Qed.

End coordinator.

(** C4 (as stated in the specification, refuted).  The claim reads: whenever
    the list of names contains a name that is not in the registry,
    [run_single_game] raises and leaves the coordinator as it was.  With
    "Alice" and "Bob" registered, the names "Alice", "Bob", "Ghost" start a
    game between Alice and Bob and return its result. *)
Lemma run_single_game_unknown_name_counterexample :
  ¬ (∀ (UserContext : Type)
       (make_decision : BaseGameAgent → GameContext UserContext →
                        option (list AgentAction) → Result GameDecision)
       (tracking : Tracking UserContext)
       (random_index : nat → nat → nat) (c : GameCoordinator) (t : GameType)
       (agent_names : list string) (num_rounds : nat)
       (context : option UserContext),
       (∃ x, x ∈ agent_names ∧ dict_lookup (agents c) x = None) →
       ∃ e, run_single_game UserContext make_decision tracking random_index c t
                            agent_names num_rounds context = (Raise e, c)).
Proof.
  intros H.
  destruct (H unit (fixed_decision COOPERATE) no_tracking (λ _ _, O)
              two_agent_coordinator
              KNOWLEDGE_SHARING ["Alice"; "Bob"; "Ghost"] 1%nat None) as [e He].
  - exists "Ghost". split; [|reflexivity]. do 2 right. left.
  - vm_compute in He. discriminate He.
Qed.

Lemma run_single_game_registered_subset_witness :
  ∃ r game' players',
    run_single_game () (fixed_decision COOPERATE) no_tracking (λ _ _, O)
                    two_agent_coordinator KNOWLEDGE_SHARING ["Alice"; "Bob"; "Ghost"] 1 None
    = (r, mkCoordinator
            (games_store (games two_agent_coordinator) KNOWLEDGE_SHARING game')
            (store_agents (agents two_agent_coordinator) ["Alice"; "Bob"] players'))
    ∧ ∀ res, r = Ok res → participants res = ["Alice"; "Bob"].
Proof.
  destruct (run_single_game_registered_subset (fixed_decision COOPERATE) no_tracking
              (λ _ _, O) None two_agent_coordinator KNOWLEDGE_SHARING
              (KSGame (new_KnowledgeSharingGame 2 0.5))
              ["Alice"; "Bob"; "Ghost"] 1%nat eq_refl)
    as (_ & _ & Hplay).
  destruct Hplay as (r & game' & players' & _ & Hrun & Hpart).
  { vm_compute. lia. }
  exists r, game', players'. split; [exact Hrun|]. exact Hpart.
Defined.

(** The same calls, evaluated: the unknown name is dropped and the game is
    played; with a single registered name the call raises and the
    coordinator is unchanged. *)
Example run_single_game_examples :
  (participants <$>
     match run_single_game () (fixed_decision COOPERATE) no_tracking (λ _ _, O)
             two_agent_coordinator KNOWLEDGE_SHARING ["Alice"; "Bob"; "Ghost"] 1 None
     with (Ok res, _) => Some res | _ => None end) = Some ["Alice"; "Bob"]
  ∧ run_single_game () (fixed_decision COOPERATE) no_tracking (λ _ _, O)
      two_agent_coordinator KNOWLEDGE_SHARING ["Alice"; "Ghost"] 1 None
    = (Raise (ValueError "Need at least 2 agents to run a game"), two_agent_coordinator).
Proof. split; reflexivity. Qed.

(** * Further properties of the code *)

(** ** payoff.py *)

(** X1. For a reward matrix that treats the two players alike (as the
    standard matrix does), [get_payoffs(b, a)] is [get_payoffs(a, b)] with
    the pair swapped, for all sixteen pairs of actions; and the payoffs
    depend on the two actions only through their cooperative class. *)
Theorem get_payoffs_mirror (rm : RewardMatrix) (a b : AgentAction) :
  symmetric_matrix rm →
  get_payoffs rm b a = mirror (get_payoffs rm a b)
  ∧ get_payoffs rm a b = get_payoffs rm (action_class a) (action_class b).
Proof.
  intros (Hcc & Hdd & Hdc). unfold get_payoffs, action_class.
  destruct (is_cooperative a), (is_cooperative b); simpl; split; try done.
  rewrite Hdc. by destruct (cooperate_defect rm).
Qed.

Lemma get_payoffs_mirror_witness :
  get_payoffs prisoner_dilemma DEFECT SHARE_KNOWLEDGE
  = mirror (get_payoffs prisoner_dilemma SHARE_KNOWLEDGE DEFECT)
  ∧ get_payoffs prisoner_dilemma SHARE_KNOWLEDGE DEFECT
    = get_payoffs prisoner_dilemma COOPERATE DEFECT.
Proof.
  apply (get_payoffs_mirror prisoner_dilemma SHARE_KNOWLEDGE DEFECT).
  repeat split.
Defined.

Lemma inject_Z_plus_eq (a b : Z) : inject_Z a + inject_Z b = inject_Z (a + b).
Proof. unfold Qplus, inject_Z. cbn. by rewrite !Z.mul_1_r. Qed.

Lemma count_rounds_cons c1 c2 h history :
  count_rounds c1 c2 (h :: history)
  = ((if decide ((is_cooperative h.1, is_cooperative h.2) = (c1, c2)) then 1 else 0)
     + count_rounds c1 c2 history)%nat.
Proof. unfold count_rounds. rewrite filter_cons. by case_decide. Qed.

Lemma count_rounds_app c1 c2 h1 h2 :
  count_rounds c1 c2 (h1 ++ h2) = (count_rounds c1 c2 h1 + count_rounds c1 c2 h2)%nat.
Proof. unfold count_rounds. by rewrite filter_app, length_app. Qed.

Lemma standard_fold (history : list (AgentAction * AgentAction)) (a b : Z) :
  fold_left (λ (tot : Q * Q) (h : AgentAction * AgentAction),
               let '(payoff1, payoff2) :=
                 calculate_round_payoffs (mkPayoffCalculator prisoner_dilemma) h.1 h.2 in
               (tot.1 + payoff1, tot.2 + payoff2))
            history (inject_Z a, inject_Z b)
  = (inject_Z (a + (3 * Z.of_nat (count_rounds true true history)
                    + 5 * Z.of_nat (count_rounds false true history)
                    + Z.of_nat (count_rounds false false history))),
     inject_Z (b + (3 * Z.of_nat (count_rounds true true history)
                    + 5 * Z.of_nat (count_rounds true false history)
                    + Z.of_nat (count_rounds false false history)))).
Proof.
  revert a b. induction history as [|h history IH]; intros a b.
  - cbn. by rewrite !Z.add_0_r.
  - cbn [fold_left]. rewrite !count_rounds_cons.
    unfold calculate_round_payoffs, get_payoffs.
    cbn [calc_reward_matrix].
    destruct (is_cooperative h.1), (is_cooperative h.2); cbn [andb negb fst snd
      prisoner_dilemma cooperate_cooperate cooperate_defect defect_cooperate
      defect_defect];
      [change (3 : Q) with (inject_Z 3)
      |change (0 : Q) with (inject_Z 0); change (5 : Q) with (inject_Z 5)
      |change (0 : Q) with (inject_Z 0); change (5 : Q) with (inject_Z 5)
      |change (1 : Q) with (inject_Z 1)];
      rewrite !inject_Z_plus_eq, IH;
      repeat case_decide; simplify_eq; f_equal; f_equal; lia.
Qed.

(** X2. Cumulative payoffs under the standard matrix.  Its entries are the
    whole numbers 3, 0, 5 and 1, so the totals are whole numbers, which the
    doubles of the program add without rounding: player 1 has 3 for every
    round of mutual cooperation, 5 for every round in which it alone
    defected and 1 for every round of mutual defection; player 2 likewise,
    with 5 for the rounds in which it alone defected.  Consequently the
    totals of a history played in two parts are the totals of the parts
    added. *)
Theorem calculate_cumulative_payoffs_standard
    (history h1 h2 : list (AgentAction * AgentAction)) :
  let pc := mkPayoffCalculator prisoner_dilemma in
  let n := λ c1 c2, Z.of_nat (count_rounds c1 c2 history) in
  calculate_cumulative_payoffs pc history
  = (inject_Z (3 * n true true + 5 * n false true + n false false),
     inject_Z (3 * n true true + 5 * n true false + n false false))
  ∧ calculate_cumulative_payoffs pc (h1 ++ h2)
    = ((calculate_cumulative_payoffs pc h1).1 + (calculate_cumulative_payoffs pc h2).1,
       (calculate_cumulative_payoffs pc h1).2 + (calculate_cumulative_payoffs pc h2).2).
Proof.
  cbv zeta. unfold calculate_cumulative_payoffs.
  change (0 : Q) with (inject_Z 0). rewrite !standard_fold. split.
  - done.
  - cbn [fst snd]. rewrite !inject_Z_plus_eq, !count_rounds_app.
    f_equal; f_equal; lia.
Qed.

Lemma ratio_bounds (c n : nat) :
  (c ≤ n)%nat → (0 < n)%nat →
  0 <= inject_Z (Z.of_nat c) / inject_Z (Z.of_nat n) <= 1.
Proof.
  intros Hc Hn.
  assert (HN : 0 < inject_Z (Z.of_nat n)).
  { change 0 with (inject_Z 0). rewrite <- Zlt_Qlt. lia. }
  assert (HC : 0 <= inject_Z (Z.of_nat c)).
  { change 0 with (inject_Z 0). rewrite <- Zle_Qle. lia. }
  assert (HCN : inject_Z (Z.of_nat c) <= inject_Z (Z.of_nat n)).
  { rewrite <- Zle_Qle. lia. }
  split.
  - apply Qle_shift_div_l; [done|]. lra.
  - apply Qle_shift_div_r; [done|]. lra.
Qed.

(** X4. Every rate the calculator computes lies in [0,1], on every input
    (the empty one included): the cooperation rate, the mutual cooperation
    rate, the exploitation rate of either player and the Pareto
    efficiency. *)
Theorem rates_in_unit_interval (actions : list AgentAction)
    (history : list (AgentAction * AgentAction)) (player : Z) :
  0 <= calculate_cooperation_rate actions <= 1
  ∧ 0 <= calculate_mutual_cooperation_rate history <= 1
  ∧ 0 <= calculate_exploitation_rate history player <= 1
  ∧ 0 <= calculate_pareto_efficiency history <= 1.
Proof.
  split; [|split; [|split]].
  - destruct actions as [|a actions]; [simpl; lra|].
    unfold calculate_cooperation_rate, count_cooperative, Qlen.
    apply ratio_bounds; [apply length_filter|simpl; lia].
  - destruct history as [|h history]; [simpl; lra|].
    unfold calculate_mutual_cooperation_rate, Qlen.
    apply ratio_bounds; [apply length_filter|simpl; lia].
  - destruct history as [|h history]; [simpl; lra|].
    unfold calculate_exploitation_rate, Qlen.
    apply ratio_bounds; [apply length_filter|simpl; lia].
  - destruct history as [|h history]; [simpl; lra|].
    unfold calculate_pareto_efficiency, Qlen.
    apply ratio_bounds; [apply length_filter|simpl; lia].
Qed.

Lemma count_cooperative_rounds (history : list (AgentAction * AgentAction)) :
  count_cooperative (history.*1)
  = (count_rounds true true history + count_rounds true false history)%nat
  ∧ count_cooperative (history.*2)
    = (count_rounds true true history + count_rounds false true history)%nat.
Proof.
  unfold count_cooperative.
  induction history as [|[a b] history [IH1 IH2]]; [done|].
  rewrite !fmap_cons, !filter_cons, !count_rounds_cons. cbn [fst snd].
  destruct (is_cooperative a), (is_cooperative b);
    repeat case_decide; simplify_eq; cbn [length]; rewrite ?IH1, ?IH2; split; lia.
Qed.

Lemma ratio_le (a b n : nat) :
  (a ≤ b)%nat → (0 < n)%nat →
  inject_Z (Z.of_nat a) / inject_Z (Z.of_nat n)
  <= inject_Z (Z.of_nat b) / inject_Z (Z.of_nat n).
Proof.
  intros Hab Hn.
  assert (HN : 0 < inject_Z (Z.of_nat n)).
  { change 0 with (inject_Z 0). rewrite <- Zlt_Qlt. lia. }
  apply Qmult_le_compat_r.
  - rewrite <- Zle_Qle. lia.
  - apply Qlt_le_weak, Qinv_lt_0_compat, HN.
Qed.

(** X5. The cooperation rates, counted.  With the rounds of a history
    counted by what the two players did, every rate is a count divided by
    the number of rounds (0 on the empty history): the mutual cooperation
    rate counts the rounds in which both cooperated, the exploitation rate
    of a player those in which it alone defected, and the cooperation rate
    of a player the rounds of mutual cooperation together with those in
    which the other one alone defected.  So the mutual cooperation rate
    and the exploitation rate of a player never exceed the cooperation rate
    of the other player.  Every [player] value other than 1 is read as
    player 2, and the Pareto efficiency is the mutual cooperation rate
    under another name. *)
Theorem cooperation_rate_decomposition (history : list (AgentAction * AgentAction)) :
  let rate := λ count : nat,
    match history with
    | [] => 0
    | _ => inject_Z (Z.of_nat count) / Qlen history
    end in
  let mutual := count_rounds true true history in
  let exploited_by_1 := count_rounds false true history in
  let exploited_by_2 := count_rounds true false history in
  calculate_mutual_cooperation_rate history = rate mutual
  ∧ calculate_exploitation_rate history 1 = rate exploited_by_1
  ∧ calculate_exploitation_rate history 2 = rate exploited_by_2
  ∧ calculate_cooperation_rate (history.*2) = rate (mutual + exploited_by_1)%nat
  ∧ calculate_cooperation_rate (history.*1) = rate (mutual + exploited_by_2)%nat
  ∧ calculate_mutual_cooperation_rate history <= calculate_cooperation_rate (history.*1)
  ∧ calculate_mutual_cooperation_rate history <= calculate_cooperation_rate (history.*2)
  ∧ calculate_exploitation_rate history 1 <= calculate_cooperation_rate (history.*2)
  ∧ calculate_exploitation_rate history 2 <= calculate_cooperation_rate (history.*1)
  ∧ (∀ player,
       calculate_exploitation_rate history player
       = calculate_exploitation_rate history (if decide (player = 1%Z) then 1 else 2))
  ∧ calculate_pareto_efficiency history = calculate_mutual_cooperation_rate history.
Proof.
  cbv zeta.
  destruct (count_cooperative_rounds history) as [Hc1 Hc2].
  assert (Hmutual : calculate_mutual_cooperation_rate history
            = match history with
              | [] => 0
              | _ => inject_Z (Z.of_nat (count_rounds true true history)) / Qlen history
              end).
  { unfold calculate_mutual_cooperation_rate, count_rounds.
    destruct history as [|h0 history0]; [done|]. cbv zeta. do 4 f_equal.
    apply list_filter_iff. intros [a b]. cbn [fst snd].
    destruct (is_cooperative a), (is_cooperative b); cbn; split; intros; congruence. }
  assert (Hex1 : calculate_exploitation_rate history 1
            = match history with
              | [] => 0
              | _ => inject_Z (Z.of_nat (count_rounds false true history)) / Qlen history
              end).
  { unfold calculate_exploitation_rate, count_rounds.
    destruct history as [|h0 history0]; [done|]. cbv zeta. do 4 f_equal.
    apply list_filter_iff. intros [a b]. cbn [fst snd].
    rewrite decide_True by done.
    destruct (is_cooperative a), (is_cooperative b); cbn; split; intros; congruence. }
  assert (Hex2 : calculate_exploitation_rate history 2
            = match history with
              | [] => 0
              | _ => inject_Z (Z.of_nat (count_rounds true false history)) / Qlen history
              end).
  { unfold calculate_exploitation_rate, count_rounds.
    destruct history as [|h0 history0]; [done|]. cbv zeta. do 4 f_equal.
    apply list_filter_iff. intros [a b]. cbn [fst snd].
    rewrite decide_False by done.
    destruct (is_cooperative a), (is_cooperative b); cbn; split; intros; congruence. }
  assert (Hco2 : calculate_cooperation_rate (history.*2)
            = match history with
              | [] => 0
              | _ => inject_Z (Z.of_nat (count_rounds true true history
                                          + count_rounds false true history)) / Qlen history
              end).
  { unfold calculate_cooperation_rate. rewrite Hc2.
    destruct history; [done|]. unfold Qlen. by rewrite length_fmap. }
  assert (Hco1 : calculate_cooperation_rate (history.*1)
            = match history with
              | [] => 0
              | _ => inject_Z (Z.of_nat (count_rounds true true history
                                          + count_rounds true false history)) / Qlen history
              end).
  { unfold calculate_cooperation_rate. rewrite Hc1.
    destruct history; [done|]. unfold Qlen. by rewrite length_fmap. }
  repeat (split; [done|]).
  rewrite Hmutual, Hex1, Hex2, Hco1, Hco2.
  split; [|split; [|split; [|split; [|split]]]].
  1-4: destruct history as [|h history]; [apply Qle_refl|];
       unfold Qlen; apply ratio_le; cbn [length]; lia.
  - intros player. unfold calculate_exploitation_rate.
    destruct history as [|h history]; [done|].
    by destruct (decide (player = 1%Z)).
  - done.
Qed.

(** ** base_agent.py *)

Lemma add_knowledge_prefix kb knowledge : kb `prefix_of` add_knowledge kb knowledge.
Proof.
  unfold add_knowledge. revert kb.
  induction knowledge as [|x l IH]; intros kb; simpl; [done|].
  destruct (decide (x ∈ kb)); [apply IH|].
  etrans; [|apply IH]. by apply prefix_app_r.
Qed.

Lemma add_knowledge_NoDup kb knowledge : NoDup kb → NoDup (add_knowledge kb knowledge).
Proof.
  unfold add_knowledge. revert kb.
  induction knowledge as [|x l IH]; intros kb Hnd; simpl; [done|].
  destruct (decide (x ∈ kb)); [by apply IH|].
  apply IH. apply NoDup_app. split; [done|]. split.
  - intros y Hy ->%list_elem_of_singleton. done.
  - apply NoDup_singleton.
Qed.

Lemma add_knowledge_known kb knowledge :
  (∀ x, x ∈ knowledge → x ∈ kb) → add_knowledge kb knowledge = kb.
Proof.
  unfold add_knowledge. revert kb.
  induction knowledge as [|x l IH]; intros kb Hall; simpl; [done|].
  rewrite decide_True by (apply Hall; left).
  apply IH. intros y Hy. apply Hall. by right.
Qed.

(** X6. [share_knowledge] keeps what the agent knows, in place, and adds
    the new items behind it: the old knowledge base is a prefix of the new
    one, the new one holds exactly the old and the offered items, sharing
    the same items again changes nothing, and a knowledge base without
    duplicates stays without duplicates. *)
Theorem share_knowledge_spec (a : BaseGameAgent) (knowledge : list string) :
  NoDup (knowledge_base (state a)) →
  NoDup (knowledge_base (state (share_knowledge a knowledge)))
  ∧ knowledge_base (state a) `prefix_of`
      knowledge_base (state (share_knowledge a knowledge))
  ∧ (∀ x, x ∈ knowledge_base (state (share_knowledge a knowledge))
          ↔ x ∈ knowledge_base (state a) ∨ x ∈ knowledge)
  ∧ share_knowledge (share_knowledge a knowledge) knowledge
    = share_knowledge a knowledge.
Proof.
  intros Hnd. simpl. split; [by apply add_knowledge_NoDup|].
  split; [apply add_knowledge_prefix|].
  split; [intros x; apply elem_of_add_knowledge|].
  unfold share_knowledge, set_state. simpl. do 2 f_equal.
  apply add_knowledge_known. intros x Hx. apply elem_of_add_knowledge. by right.
Qed.

Lemma share_knowledge_spec_witness :
  knowledge_base (state (share_knowledge wary_alice ["alice's secret"; "news"]))
  `prefix_of`
  knowledge_base
    (state (share_knowledge (share_knowledge wary_alice ["alice's secret"; "news"])
              ["alice's secret"; "news"])).
Proof.
  destruct (share_knowledge_spec
              (share_knowledge wary_alice ["alice's secret"; "news"])
              ["alice's secret"; "news"]) as (_ & Hprefix & _).
  - compute_done.
  - exact Hprefix.
Defined.

Lemma py_int_lower_bound (n : Z) (q : Q) : inject_Z n <= q → (n ≤ py_int q)%Z.
Proof.
  unfold Qle, py_int. simpl. intros Hq.
  apply Z.quot_le_lower_bound; lia.
Qed.

(** X7. [get_knowledge_to_share] hands out a prefix of the agent's own
    knowledge base and nothing else: nothing at all when the trust in the
    requester is below the agent's trust threshold, at least one item when
    the requester is trusted and the agent knows anything, and everything
    when the trust is 1 or more. *)
Theorem get_knowledge_to_share_spec (a : BaseGameAgent) (requester_id : string) :
  get_knowledge_to_share a requester_id `prefix_of` knowledge_base (state a)
  ∧ (get_trust_score a requester_id < trust_threshold a →
       get_knowledge_to_share a requester_id = [])
  ∧ (trust_threshold a <= get_trust_score a requester_id →
       knowledge_base (state a) ≠ [] →
       get_knowledge_to_share a requester_id ≠ [])
  ∧ (trust_threshold a <= get_trust_score a requester_id →
       1 <= get_trust_score a requester_id →
       get_knowledge_to_share a requester_id = knowledge_base (state a)).
Proof.
  unfold get_knowledge_to_share. split; [|split; [|split]].
  - destruct (Qltb _ _); [apply prefix_nil|apply prefix_take].
  - intros Hlt%Qltb_lt. by rewrite Hlt.
  - intros Hge%Qltb_ge Hkb. rewrite Hge.
    destruct (knowledge_base (state a)) as [|x kb]; [done|].
    set (m := Z.max 1 _). assert (Hm : (1 ≤ m)%Z) by (unfold m; lia).
    destruct (Z.to_nat m) as [|k] eqn:Hk; [lia|]. done.
  - intros Hge%Qltb_ge Hone. rewrite Hge. apply take_ge.
    set (kb := knowledge_base (state a)).
    assert (Hlen : (Z.of_nat (length kb) ≤ py_int (Qlen kb * get_trust_score a requester_id))%Z).
    { apply py_int_lower_bound. fold (Qlen kb).
      assert (0 <= Qlen kb).
      { unfold Qlen. change 0 with (inject_Z 0). rewrite <- Zle_Qle. lia. }
      nra. }
    lia.
Qed.

Lemma get_knowledge_to_share_spec_witness :
  get_knowledge_to_share wary_alice "Bob" = []
  ∧ get_knowledge_to_share wary_alice "Carol" ≠ [].
Proof.
  split.
  - apply (get_knowledge_to_share_spec wary_alice "Bob"). reflexivity.
  - apply (get_knowledge_to_share_spec wary_alice "Carol"); [|discriminate].
    apply Qle_bool_iff. reflexivity.
Defined.

Lemma update_state_reputation (a : BaseGameAgent) opponent_id opponent_action payoff
    my_action :
  0 <= reputation (state (update_state a opponent_id opponent_action payoff my_action))
    <= 1.
Proof.
  unfold update_state. simpl.
  destruct (payoff_history (state a) ++ [payoff]) as [|x l] eqn:Hp.
  - by apply app_nil in Hp as [_ ?].
  - apply clamp_bounds.
Qed.

Lemma update_state_well_formed (a : BaseGameAgent) opponent_id opponent_action payoff
    my_action :
  state_well_formed (state a) →
  state_well_formed (state (update_state a opponent_id opponent_action payoff my_action)).
Proof.
  intros (Htrust & _ & Hlen). split; [|split].
  - apply (update_trust_in_unit_interval (state a) opponent_id
             (is_cooperative opponent_action) Htrust).
  - apply update_state_reputation.
  - unfold update_state. simpl. rewrite !length_app. simpl. by rewrite Hlen.
Qed.

(** X8. Whatever sequence of rounds an agent records with [update_state],
    its state stays well formed (trust scores and reputation in [0,1], one
    payoff per recorded interaction), both histories grow by one entry per
    call, and its name, its thresholds and its knowledge base are not
    touched. *)
Theorem update_state_many_invariants (a : BaseGameAgent)
    (calls : list (string * AgentAction * Q * AgentAction)) :
  state_well_formed (state a) →
  state_well_formed (state (update_state_many a calls))
  ∧ length (payoff_history (state (update_state_many a calls)))
    = (length (payoff_history (state a)) + length calls)%nat
  ∧ cooperation_history (state (update_state_many a calls))
    = cooperation_history (state a) ++ ((λ c, (c.1.1.1, c.1.1.2)) <$> calls)
  ∧ name (update_state_many a calls) = name a
  ∧ cooperation_threshold (update_state_many a calls) = cooperation_threshold a
  ∧ trust_threshold (update_state_many a calls) = trust_threshold a
  ∧ knowledge_base (state (update_state_many a calls)) = knowledge_base (state a).
Proof.
  unfold update_state_many. revert a.
  induction calls as [|[[[opp act] pay] my] calls IH]; intros a Hwf; simpl.
  - rewrite app_nil_r. split; [done|]. split; [lia|]. by repeat split.
  - destruct (IH (update_state a opp act pay my))
      as (Hwf' & Hlen & Hhist & Hname & Hct & Htt & Hkb).
    { by apply update_state_well_formed. }
    split; [done|]. rewrite Hlen, Hhist, Hname, Hct, Htt, Hkb. simpl.
    rewrite length_app, <- app_assoc. simpl. split; [lia|]. by repeat split.
Qed.

Lemma update_state_many_invariants_witness :
  state_well_formed
    (state (update_state_many wary_alice
              [("Bob", DEFECT, 0, COOPERATE); ("Carol", COOPERATE, 3, COOPERATE)])).
Proof.
  apply (update_state_many_invariants wary_alice
           [("Bob", DEFECT, 0, COOPERATE); ("Carol", COOPERATE, 3, COOPERATE)]).
  split; [|split].
  - unfold trust_in_unit_interval. simpl. apply map_Forall_singleton. lra.
  - simpl. lra.
  - reflexivity.
Defined.

(** X9. One recorded round moves the trust in the opponent in the
    direction of the opponent's action and never raises the trust in anyone
    else: for an agent with trust scores in [0,1], a cooperative action does
    not lower the score of the opponent, any other action does not raise it,
    and the score of every other peer does not rise.  The agent's own
    action plays no part: [update_state] gives the same agent whatever
    [my_action] is. *)
Theorem update_state_trust_direction (a : BaseGameAgent) (opponent_id : string)
    (opponent_action : AgentAction) (payoff : Q) (my_action : AgentAction) :
  trust_in_unit_interval (state a) →
  let a' := update_state a opponent_id opponent_action payoff my_action in
  (is_cooperative opponent_action = true →
     get_trust_score a opponent_id <= get_trust_score a' opponent_id)
  ∧ (is_cooperative opponent_action = false →
       get_trust_score a' opponent_id <= get_trust_score a opponent_id)
  ∧ (∀ q, q ≠ opponent_id → get_trust_score a' q <= get_trust_score a q)
  ∧ (∀ other_action, update_state a opponent_id opponent_action payoff other_action = a').
Proof.
  intros Htrust. cbv zeta.
  assert (Hold : 0 <= get_trust_score a opponent_id <= 1).
  { unfold get_trust_score.
    destruct (trust_scores (state a) !! opponent_id) as [v|] eqn:Hv; simpl; [|lra].
    exact (Htrust _ _ Hv). }
  assert (Hnew : ∀ q,
    get_trust_score (update_state a opponent_id opponent_action payoff my_action) q
    = default 0.5
        (trust_scores (update_trust (state a) opponent_id
                         (is_cooperative opponent_action) default_decay_rate) !! q))
    by done.
  split; [|split; [|split]].
  - intros Hc. rewrite Hnew, update_trust_lookup, decide_True, Hc by done. simpl.
    fold (get_trust_score a opponent_id).
    destruct (Q.min_spec 1 (get_trust_score a opponent_id + 0.1)) as [[? ->]|[? ->]]; lra.
  - intros Hc. rewrite Hnew, update_trust_lookup, decide_True, Hc by done. simpl.
    fold (get_trust_score a opponent_id).
    destruct (Q.max_spec 0 (get_trust_score a opponent_id - 0.2)) as [[? ->]|[? ->]]; lra.
  - intros q Hq. rewrite Hnew, update_trust_lookup, decide_False by done.
    unfold get_trust_score.
    destruct (trust_scores (state a) !! q) as [v|] eqn:Hv; simpl; [|lra].
    pose proof (Htrust _ _ Hv) as Hv'. simpl in Hv'. unfold default_decay_rate. lra.
  - done.
Qed.

Lemma update_state_trust_direction_witness :
  get_trust_score (update_state wary_alice "Bob" DEFECT 0 COOPERATE) "Bob"
  <= get_trust_score wary_alice "Bob".
Proof.
  destruct (update_state_trust_direction wary_alice "Bob" DEFECT 0 COOPERATE)
    as (_ & Hdown & _).
  - unfold trust_in_unit_interval. simpl. apply map_Forall_singleton. lra.
  - apply Hdown. reflexivity.
Defined.

(** X10. [get_cooperation_rate] always lies in [0,1]; without an argument
    it is 0.5 on an empty history and otherwise the calculator's cooperation
    rate of the recorded actions, which are the actions of the opponents. *)
Theorem get_cooperation_rate_range (a : BaseGameAgent) (agent_id : option string) :
  0 <= get_cooperation_rate a agent_id <= 1
  ∧ get_cooperation_rate a None
    = match cooperation_history (state a) with
      | [] => 0.5
      | hist => calculate_cooperation_rate (hist.*2)
      end.
Proof.
  split.
  - unfold get_cooperation_rate.
    destruct (cooperation_history (state a)) as [|e hist]; [lra|].
    match goal with |- context [match ?l with [] => _ | _ => _ end] =>
      destruct l as [|x l'] eqn:Hl end; [lra|].
    unfold count_cooperative, Qlen.
    apply ratio_bounds; [apply length_filter|simpl; lia].
  - unfold get_cooperation_rate.
    by destruct (cooperation_history (state a)) as [|e hist].
Qed.

(** ** strategies.py *)

(** X11.  Tit-for-tat over a whole game: told in each round the opponent's
    move of the round before, it opens with COOPERATE and then answers
    each opponent move with COOPERATE if that move was cooperative
    (COOPERATE or SHARE_KNOWLEDGE) and with DEFECT otherwise. *)
Theorem tit_for_tat_mirrors (opponent_moves : list AgentAction) :
  moves_against TitForTat.decide opponent_moves =
    COOPERATE :: (action_class <$> opponent_moves).
Proof.
  unfold moves_against. cbn [imap]. f_equal.
  rewrite imap_fmap. rewrite <- (imap_const action_class).
  apply imap_ext. intros k a _. cbn. unfold TitForTat.decide.
  rewrite decide_False by lia. done.
Qed.

Lemma grudger_after_flag s calls :
  Grudger.opponent_ever_defected (grudger_after s calls) =
    Grudger.opponent_ever_defected s || existsb (λ c, is_defection c.2) calls.
Proof.
  revert s. induction calls as [|[r last] calls IH]; intros s; cbn.
  { by rewrite orb_false_r. }
  unfold grudger_after in IH. rewrite IH. cbn.
  destruct last as [[]|]; cbn; rewrite ?orb_true_r; try done.
  all: by destruct (Grudger.opponent_ever_defected s).
Qed.

(** X12.  A Grudger defects exactly when a defection (DEFECT or
    WITHHOLD_KNOWLEDGE) has been reported to it in this call or in any
    earlier call since it was created or reset, whatever the round numbers
    are (round 0 included); after [reset] it cooperates again as long as
    no defection is reported. *)
Theorem grudger_defects_iff_reported (s : Grudger.t)
    (calls : list (Z * option AgentAction)) (round_number : Z)
    (last : option AgentAction) :
  (Grudger.decide (grudger_after s calls) round_number last).1 =
    (if Grudger.opponent_ever_defected s
        || existsb (λ c, is_defection c.2) calls
        || is_defection last
     then DEFECT else COOPERATE)
  ∧ (Grudger.decide (grudger_after (Grudger.reset s) calls) round_number last).1 =
    (if existsb (λ c, is_defection c.2) calls || is_defection last
     then DEFECT else COOPERATE).
Proof.
  split; unfold Grudger.decide; cbn [fst]; rewrite grudger_after_flag.
  - destruct last as [[]|]; cbn; rewrite ?orb_true_r, ?orb_false_r; done.
  - destruct last as [[]|]; cbn; rewrite ?orb_true_r, ?orb_false_r; done.
Qed.

(** X13.  Pavlov (win-stay, lose-shift), for a strategy whose remembered
    action is COOPERATE or DEFECT: the action returned is COOPERATE or
    DEFECT, it is the action remembered afterwards, and it does not depend
    on the opponent's last action.  In round 0 it is COOPERATE.  In a later
    round it is the remembered action when no payoff is recorded or the
    last payoff reaches the threshold, and the other action when the last
    payoff is below the threshold.  [reset] does not touch the remembered
    action. *)
Theorem pavlov_win_stay_lose_shift (s : Pavlov.t) (round_number : Z)
    (last : option AgentAction) :
  Pavlov.last_action s = COOPERATE ∨ Pavlov.last_action s = DEFECT →
  let r := Pavlov.decide s round_number last in
  (r.1 = COOPERATE ∨ r.1 = DEFECT)
  ∧ Pavlov.last_action r.2 = r.1
  ∧ (∀ last', Pavlov.decide s round_number last' = r)
  ∧ (round_number = 0%Z → r.1 = COOPERATE)
  ∧ (round_number ≠ 0%Z →
     ∀ payoffs p,
       BaseStrategy.payoff_history (Pavlov.base s) = payoffs ++ [p] →
       (Pavlov.win_threshold s <= p → r = (Pavlov.last_action s, s))
       ∧ (p < Pavlov.win_threshold s →
          r.1 = shifted (Pavlov.last_action s) ∧ r.1 ≠ Pavlov.last_action s))
  ∧ (round_number ≠ 0%Z →
     BaseStrategy.payoff_history (Pavlov.base s) = [] →
     r = (Pavlov.last_action s, s))
  ∧ Pavlov.last_action (Pavlov.reset s) = Pavlov.last_action s.
Proof.
  intros Hact r. subst r. unfold Pavlov.decide.
  split; [|split; [|split; [|split; [|split; [|split]]]]]; try done.
  - repeat case_match; cbn; tauto.
  - repeat case_match; cbn; done.
  - intros ->. done.
  - intros Hr payoffs p Hp. rewrite decide_False by done.
    rewrite Hp, last_snoc. split.
    + intros Hle. apply Qltb_ge in Hle. by rewrite Hle.
    + intros Hlt. apply Qltb_lt in Hlt. rewrite Hlt. cbn. unfold shifted.
      split; [done|]. case_decide as Hc; [rewrite Hc; done|].
      destruct Hact as [Ha|Ha]; [done|]. by rewrite Ha.
  - intros Hr Hp. rewrite decide_False by done. by rewrite Hp.
Qed.

Lemma pavlov_win_stay_lose_shift_witness :
  (Pavlov.decide
     (Pavlov.update_history (Pavlov.new 2.5) COOPERATE DEFECT 0) 1 (Some DEFECT)).1
  = DEFECT.
Proof.
  pose proof (pavlov_win_stay_lose_shift
                (Pavlov.update_history (Pavlov.new 2.5) COOPERATE DEFECT 0) 1
                (Some DEFECT) (or_introl eq_refl)) as (_ & _ & _ & _ & H & _).
  destruct (H ltac:(done) [] 0 eq_refl) as [_ Hshift].
  destruct Hshift as [Hs _]; [reflexivity|]. exact Hs.
Defined.

(** X14.  Generous tit-for-tat between its extremes, for a draw of
    [random.random()] in [0, 1): it cooperates whenever tit-for-tat does;
    with a forgiveness probability of 0 or less it is tit-for-tat; with a
    forgiveness probability of 1 or more it always cooperates. *)
Theorem generous_tit_for_tat_extremes (s : GenerousTitForTat.t)
    (round_number : Z) (last : option AgentAction) (draw : Q) :
  0 <= draw → draw < 1 →
  (TitForTat.decide round_number last = COOPERATE →
   GenerousTitForTat.decide s round_number last draw = COOPERATE)
  ∧ (GenerousTitForTat.forgiveness_probability s <= 0 →
     GenerousTitForTat.decide s round_number last draw =
       TitForTat.decide round_number last)
  ∧ (1 <= GenerousTitForTat.forgiveness_probability s →
     GenerousTitForTat.decide s round_number last draw = COOPERATE).
Proof.
  intros Hlo Hhi. unfold GenerousTitForTat.decide, TitForTat.decide.
  repeat split.
  - destruct last as [a|]; [|done]. case_decide; [done|].
    destruct (is_cooperative a); done.
  - intros Hf. destruct last as [a|]; [|done]. case_decide; [done|].
    destruct (is_cooperative a); [done|].
    assert (Hge : GenerousTitForTat.forgiveness_probability s <= draw) by lra.
    apply Qltb_ge in Hge. by rewrite Hge.
  - intros Hf. destruct last as [a|]; [|done]. case_decide; [done|].
    destruct (is_cooperative a); [done|].
    assert (Hlt : draw < GenerousTitForTat.forgiveness_probability s) by lra.
    apply Qltb_lt in Hlt. by rewrite Hlt.
Qed.

Lemma generous_tit_for_tat_extremes_witness :
  GenerousTitForTat.decide (GenerousTitForTat.new 0) 3 (Some DEFECT) 0.25 = DEFECT.
Proof.
  destruct (generous_tit_for_tat_extremes (GenerousTitForTat.new 0) 3
              (Some DEFECT) 0.25) as (_ & H & _).
  - vm_compute. discriminate.
  - reflexivity.
  - rewrite H; [reflexivity|]. vm_compute. discriminate.
Defined.

(** X15.  The Random strategy, for a draw of [random.random()] in [0, 1):
    it cooperates exactly when the draw is below the cooperation
    probability, so with probability 1 or more it always cooperates and
    with probability 0 or less it always defects, whatever the round and
    the opponent did. *)
Theorem random_strategy_threshold (s : Random.t) (round_number : Z)
    (last : option AgentAction) (draw : Q) :
  0 <= draw → draw < 1 →
  (Random.decide s round_number last draw = COOPERATE
     ↔ draw < Random.cooperation_probability s)
  ∧ (Random.decide s round_number last draw = DEFECT
     ↔ Random.cooperation_probability s <= draw)
  ∧ (1 <= Random.cooperation_probability s →
     Random.decide s round_number last draw = COOPERATE)
  ∧ (Random.cooperation_probability s <= 0 →
     Random.decide s round_number last draw = DEFECT).
Proof.
  intros Hlo Hhi. unfold Random.decide.
  destruct (Qltb draw (Random.cooperation_probability s)) eqn:Hd.
  - apply Qltb_lt in Hd. repeat split; try done; intros; lra.
  - apply Qltb_ge in Hd. repeat split; try done; intros; lra.
Qed.

Lemma random_strategy_threshold_witness :
  Random.decide (Random.new 1) 0 None 0.75 = COOPERATE.
Proof.
  destruct (random_strategy_threshold (Random.new 1) 0 None 0.75)
    as (_ & _ & H & _).
  - vm_compute. discriminate.
  - reflexivity.
  - apply H. vm_compute. discriminate.
Defined.

(** X16.  The opening move of every strategy [create_strategy] builds: in
    round 0 a strategy of any type other than ALWAYS_DEFECT and RANDOM
    cooperates, for any keyword arguments and any random draws; only the
    Grudger looks at the opponent's last action in round 0, and cooperates
    there unless a defection is reported. *)
Theorem create_strategy_opening_move (strategy_type : StrategyType)
    (kwargs : Dict Q) (last : option AgentAction) (rnd : Strategies.Draws) :
  strategy_type ≠ ALWAYS_DEFECT →
  strategy_type ≠ RANDOM →
  (strategy_type = GRUDGER → is_defection last = false) →
  (strategy_decide (create_strategy strategy_type kwargs) 0 last rnd).1 = COOPERATE.
Proof.
  intros Hd Hr Hg. destruct strategy_type; try done; cbn.
  - by destruct last.
  - by destruct last.
  - specialize (Hg eq_refl). by destruct last as [[]|].
Qed.

Lemma create_strategy_opening_move_witness :
  (strategy_decide (create_strategy PAVLOV [("win_threshold", 3)]) 0
     (Some DEFECT) (Strategies.mkDraws 0 DEFECT 0)).1 = COOPERATE.
Proof.
  apply create_strategy_opening_move; [discriminate|discriminate|discriminate].
Defined.

Lemma adaptive_call_probability s c :
  0 <= Strategies.cooperation_probability s <= 1 →
  0 <= Strategies.cooperation_probability (adaptive_call s c) <= 1.
Proof.
  intros Hp. destruct c as [r last rnd| |]; cbn; try done.
  destruct (decide (r = 0%Z)) as [->|Hr]; [done|].
  rewrite adaptive_decide_probability_eq by done.
  unfold Strategies.adapt_probability. apply clamp_bounds.
Qed.

Lemma adaptive_call_rates s c :
  Strategies.learning_rate (adaptive_call s c) = Strategies.learning_rate s
  ∧ Strategies.exploration_rate (adaptive_call s c) = Strategies.exploration_rate s
  ∧ Strategies.cooperation_threshold (adaptive_call s c) =
      Strategies.cooperation_threshold s.
Proof.
  destruct c as [r last rnd| |]; cbn; try done.
  unfold Strategies.decide. repeat case_match; done.
Qed.

(** X17.  The Adaptive strategy over any sequence of calls ([decide] with
    any round number, opponent action and random draws; [update_history]
    with any payoff; [reset]): a cooperation probability in [0, 1] stays
    in [0, 1], whatever the learning rate is, and the learning rate, the
    exploration rate and the threshold never change. *)
Theorem adaptive_probability_stays_in_unit_interval (s : Strategies.Adaptive)
    (calls : list AdaptiveCall) :
  0 <= Strategies.cooperation_probability s <= 1 →
  let s' := fold_left adaptive_call calls s in
  0 <= Strategies.cooperation_probability s' <= 1
  ∧ Strategies.learning_rate s' = Strategies.learning_rate s
  ∧ Strategies.exploration_rate s' = Strategies.exploration_rate s
  ∧ Strategies.cooperation_threshold s' = Strategies.cooperation_threshold s.
Proof.
  revert s. induction calls as [|c calls IH]; intros s Hp; cbn.
  { done. }
  destruct (IH (adaptive_call s c) (adaptive_call_probability s c Hp))
    as (H1 & H2 & H3 & H4).
  destruct (adaptive_call_rates s c) as (R1 & R2 & R3).
  cbv zeta in *. rewrite H2, H3, H4. done.
Qed.

Lemma adaptive_probability_stays_in_unit_interval_witness :
  0 <= Strategies.cooperation_probability
         (fold_left adaptive_call
            [CallDecide 0 None (Strategies.mkDraws 0 DEFECT 0);
             CallUpdateHistory COOPERATE DEFECT 0;
             CallDecide 1 (Some DEFECT) (Strategies.mkDraws 0.5 DEFECT 0.5);
             CallReset]
            (Strategies.new_adaptive 5 0.1 0.5)) <= 1.
Proof.
  apply (adaptive_probability_stays_in_unit_interval
           (Strategies.new_adaptive 5 0.1 0.5)).
  vm_compute. split; discriminate.
Defined.

(** ** games.py *)

Section further_games.
Context {UserContext : Type}.
Context (make_decision :
  BaseGameAgent → GameContext UserContext → option (list AgentAction) → Result GameDecision).
Context (tracking : Tracking UserContext).
Context (random_index : nat → nat → nat).
Implicit Types (agents : list BaseGameAgent).

(** The caller's context asks for tracking on a session that is not open
    in the tracker: [record_turn] then raises. *)
Lemma pd_decide_unknown_session (context : option UserContext) (rn : nat)
    (a1 a2 : BaseGameAgent) (context1 context2 : GameContext UserContext)
    (h1 h2 : list AgentAction) (s : string) :
  from_option (context_enable_tracking tracking) false context = true →
  context ≫= context_session_id tracking = Some s →
  s ≠ "" →
  s ∉ active_sessions tracking →
  ∃ e, pd_decide UserContext make_decision tracking context rn a1 a2
                 context1 context2 h1 h2 = Raise e.
Proof.
  intros Hon Hs Hne Hclosed. unfold pd_decide. rewrite Hon, Hs.
  unfold truthy at 1. rewrite bool_decide_true by done. cbn [andb].
  unfold make_decision_with_tracking, truthy, record_turn.
  rewrite bool_decide_true by done. cbn [default]. unfold id.
  rewrite decide_False by done.
  destruct (make_decision a1 context1 (Some h2)); cbn; eauto.
Qed.

Lemma pd_decide_raise (context : option UserContext) (rn : nat)
    (a1 a2 : BaseGameAgent) (context1 context2 : GameContext UserContext)
    (h1 h2 : list AgentAction) :
  (∃ e, make_decision a1 context1 (Some h2) = Raise e)
  ∨ (∃ e, make_decision a2 context2 (Some h1) = Raise e) →
  ∃ e, pd_decide UserContext make_decision tracking context rn a1 a2
                 context1 context2 h1 h2 = Raise e.
Proof.
  intros Hraise. unfold pd_decide, make_decision_with_tracking.
  destruct (_ && _); destruct Hraise as [[e He]|[e He]]; rewrite He; cbn; eauto.
  - destruct (make_decision a1 context1 (Some h2)); cbn; [|eauto].
    destruct (truthy _); cbn; [|eauto]. destruct (record_turn _ _); cbn; eauto.
  - destruct (make_decision a1 context1 (Some h2)); cbn; eauto.
Qed.

(** X18.  A failed decision in a round of the Prisoner's Dilemma: when the
    call to [make_decision] raises for either agent, or the caller's
    context asks for conversation tracking on a session that is not open
    in the tracker, both agents are recorded as defecting, whatever they
    decided.  The round still completes: the history gains
    (DEFECT, DEFECT), both agents are paid the mutual-defection cell, each
    agent's state is updated as after a defection of the other, and no
    knowledge changes hands. *)
Theorem pd_round_error_fallback (context : option UserContext)
    (g : PrisonersDilemma) (a1 a2 : BaseGameAgent) :
  let rn := S (round_number (base g)) in
  (∃ e, make_decision a1 (PDContext UserContext rn (name a2) (reward_matrix g) context)
                      (Some (game_history g).*2) = Raise e)
  ∨ (∃ e, make_decision a2 (PDContext UserContext rn (name a1) (reward_matrix g) context)
                        (Some (game_history g).*1) = Raise e)
  ∨ (from_option (context_enable_tracking tracking) false context = true
     ∧ ∃ s, context ≫= context_session_id tracking = Some s
            ∧ s ≠ "" ∧ s ∉ active_sessions tracking) →
  ∃ r,
    pd_play_round UserContext make_decision tracking context g [a1; a2]
    = (Ok r,
       (mkPD (mkBaseGame rn (results_history (base g))) (reward_matrix g)
             (game_history g ++ [(DEFECT, DEFECT)]),
        [update_state a1 (name a2) DEFECT (defect_defect (reward_matrix g)).1 DEFECT;
         update_state a2 (name a1) DEFECT (defect_defect (reward_matrix g)).2 DEFECT]))
    ∧ pd_round r = rn
    ∧ dict_lookup (pd_actions r) (name a1) = Some DEFECT
    ∧ dict_lookup (pd_actions r) (name a2) = Some DEFECT
    ∧ dict_lookup (pd_decisions r) (name a1) = Some (fallback DEFECT)
    ∧ dict_lookup (pd_decisions r) (name a2) = Some (fallback DEFECT)
    ∧ dict_lookup (pd_payoffs r) (name a2) = Some (defect_defect (reward_matrix g)).2.
Proof.
  intros rn Hraise. unfold pd_play_round. subst rn.
  cbn [next_round base with_base PrisonersDilemma_game pd_base reward_matrix
       game_history round_number] in *.
  match goal with
  | |- context [pd_decide _ _ _ ?c ?rn ?b1 ?b2 ?c1 ?c2 ?h1 ?h2] =>
      assert (Hfb : ∃ e, pd_decide UserContext make_decision tracking
                                   c rn b1 b2 c1 c2 h1 h2 = Raise e)
  end.
  { destruct Hraise as [H1|[H2|(Hon & s & Hs & Hne & Hclosed)]].
    - apply pd_decide_raise. by left.
    - apply pd_decide_raise. by right.
    - by eapply pd_decide_unknown_session. }
  destruct Hfb as [e ->]. cbn.
  destruct (defect_defect (reward_matrix g)) as [p1 p2] eqn:Hdd. cbn.
  eexists. split; [reflexivity|]. cbn.
  split; [done|].
  destruct (decide (name a1 = name a2)) as [Heq|Hne].
  - rewrite Heq. cbn. rewrite !decide_True by done. done.
  - cbn. repeat case_decide; try congruence. done.
Qed.

Lemma pd_play_round_shape (context : option UserContext) (g : PrisonersDilemma)
    (a1 a2 : BaseGameAgent) :
  name a1 ≠ name a2 →
  ∃ r g' a1' a2' x y,
    pd_play_round UserContext make_decision tracking context g [a1; a2]
    = (Ok r, (g', [a1'; a2']))
    ∧ name a1' = name a1 ∧ name a2' = name a2
    ∧ pd_base g' = mkBaseGame (S (round_number (base g))) (results_history (base g))
    ∧ reward_matrix g' = reward_matrix g
    ∧ game_history g' = game_history g ++ [(x, y)]
    ∧ pd_payoffs r = [(name a1, (get_payoffs (reward_matrix g) x y).1);
                      (name a2, (get_payoffs (reward_matrix g) x y).2)]
    ∧ pd_actions r = [(name a1, x); (name a2, y)].
Proof.
  intros Hne. unfold pd_play_round.
  destruct (match pd_decide _ _ _ _ _ _ _ _ _ _ _ with
            | Ok decisions => decisions
            | Raise _ => (fallback DEFECT, fallback DEFECT)
            end) as [d1 d2].
  unfold calculate_round_payoffs. cbn [calc_reward_matrix payoff_calculator].
  destruct (get_payoffs _ _ _) as [p1 p2] eqn:Hp.
  eexists _, _, _, _, (action d1), (action d2). split; [reflexivity|].
  cbn [pd_base reward_matrix game_history pd_payoffs pd_actions].
  rewrite !receive_from_name. cbn in Hp. cbn. rewrite Hp.
  rewrite !decide_False by done. done.
Qed.

Lemma pd_play_rounds_shape (context : option UserContext) (num_rounds : nat)
    (g : PrisonersDilemma) (a1 a2 : BaseGameAgent) :
  name a1 ≠ name a2 →
  ∃ rs g' a1' a2' played,
    play_rounds (pd_play_round UserContext make_decision tracking context)
                num_rounds g [a1; a2] = (Ok rs, (g', [a1'; a2']))
    ∧ name a1' = name a1 ∧ name a2' = name a2
    ∧ pd_base g' = mkBaseGame (round_number (base g) + num_rounds)
                              (results_history (base g))
    ∧ reward_matrix g' = reward_matrix g
    ∧ game_history g' = game_history g ++ played
    ∧ length played = num_rounds
    ∧ pd_payoffs <$> rs =
        (λ h, [(name a1, (get_payoffs (reward_matrix g) h.1 h.2).1);
               (name a2, (get_payoffs (reward_matrix g) h.1 h.2).2)]) <$> played
    ∧ pd_actions <$> rs = (λ h, [(name a1, h.1); (name a2, h.2)]) <$> played.
Proof.
  revert g a1 a2. induction num_rounds as [|n IH]; intros g a1 a2 Hne;
    cbn [play_rounds].
  - exists [], g, a1, a2, []. rewrite app_nil_r, Nat.add_0_r.
    repeat split; try done. by destruct g as [[]].
  - destruct (pd_play_round_shape context g a1 a2 Hne)
      as (r & g1 & b1 & b2 & x & y & Hround & Hn1 & Hn2 & Hb & Hrm & Hh & Hp & Ha).
    rewrite Hround.
    destruct (IH g1 b1 b2) as (rs & g' & c1 & c2 & played & Hrest & Hm1 & Hm2
                               & Hb' & Hrm' & Hh' & Hlen & Hps & Has).
    { by rewrite Hn1, Hn2. }
    rewrite Hrest. exists (r :: rs), g', c1, c2, ((x, y) :: played).
    split; [done|]. rewrite Hm1, Hm2, Hn1, Hn2. split; [done|]. split; [done|].
    split.
    { rewrite Hb'. cbn [base PrisonersDilemma_game]. rewrite Hb. cbn. f_equal. lia. }
    split; [congruence|]. split.
    { rewrite Hh', Hh. by rewrite <- app_assoc. }
    split; [cbn; lia|].
    rewrite !fmap_cons, Hps, Has, Hp, Ha, Hrm, Hn1, Hn2. done.
Qed.

Lemma dict_iadd_two (n1 n2 : string) (t1 t2 p1 p2 : Q) :
  n1 ≠ n2 →
  foldM (λ (t : Dict Q) (kv : string * Q), dict_iadd t kv.1 kv.2)
        [(n1, p1); (n2, p2)] [(n1, t1); (n2, t2)]
  = Ok [(n1, t1 + p1); (n2, t2 + p2)].
Proof.
  intros Hne. cbn. unfold dict_iadd, dict_get. cbn.
  repeat first [ rewrite decide_True by done
               | rewrite decide_False by congruence
               | progress cbn ].
  done.
Qed.

Lemma accumulate_payoffs_two (rm : RewardMatrix) (n1 n2 : string)
    (played : list (AgentAction * AgentAction)) (t1 t2 : Q) :
  n1 ≠ n2 →
  let step := λ (tot : Q * Q) (h : AgentAction * AgentAction),
    let '(payoff1, payoff2) :=
      calculate_round_payoffs (mkPayoffCalculator rm) h.1 h.2 in
    (tot.1 + payoff1, tot.2 + payoff2) in
  accumulate_payoffs
    ((λ h, [(n1, (get_payoffs rm h.1 h.2).1); (n2, (get_payoffs rm h.1 h.2).2)])
       <$> played)
    [(n1, t1); (n2, t2)]
  = Ok [(n1, (fold_left step played (t1, t2)).1);
        (n2, (fold_left step played (t1, t2)).2)].
Proof.
  intros Hne step. revert t1 t2.
  induction played as [|h played IH]; intros t1 t2; [done|].
  unfold accumulate_payoffs in *. rewrite fmap_cons, foldM_cons.
  rewrite dict_iadd_two by done.
  cbn [fold_left]. unfold step at 2 4.
  unfold calculate_round_payoffs. cbn [calc_reward_matrix].
  destruct (get_payoffs rm h.1 h.2) as [p1 p2]. cbn [fst snd].
  rewrite <- IH. done.
Qed.

Lemma filter_played_names (n1 n2 : string) (played : list (AgentAction * AgentAction)) :
  n1 ≠ n2 →
  (filter (λ na : string * AgentAction, na.1 = n1)
          (played ≫= (λ h, [(n1, h.1); (n2, h.2)]))).*2 = played.*1
  ∧ (filter (λ na : string * AgentAction, na.1 = n2)
            (played ≫= (λ h, [(n1, h.1); (n2, h.2)]))).*2 = played.*2.
Proof.
  intros Hne. induction played as [|h played [IH1 IH2]]; [done|].
  rewrite bind_cons. cbn [app].
  rewrite (filter_cons_True (λ na : string * AgentAction, na.1 = n1)) by done.
  rewrite (filter_cons_False (λ na : string * AgentAction, na.1 = n1)) by (cbn; congruence).
  rewrite (filter_cons_False (λ na : string * AgentAction, na.1 = n2)) by done.
  rewrite (filter_cons_True (λ na : string * AgentAction, na.1 = n2)) by done.
  rewrite !fmap_cons, IH1, IH2. done.
Qed.

Lemma actions_of_played (n1 n2 : string) (rs : list PDRound)
    (played : list (AgentAction * AgentAction)) :
  pd_actions <$> rs = (λ h, [(n1, h.1); (n2, h.2)]) <$> played →
  rs ≫= pd_actions = played ≫= (λ h, [(n1, h.1); (n2, h.2)]).
Proof.
  revert rs. induction played as [|h played IH]; intros rs Has.
  - by destruct rs.
  - destruct rs as [|r rs]; [done|]. rewrite !fmap_cons in Has.
    injection Has as Hr Hrs. rewrite !bind_cons, Hr. f_equal. by apply IH.
Qed.

(** The statistics of a Prisoner's Dilemma between two agents with
    different names, from the rounds played. *)
Lemma pd_final_result_two (g : PrisonersDilemma) (a1 a2 : BaseGameAgent)
    (num_rounds : nat) (rs : list PDRound) (rm : RewardMatrix)
    (played : list (AgentAction * AgentAction)) :
  name a1 ≠ name a2 →
  pd_payoffs <$> rs =
    (λ h, [(name a1, (get_payoffs rm h.1 h.2).1);
           (name a2, (get_payoffs rm h.1 h.2).2)]) <$> played →
  pd_actions <$> rs = (λ h, [(name a1, h.1); (name a2, h.2)]) <$> played →
  ∃ res,
    pd_final_result g a1 a2 num_rounds rs = Ok res
    ∧ rounds res = num_rounds
    ∧ participants res = [name a1; name a2]
    ∧ actions_history res = played ≫= (λ h, [(name a1, h.1); (name a2, h.2)])
    ∧ payoffs res =
        [(name a1, (calculate_cumulative_payoffs (mkPayoffCalculator rm) played).1);
         (name a2, (calculate_cumulative_payoffs (mkPayoffCalculator rm) played).2)]
    ∧ cooperation_rates res =
        [(name a1, calculate_cooperation_rate played.*1);
         (name a2, calculate_cooperation_rate played.*2)]
    ∧ winner res =
        (let t := calculate_cumulative_payoffs (mkPayoffCalculator rm) played in
         if Qeq_bool t.1 t.2 then None
         else if Qgtb t.2 t.1 then Some (name a2) else Some (name a1))
    ∧ additional_metrics res =
        PDMetrics (analyze_game_outcomes (payoff_calculator g) (game_history g)
                     (name a1) (name a2)).
Proof.
  intros Hne Hps Has. unfold pd_final_result. rewrite Hps.
  assert (Htot0 : dict_set (dict_set [] (name a1) 0) (name a2) 0
                  = [(name a1, 0); (name a2, 0)]).
  { cbn. by rewrite decide_False by done. }
  rewrite Htot0, (accumulate_payoffs_two rm) by done.
  fold (calculate_cumulative_payoffs (mkPayoffCalculator rm) played).
  destruct (calculate_cumulative_payoffs (mkPayoffCalculator rm) played)
    as [t1 t2] eqn:Hcum.
  rewrite (actions_of_played _ _ _ _ Has).
  destruct (filter_played_names (name a1) (name a2) played Hne) as [Hf1 Hf2].
  cbn [fst snd mbind Result_bind max_key fold_left].
  rewrite Hf1, Hf2.
  unfold dict_get. cbn [dict_lookup dict_set].
  repeat first [ rewrite decide_True by done
               | rewrite decide_False by congruence ].
  cbn [mbind Result_bind].
  eexists. split; [reflexivity|].
  cbn [rounds participants actions_history payoffs winner additional_metrics
       cooperation_rates fmap list_fmap].
  repeat (split; [done|]). split; [|done].
  destruct (Qeq_bool t1 t2); [done|]. unfold Qgtb. by destruct (Qltb t1 t2).
Qed.

(** X19.  A full Prisoner's Dilemma between two agents with different
    names always returns a result, whatever the agents decide.  The game
    object then has played [num_rounds] rounds, holds exactly this result
    in its results history, and has [num_rounds] new entries at the end of
    its round history.  The total payoffs of the result are the cumulative
    payoffs of those new rounds under the game's reward matrix, the
    cooperation rates are those of the new rounds, and the winner is the
    agent with the larger total (nobody on equal totals), while the
    attached analysis covers the whole round history of the game object,
    rounds of earlier games included. *)
Theorem pd_full_game_totals (context : option UserContext)
    (g : PrisonersDilemma) (a1 a2 : BaseGameAgent) (num_rounds : nat) :
  name a1 ≠ name a2 →
  ∃ res g' a1' a2' played,
    pd_play_full_game UserContext make_decision tracking context g [a1; a2] num_rounds
      = (Ok res, (g', [a1'; a2']))
    ∧ length played = num_rounds
    ∧ game_history g' = game_history g ++ played
    ∧ reward_matrix g' = reward_matrix g
    ∧ round_number (base g') = num_rounds
    ∧ results_history (base g') = [res]
    ∧ rounds res = num_rounds
    ∧ participants res = [name a1; name a2]
    ∧ actions_history res = played ≫= (λ h, [(name a1, h.1); (name a2, h.2)])
    ∧ payoffs res =
        [(name a1, (calculate_cumulative_payoffs (payoff_calculator g) played).1);
         (name a2, (calculate_cumulative_payoffs (payoff_calculator g) played).2)]
    ∧ cooperation_rates res =
        [(name a1, calculate_cooperation_rate played.*1);
         (name a2, calculate_cooperation_rate played.*2)]
    ∧ winner res =
        (let t := calculate_cumulative_payoffs (payoff_calculator g) played in
         if Qeq_bool t.1 t.2 then None
         else if Qgtb t.2 t.1 then Some (name a2) else Some (name a1))
    ∧ additional_metrics res =
        PDMetrics (analyze_game_outcomes (payoff_calculator g)
                     (game_history g ++ played) (name a1) (name a2)).
Proof.
  intros Hne. unfold pd_play_full_game.
  destruct (pd_play_rounds_shape context num_rounds (reset g) a1 a2 Hne)
    as (rs & g' & c1 & c2 & played & Hrest & Hm1 & Hm2
        & Hb' & Hrm' & Hh' & Hlen & Hps & Has).
  rewrite Hrest.
  change (game_history (reset g)) with (game_history g) in Hh'.
  change (reward_matrix (reset g)) with (reward_matrix g) in Hrm', Hps.
  destruct (pd_final_result_two g' a1 a2 num_rounds rs (reward_matrix g) played
              Hne Hps Has)
    as (res & Hfinal & Hrounds & Hpart & Hact & Hpay & Hrates & Hwin & Hmet).
  rewrite Hfinal. exists res, (record_result g' res), c1, c2, played.
  split; [done|]. split; [done|].
  cbn [record_result base with_base PrisonersDilemma_game pd_base game_history
       reward_matrix round_number results_history].
  rewrite Hb'. cbn [round_number results_history base PrisonersDilemma_game
                    pd_base reset with_base app].
  repeat (split; [done|]).
  rewrite Hmet. unfold payoff_calculator. by rewrite Hrm', Hh'.
Qed.


Lemma ks_play_rounds_nobody (context : option UserContext) (num_rounds : nat)
    (g : KnowledgeSharingGame) :
  ∃ rs g',
    play_rounds (ks_play_round UserContext make_decision random_index context)
                num_rounds g [] = (Ok rs, (g', []))
    ∧ round_number (base g') = (round_number (base g) + num_rounds)%nat
    ∧ results_history (base g') = results_history (base g)
    ∧ Forall (λ r, ks_payoffs r = []) rs.
Proof.
  revert g. induction num_rounds as [|n IH]; intros g; cbn [play_rounds].
  - exists [], g. rewrite Nat.add_0_r. by repeat split.
  - change (ks_play_round UserContext make_decision random_index context g [])
      with (Ok (mkKSRound (S (round_number (base g))) [] [] [] []),
            (next_round g, @nil BaseGameAgent)).
    destruct (IH (next_round g)) as (rs & g' & Hrest & Hrn & Hres & Hall).
    rewrite Hrest. eexists _, g'. split; [reflexivity|].
    split; [rewrite Hrn; cbn; lia|]. split; [by rewrite Hres|].
    by constructor.
Qed.

Lemma accumulate_payoffs_nothing (rounds_payoffs : list (Dict Q)) (total : Dict Q) :
  Forall (λ ps, ps = []) rounds_payoffs →
  accumulate_payoffs rounds_payoffs total = Ok total.
Proof.
  intros Hall. unfold accumulate_payoffs.
  induction Hall as [|ps l -> _ IH]; [done|]. by rewrite foldM_cons.
Qed.

(** X20.  Participant lists the games cannot play.  The Prisoner's Dilemma
    refuses any list that does not hold exactly two agents with a
    ValueError, in a single round as in a full game, before it changes
    anything.  The Public Goods Game has no such check: with no
    participants the first round divides the pool by zero, after the round
    counter has been advanced.  The Knowledge Sharing Game plays all its
    rounds with no participants and fails only when it looks for the
    winner among no totals. *)
Theorem games_without_enough_participants (context : option UserContext) :
  (∀ (g : PrisonersDilemma) agents (num_rounds : nat),
     length agents ≠ 2%nat →
     pd_play_round UserContext make_decision tracking context g agents
       = (Raise (ValueError "Prisoner's Dilemma requires exactly 2 agents"),
          (g, agents))
     ∧ pd_play_full_game UserContext make_decision tracking context g agents num_rounds
       = (Raise (ValueError "Prisoner's Dilemma requires exactly 2 agents"),
          (g, agents)))
  ∧ (∀ (g : PublicGoodsGame) (num_rounds : nat),
       pg_play_round UserContext make_decision context g []
         = (Raise ZeroDivisionError, (next_round g, []))
       ∧ pg_play_full_game UserContext make_decision context g [] (S num_rounds)
         = (Raise ZeroDivisionError, (next_round (reset g), [])))
  ∧ (∀ (g : KnowledgeSharingGame) (num_rounds : nat),
       ∃ g' msg,
         ks_play_full_game UserContext make_decision random_index context g []
                           num_rounds
           = (Raise (ValueError msg), (g', []))
         ∧ round_number (base g') = num_rounds
         ∧ results_history (base g') = []).
Proof.
  split; [|split].
  - intros g agents num_rounds Hlen.
    destruct agents as [|a [|b [|c l]]]; done.
  - intros g num_rounds. split; [done|].
    unfold pg_play_full_game. cbn [play_rounds].
    by change (pg_play_round UserContext make_decision context (reset g) [])
      with (@Raise PGRound ZeroDivisionError,
            (next_round (reset g), @nil BaseGameAgent)).
  - intros g num_rounds. unfold ks_play_full_game.
    destruct (ks_play_rounds_nobody context num_rounds (reset g))
      as (rs & g' & Hrun & Hrn & Hres & Hall).
    rewrite Hrun. unfold ks_final_result.
    rewrite accumulate_payoffs_nothing by by apply Forall_fmap.
    cbn. exists g'. eexists. by repeat split.
Qed.

Lemma dict_set_constant (d : Dict Q) (k : string) (c : Q) :
  Forall (λ kv, kv.2 = c) d → Forall (λ kv, kv.2 = c) (dict_set d k c).
Proof.
  induction 1 as [|[k' v] d Hv Hd IH]; cbn [dict_set].
  - by repeat constructor.
  - case_decide; by constructor.
Qed.

Lemma dict_of_constant_head {A} (key : A → string) (c : Q) (x : A) (l : list A) :
  ∃ rest, dict_of key (λ _, c) (x :: l) = (key x, c) :: rest
          ∧ Forall (λ kv, kv.2 = c) rest.
Proof.
  unfold dict_of. cbn [fold_left dict_set].
  assert (Hgen : ∀ rest0, Forall (λ kv : string * Q, kv.2 = c) rest0 →
            ∃ rest, fold_left (λ d y, dict_set d (key y) c) l ((key x, c) :: rest0)
                    = (key x, c) :: rest
                    ∧ Forall (λ kv, kv.2 = c) rest).
  { induction l as [|y l IH]; intros rest0 Hrest0; cbn [fold_left].
    - by exists rest0.
    - cbn [dict_set]. destruct (decide (key x = key y)) as [Heq|Hne].
      + rewrite <- Heq. by apply IH.
      + apply IH. by apply dict_set_constant. }
  by apply Hgen.
Qed.

Lemma max_key_constant (k : string) (c : Q) (rest : Dict Q) :
  Forall (λ kv, kv.2 = c) rest → max_key ((k, c) :: rest) = Ok k.
Proof.
  intros Hall. unfold max_key. f_equal.
  induction Hall as [|kv rest Hkv _ IH]; [done|]. cbn [fold_left].
  assert (Hno : Qgtb kv.2 c = false).
  { apply Qgtb_le. rewrite Hkv. lra. }
  cbn [snd]. by rewrite Hno.
Qed.

(** X21.  Full games of zero rounds, for a non-empty participant list.
    The Public Goods Game raises KeyError on the first participant's name
    (its contribution rate was never started), leaving the game reset and
    the agents untouched.  The Knowledge Sharing Game returns a result in
    which every total is 0 and the first participant is declared the
    winner. *)
Theorem zero_round_games (context : option UserContext)
    (a : BaseGameAgent) agents :
  (∀ g : PublicGoodsGame,
     pg_play_full_game UserContext make_decision context g (a :: agents) 0
       = (Raise (KeyError (name a)), (reset g, a :: agents)))
  ∧ (∀ g : KnowledgeSharingGame,
       ∃ res,
         ks_play_full_game UserContext make_decision random_index context g
                           (a :: agents) 0
           = (Ok res, (record_result (reset g) res, a :: agents))
         ∧ winner res = Some (name a)
         ∧ rounds res = 0%nat
         ∧ actions_history res = []
         ∧ Forall (λ kv, kv.2 = 0) (payoffs res)
         ∧ dict_lookup (payoffs res) (name a) = Some 0).
Proof.
  split.
  - intros g. unfold pg_play_full_game. cbn [play_rounds].
    unfold pg_final_result. cbn [fmap list_fmap].
    change (accumulate_payoffs [] ?t) with (Ok t).
    cbn [mbind Result_bind foldM]. unfold pg_rate_of_agent at 1.
    cbn [foldM mbind Result_bind dict_get dict_lookup]. done.
  - intros g. unfold ks_play_full_game. cbn [play_rounds].
    unfold ks_final_result. cbn [fmap list_fmap].
    change (accumulate_payoffs [] ?t) with (Ok t).
    cbn [mbind Result_bind].
    destruct (dict_of_constant_head name 0 a agents) as (rest & Hd & Hrest).
    rewrite Hd. rewrite max_key_constant by done. cbn [mbind Result_bind].
    rewrite qdiv_Ok.
    + eexists. split; [reflexivity|]. cbn.
      split; [done|]. split; [done|]. split; [done|]. split.
      * by constructor.
      * by rewrite decide_True.
    + apply Qlen_nonzero.
      by apply (dict_of_nonempty name (ks_rate_of_agent []) (a :: agents)).
Qed.

Lemma ks_seed_knowledge rn agents i a :
  agents !! i = Some a →
  ∃ a1, ks_seed random_index rn agents !! i = Some a1
        ∧ knowledge_base (state a) `prefix_of` knowledge_base (state a1)
        ∧ knowledge_base (state a1) ≠ []
        ∧ (NoDup (knowledge_base (state a)) → NoDup (knowledge_base (state a1))).
Proof.
  intros Hi. unfold ks_seed. rewrite list_lookup_imap, Hi. cbn.
  eexists. split; [reflexivity|]. case_decide as Hlen.
  - destruct (share_knowledge_frame a [new_knowledge random_index rn i])
      as (_ & _ & ->).
    split; [apply add_knowledge_prefix|]. split; [|apply add_knowledge_NoDup].
    destruct (knowledge_base (state a)) as [|x kb] eqn:Hkb; [done|].
    intros Hnil.
    pose proof (add_knowledge_prefix (x :: kb) [new_knowledge random_index rn i])
      as [k Hk].
    rewrite Hnil in Hk. done.
  - split; [done|]. split; [|done].
    destruct (knowledge_base (state a)); [cbn in Hlen; lia|done].
Qed.

Lemma ks_round_keeps_knowledge (context : option UserContext)
    (g : KnowledgeSharingGame) agents :
  NoDup (name <$> agents) →
  ∃ r agents',
    ks_play_round UserContext make_decision random_index context g agents
    = (Ok r, (next_round g, agents'))
    ∧ Forall2 (λ a a', keeps_knowledge a a' ∧ knowledge_base (state a') ≠ [])
              agents agents'
    ∧ (∀ k, k ∈ dict_keys (ks_payoffs r) → k ∈ name <$> agents).
Proof.
  intros Hnd.
  destruct (ks_play_round_spec make_decision random_index context g agents Hnd)
    as (r & agents' & Hround & Hnames & Hkeys & Hspec).
  exists r, agents'. split; [done|]. split.
  - apply Forall2_same_length_lookup. split.
    { by rewrite <- (length_fmap name agents'), Hnames, length_fmap. }
    intros i a a' Hi Hi'.
    destruct (Hspec i a Hi) as (a1 & b & Hseed & Hb & Hname & _ & _ & _ & Hkb).
    rewrite Hi' in Hb. injection Hb as <-.
    destruct (ks_seed_knowledge (S (round_number (base g))) agents i a Hi)
      as (a1' & Hseed' & Hpre & Hne & Hnodup).
    rewrite Hseed in Hseed'. injection Hseed' as <-.
    pose proof (add_knowledge_prefix (knowledge_base (state a1))
                  (ks_transferred (offer_in (ks_knowledge_shared r)) agents a)) as Hpre2.
    rewrite <- Hkb in Hpre2.
    split; [split; [done|split]|].
    + by etrans.
    + intros Hn. rewrite Hkb. apply add_knowledge_NoDup. by apply Hnodup.
    + intros Hnil. rewrite Hnil in Hpre2. destruct Hpre2 as [k Hk].
      by destruct (knowledge_base (state a1)).
  - intros k Hk. destruct (decide (k ∈ name <$> agents)) as [|Hnot]; [done|].
    apply Hkeys in Hnot. apply dict_lookup_None in Hnot. done.
Qed.

Lemma keeps_knowledge_names agents agents' :
  Forall2 keeps_knowledge agents agents' → name <$> agents' = name <$> agents.
Proof.
  induction 1 as [|a a' l l' (Hn & _) _ IH]; [done|].
  rewrite !fmap_cons. by f_equal.
Qed.

Lemma keeps_knowledge_trans agents1 agents2 agents3 :
  Forall2 keeps_knowledge agents1 agents2 →
  Forall2 keeps_knowledge agents2 agents3 →
  Forall2 keeps_knowledge agents1 agents3.
Proof.
  intros H12. revert agents3.
  induction H12 as [|a b l1 l2 (Hn1 & Hp1 & Hd1) _ IH]; intros agents3 H23.
  - by inversion H23.
  - inversion H23 as [|? c ? l3 (Hn2 & Hp2 & Hd2) Hrest]; subst.
    constructor; [|by apply IH].
    split; [congruence|]. split; [by etrans|]. intros H. by apply Hd2, Hd1.
Qed.

Lemma ks_rounds_keep_knowledge (context : option UserContext) (num_rounds : nat)
    (g : KnowledgeSharingGame) agents :
  NoDup (name <$> agents) →
  ∃ rs g' agents',
    play_rounds (ks_play_round UserContext make_decision random_index context)
                num_rounds g agents = (Ok rs, (g', agents'))
    ∧ Forall2 keeps_knowledge agents agents'
    ∧ (num_rounds ≠ O → Forall (λ a', knowledge_base (state a') ≠ []) agents')
    ∧ round_number (base g') = (round_number (base g) + num_rounds)%nat
    ∧ results_history (base g') = results_history (base g)
    ∧ Forall (λ r, ∀ k, k ∈ dict_keys (ks_payoffs r) → k ∈ name <$> agents) rs.
Proof.
  revert g agents. induction num_rounds as [|n IH]; intros g agents Hnd;
    cbn [play_rounds].
  - exists [], g, agents. split; [done|]. split.
    { apply Forall2_same_length_lookup. split; [done|].
      intros i a a' Hi Hi'. rewrite Hi in Hi'. injection Hi' as <-.
      by repeat split. }
    split; [done|]. rewrite Nat.add_0_r. by repeat split.
  - destruct (ks_round_keeps_knowledge context g agents Hnd)
      as (r & agents1 & Hround & Hkeep & Hkeys).
    rewrite Hround.
    assert (Hkeep1 : Forall2 keeps_knowledge agents agents1).
    { eapply Forall2_impl; [exact Hkeep|]. by intros a a' [H _]. }
    pose proof (keeps_knowledge_names _ _ Hkeep1) as Hnames.
    destruct (IH (next_round g) agents1) as (rs & g' & agents' & Hrest & Hkeep'
                                              & Hne' & Hrn & Hres & Hall).
    { by rewrite Hnames. }
    rewrite Hrest. exists (r :: rs), g', agents'. split; [done|]. split.
    { by eapply keeps_knowledge_trans. }
    split.
    { intros _. destruct n as [|n'].
      - cbn [play_rounds] in Hrest. injection Hrest as <- <- <-.
        clear -Hkeep. induction Hkeep as [|a a' l l' [_ Hne] _ IH2]; by constructor.
      - apply Hne'. done. }
    split; [rewrite Hrn; cbn; lia|]. split; [by rewrite Hres|].
    constructor; [done|]. by rewrite <- Hnames.
Qed.

(** X23.  Knowledge is never lost in the Knowledge Sharing Game.  A full
    game among participants with pairwise different names returns a
    result, and every agent ends the game with all the knowledge it had at
    the start, in the same order and ahead of everything it learnt, with
    no item twice if it had none twice; after at least one round no
    knowledge base is empty.  The game object has then played
    [num_rounds] rounds and holds this result alone. *)
Theorem knowledge_sharing_keeps_knowledge (context : option UserContext)
    (g : KnowledgeSharingGame) agents (num_rounds : nat) :
  NoDup (name <$> agents) →
  agents ≠ [] →
  ∃ res g' agents',
    ks_play_full_game UserContext make_decision random_index context g agents
                      num_rounds = (Ok res, (g', agents'))
    ∧ Forall2 keeps_knowledge agents agents'
    ∧ (num_rounds ≠ O → Forall (λ a', knowledge_base (state a') ≠ []) agents')
    ∧ participants res = name <$> agents
    ∧ rounds res = num_rounds
    ∧ round_number (base g') = num_rounds
    ∧ results_history (base g') = [res].
Proof.
  intros Hnd Hne. unfold ks_play_full_game.
  destruct (ks_rounds_keep_knowledge context num_rounds (reset g) agents Hnd)
    as (rs & g' & agents' & Hrun & Hkeep & Hnonempty & Hrn & Hres & Hall).
  rewrite Hrun.
  pose proof (keeps_knowledge_names _ _ Hkeep) as Hnames.
  destruct (ks_final_result_ok agents' num_rounds rs) as [res Hfinal].
  { intros ->. destruct agents; [done|]. inversion Hkeep. }
  { by rewrite Hnames. }
  rewrite Hfinal. exists res, (record_result g' res), agents'.
  split; [done|]. split; [done|]. split; [done|].
  unfold ks_final_result in Hfinal.
  repeat (apply bind_Ok in Hfinal as (? & _ & Hfinal)).
  injection Hfinal as <-. cbn in Hrn, Hres. cbn.
  rewrite Hrn, Hres. by rewrite Hnames.
Qed.

(** Two agents that both deal with cooperators only, as far as the game
    and their own records show. *)
End further_games.

Lemma pd_round_error_fallback_witness :
  (pd_play_round () (failing_decision "Bob") no_tracking None (new_PrisonersDilemma None)
     [new_agent "Alice" "always_cooperate"; new_agent "Bob" "random"]).2.1
  = mkPD (mkBaseGame 1 []) prisoner_dilemma [(DEFECT, DEFECT)].
Proof.
  destruct (pd_round_error_fallback (failing_decision "Bob") no_tracking None
              (new_PrisonersDilemma None)
              (new_agent "Alice" "always_cooperate") (new_agent "Bob" "random"))
    as (r & Hr & _).
  - right. left. eexists. reflexivity.
  - rewrite Hr. reflexivity.
Defined.

(** Conversation tracking, evaluated for two agents that always cooperate
    and a context that is its session id, tracking switched on: on the open
    session the round records mutual cooperation, on a session the tracker
    does not know it records the fallback. *)
Example pd_round_tracking_examples :
  let tracker := mkTracking string Some (λ _, true) ["open"] in
  let cooperate : BaseGameAgent → GameContext string → option (list AgentAction)
                  → Result GameDecision :=
    λ _ _ _, Ok (mkDecision COOPERATE "Test" 0.8 None) in
  let history := λ context,
    game_history
      (pd_play_round string cooperate tracker context (new_PrisonersDilemma None)
         [new_agent "Alice" "always_cooperate"; new_agent "Bob" "always_cooperate"]).2.1 in
  history (Some "open") = [(COOPERATE, COOPERATE)]
  ∧ history (Some "closed") = [(DEFECT, DEFECT)]
  ∧ history (Some "") = [(COOPERATE, COOPERATE)]
  ∧ history None = [(COOPERATE, COOPERATE)].
Proof. repeat split. Qed.

Lemma pd_full_game_totals_witness :
  ∃ res st,
    pd_play_full_game () (fixed_decision COOPERATE) no_tracking None (new_PrisonersDilemma None)
      [new_agent "Alice" "always_cooperate"; new_agent "Bob" "always_cooperate"] 3
    = (Ok res, st)
    ∧ rounds res = 3%nat.
Proof.
  destruct (pd_full_game_totals (fixed_decision COOPERATE) no_tracking None
              (new_PrisonersDilemma None)
              (new_agent "Alice" "always_cooperate")
              (new_agent "Bob" "always_cooperate") 3)
    as (res & g' & a1' & a2' & played & Hrun & _ & _ & _ & _ & _ & Hrounds & _).
  - discriminate.
  - exists res, (g', [a1'; a2']). split; [exact Hrun|exact Hrounds].
Defined.


Lemma knowledge_sharing_keeps_knowledge_witness :
  ∃ res st,
    ks_play_full_game () (fixed_decision SHARE_KNOWLEDGE) (λ _ _, O) None
      (new_KnowledgeSharingGame 2 0.5) [wary_alice; fresh_bob] 2
    = (Ok res, st)
    ∧ rounds res = 2%nat.
Proof.
  destruct (knowledge_sharing_keeps_knowledge (fixed_decision SHARE_KNOWLEDGE)
              (λ _ _, O) None (new_KnowledgeSharingGame 2 0.5)
              [wary_alice; fresh_bob] 2)
    as (res & g' & agents' & Hrun & _ & _ & _ & Hrounds & _).
  - compute_done.
  - discriminate.
  - exists res, (g', agents'). split; [exact Hrun|exact Hrounds].
Defined.

(** ** coordinator.py *)

Lemma dict_keys_NoDup_set {V} (d : Dict V) k v :
  NoDup (dict_keys d) → NoDup (dict_keys (dict_set d k v)).
Proof.
  intros Hnd. rewrite dict_keys_set. case_decide as Hin; [done|].
  apply NoDup_app. split; [done|]. split.
  - intros x Hx ->%list_elem_of_singleton. done.
  - apply NoDup_singleton.
Qed.

(** X24.  Registering an agent and looking it up: after
    [register_agent], the agent is found under its name, every other name
    is found as before, and the games are untouched.  A name that was
    already registered keeps its place in the registry and the earlier
    agent is replaced; a new name goes last.  Registering again under the
    same name leaves only the last agent. *)
Theorem register_agent_lookup (c : GameCoordinator) (a b : BaseGameAgent) :
  NoDup (dict_keys (agents c)) →
  let c' := register_agent c a in
  dict_lookup (agents c') (name a) = Some a
  ∧ registered_agents c' [name a] = [a]
  ∧ (∀ k, k ≠ name a → dict_lookup (agents c') k = dict_lookup (agents c) k)
  ∧ NoDup (dict_keys (agents c'))
  ∧ dict_keys (agents c') =
      (if decide (name a ∈ dict_keys (agents c))
       then dict_keys (agents c) else dict_keys (agents c) ++ [name a])
  ∧ games c' = games c
  ∧ (name b = name a → register_agent c' b = register_agent c b).
Proof.
  intros Hnd c'. subst c'. unfold register_agent. cbn [agents games].
  split; [apply dict_lookup_set_eq|]. split.
  { unfold registered_agents. cbn. by rewrite dict_lookup_set_eq. }
  split; [intros k Hk; by apply dict_lookup_set_ne|].
  split; [by apply dict_keys_NoDup_set|].
  split; [apply dict_keys_set|]. split; [done|].
  intros ->. by rewrite dict_set_set.
Qed.

Lemma register_agent_lookup_witness :
  dict_lookup
    (agents (register_agent two_agent_coordinator (new_agent "Bob" "random")))
    "Bob"
  = Some (new_agent "Bob" "random").
Proof.
  destruct (register_agent_lookup two_agent_coordinator
              (new_agent "Bob" "random") (new_agent "Bob" "random"))
    as (Hlook & _).
  - compute_done.
  - exact Hlook.
Defined.

Lemma dict_lookup_fmap_values {V W} (f : V → W) (d : Dict V) k :
  dict_lookup ((λ kv : string * V, (kv.1, f kv.2)) <$> d) k = f <$> dict_lookup d k.
Proof.
  induction d as [|[k' v] d IH]; [done|]. cbn. by case_decide.
Qed.

Lemma get_agent_statistics_nodup (c : GameCoordinator) :
  NoDup (dict_keys (agents c)) →
  get_agent_statistics c
  = (λ ka : string * BaseGameAgent, (ka.1, agent_statistics ka.2)) <$> agents c.
Proof.
  intros Hnd. unfold get_agent_statistics.
  rewrite (dict_build_nodup fst (λ ka, agent_statistics ka.2)); [done|done|].
  intros; apply not_elem_of_nil.
Qed.

(** X25.  [reset_all_agents] gives every registered agent the state of a
    new agent and touches nothing else: the registry keeps its names in
    their order, each agent keeps its name, strategy and thresholds, the
    games are untouched, and resetting twice is resetting once.  The
    statistics reported afterwards are those of new agents: no game
    played, average payoff 0, cooperation rate and reputation 0.5, no
    trust score and no knowledge. *)
Theorem reset_all_agents_spec (c : GameCoordinator) :
  NoDup (dict_keys (agents c)) →
  let c' := reset_all_agents c in
  games c' = games c
  ∧ dict_keys (agents c') = dict_keys (agents c)
  ∧ (∀ k, dict_lookup (agents c') k =
          (λ a, mkAgent (name a) (strategy a) (cooperation_threshold a)
                        (trust_threshold a) initial_state)
            <$> dict_lookup (agents c) k)
  ∧ reset_all_agents c' = c'
  ∧ (∀ k, dict_lookup (get_agent_statistics c') k =
          (λ a, mkStatistics (strategy a) 0 0 0.5 0.5 ∅ 0)
            <$> dict_lookup (agents c) k).
Proof.
  intros Hnd c'. subst c'. unfold reset_all_agents. cbn [agents games].
  assert (Hkeys : dict_keys ((λ ka : string * BaseGameAgent,
                     (ka.1, set_state ka.2 initial_state)) <$> agents c)
                  = dict_keys (agents c)).
  { unfold dict_keys. rewrite <- list_fmap_compose. done. }
  split; [done|]. split; [done|]. split.
  { intros k.
    by rewrite (dict_lookup_fmap_values (λ a, set_state a initial_state)). }
  split.
  { f_equal. rewrite <- list_fmap_compose. apply list_fmap_ext.
    by intros i [k a] _. }
  intros k. rewrite get_agent_statistics_nodup by (cbn [agents]; by rewrite Hkeys).
  cbn [agents]. rewrite (dict_lookup_fmap_values agent_statistics).
  rewrite (dict_lookup_fmap_values (λ a, set_state a initial_state)).
  by destruct (dict_lookup (agents c) k).
Qed.

Lemma reset_all_agents_spec_witness :
  dict_lookup (get_agent_statistics (reset_all_agents two_agent_coordinator)) "Alice"
  = Some (mkStatistics "always_cooperate" 0 0 0.5 0.5 ∅ 0).
Proof.
  destruct (reset_all_agents_spec two_agent_coordinator) as (_ & _ & _ & _ & Hstat).
  - compute_done.
  - rewrite Hstat. reflexivity.
Defined.

Lemma length_bind_sum {A B} (f : A → list B) (h : A → nat) (l : list A) :
  (∀ x, x ∈ l → length (f x) = h x) → length (l ≫= f) = sum_list (h <$> l).
Proof.
  induction l as [|x l IH]; intros Hf; [done|].
  rewrite bind_cons, length_app, fmap_cons. cbn [sum_list].
  rewrite Hf by left. f_equal. apply IH. intros y Hy. apply Hf. by right.
Qed.

Lemma sum_list_fmap_const {A} (l : list A) (k : nat) :
  sum_list ((λ _, k) <$> l) = (length l * k)%nat.
Proof. induction l as [|x l IH]; [done|]. cbn. by rewrite IH. Qed.

Lemma sum_list_fmap_mul {A} (h : A → nat) (l : list A) (k : nat) :
  sum_list ((λ x, h x * k)%nat <$> l) = (sum_list (h <$> l) * k)%nat.
Proof. induction l as [|x l IH]; [done|]. cbn. rewrite IH. lia. Qed.

Lemma triangle_sum (n : nat) :
  (sum_list ((λ i, n - S i) <$> seq 0 n) * 2 + n = n * n)%nat.
Proof.
  induction n as [|n IH]; [done|].
  cbn [seq fmap list_fmap sum_list]. rewrite <- fmap_S_seq, <- list_fmap_compose.
  change ((λ i, S n - S i)%nat ∘ S) with (λ i, n - S i)%nat.
  set (T := sum_list _) in *. clearbody T.
  replace (S n - 1)%nat with n by lia. unfold id. lia.
Qed.

Lemma triangle_half (n : nat) :
  ((n * (n - 1)) `div` 2 = sum_list ((λ i, n - S i) <$> seq 0 n))%nat.
Proof.
  pose proof (triangle_sum n) as H. set (T := sum_list _) in *. clearbody T.
  assert (Hn : (n * (n - 1) = T * 2)%nat).
  { destruct n as [|m]; [lia|]. replace (S m - 1)%nat with m by lia. lia. }
  rewrite Hn. by rewrite Nat.div_mul.
Qed.

Lemma tournament_matches_length (agent_names : list string) (num_repetitions : nat) :
  length (tournament_matches agent_names num_repetitions)
  = ((length agent_names * (length agent_names - 1)) `div` 2 * num_repetitions)%nat.
Proof.
  unfold tournament_matches. set (n := length agent_names).
  rewrite (length_bind_sum _ (λ i, (n - S i) * num_repetitions)%nat).
  - rewrite sum_list_fmap_mul. f_equal.
    symmetry. apply triangle_half.
  - intros i Hi%elem_of_seq.
    rewrite (length_bind_sum _ (λ _, num_repetitions)).
    { by rewrite sum_list_fmap_const, length_seq. }
    intros j Hj%elem_of_seq.
    destruct (lookup_lt_is_Some_2 agent_names i) as [a1 H1]; [fold n; lia|].
    destruct (lookup_lt_is_Some_2 agent_names j) as [a2 H2]; [fold n; lia|].
    rewrite H1, H2.
    rewrite (length_bind_sum _ (λ _, 1%nat)) by done.
    rewrite sum_list_fmap_const, length_seq. lia.
Qed.

Lemma tournament_matches_registered (agent_names : list string)
    (num_repetitions : nat) (agent1 agent2 : string) (rep : nat) :
  (agent1, agent2, rep) ∈ tournament_matches agent_names num_repetitions →
  agent1 ∈ agent_names ∧ agent2 ∈ agent_names.
Proof.
  unfold tournament_matches.
  intros (i & Hin & _)%list_elem_of_bind.
  apply list_elem_of_bind in Hin as (j & Hin & _).
  apply list_elem_of_bind in Hin as (rep' & Hin & _).
  destruct (agent_names !! i) as [a1|] eqn:H1; [|by apply elem_of_nil in Hin].
  destruct (agent_names !! j) as [a2|] eqn:H2; [|by apply elem_of_nil in Hin].
  apply list_elem_of_singleton in Hin. injection Hin as -> -> ->.
  split; by eapply list_elem_of_lookup_2.
Qed.

Lemma games_lookup_store (gs : list (GameType * AnyGame)) (t : GameType)
    (g g' : AnyGame) :
  games_lookup gs t = Some g → games_lookup (games_store gs t g') t = Some g'.
Proof.
  induction gs as [|[t0 g0] gs IH]; [done|]. cbn.
  destruct (decide (t0 = t)) as [->|Hne]; cbn.
  - by rewrite decide_True.
  - intros H. by rewrite decide_False, IH.
Qed.

Lemma store_agents_keys (registry : Dict BaseGameAgent) (keys : list string)
    (players : list BaseGameAgent) :
  (∀ k, k ∈ keys → k ∈ dict_keys registry) →
  dict_keys (store_agents registry keys players) = dict_keys registry.
Proof.
  unfold store_agents. revert registry players.
  induction keys as [|k keys IH]; intros registry players Hin; [done|].
  destruct players as [|p players]; [done|].
  change (dict_keys (fold_left (λ reg ka, dict_set reg ka.1 ka.2)
                       (zip keys players) (dict_set registry k p))
          = dict_keys registry).
  rewrite (IH (dict_set registry k p) players).
  - apply dict_keys_set_in, Hin. by left.
  - intros k' Hk'. rewrite dict_keys_set_in by (apply Hin; by left).
    apply Hin. by right.
Qed.

Section tournament.
Context {UserContext : Type}.
Context (make_decision :
  BaseGameAgent → GameContext UserContext → option (list AgentAction) → Result GameDecision).
Context (tracking : Tracking UserContext).
Context (random_index : nat → nat → nat).

Lemma pd_play_full_game_rounds (context : option UserContext)
    (g : PrisonersDilemma) (a1 a2 : BaseGameAgent) (num_rounds : nat) :
  ∃ res g' a1' a2',
    pd_play_full_game UserContext make_decision tracking context g [a1; a2] num_rounds
    = (Ok res, (g', [a1'; a2']))
    ∧ rounds res = num_rounds.
Proof.
  unfold pd_play_full_game.
  destruct (pd_play_rounds_two make_decision tracking context num_rounds (reset g) a1 a2)
    as (rs & g' & b1 & b2 & Hrun & Hall).
  rewrite Hrun.
  destruct (pd_final_result_spec make_decision random_index g' a1 a2 num_rounds rs Hall)
    as (res & t1 & t2 & Hfinal & _).
  rewrite Hfinal. exists res, (record_result g' res), b1, b2. split; [done|].
  unfold pd_final_result in Hfinal.
  repeat (apply bind_Ok in Hfinal as (? & _ & Hfinal)).
  by injection Hfinal as <-.
Qed.

(** What [run_tournament] relies on between two matches: the registry
    keeps its names and the Prisoner's Dilemma stays available. *)
Lemma run_single_game_pd (context : option UserContext) (c : GameCoordinator)
    (agent1 agent2 : string) (num_rounds : nat) :
  (∃ g, games_lookup (games c) PRISONERS_DILEMMA = Some (PDGame g)) →
  agent1 ∈ dict_keys (agents c) → agent2 ∈ dict_keys (agents c) →
  ∃ res c',
    run_single_game UserContext make_decision tracking random_index c PRISONERS_DILEMMA
      [agent1; agent2] num_rounds context = (Ok res, c')
    ∧ rounds res = num_rounds
    ∧ dict_keys (agents c') = dict_keys (agents c)
    ∧ (∃ g', games_lookup (games c') PRISONERS_DILEMMA = Some (PDGame g')).
Proof.
  intros [g Hg] H1 H2. unfold run_single_game, get_game. rewrite Hg.
  apply dict_lookup_is_Some in H1 as [x1 Hx1].
  apply dict_lookup_is_Some in H2 as [x2 Hx2].
  unfold registered_agents. cbn [omap list_omap]. rewrite Hx1, Hx2.
  cbn [length]. rewrite decide_False by lia.
  cbn [any_reset any_play_full_game].
  destruct (pd_play_full_game_rounds context (reset g) x1 x2 num_rounds)
    as (res & g' & y1 & y2 & Hrun & Hrounds).
  rewrite Hrun. exists res. eexists. split; [reflexivity|].
  split; [done|]. cbn [agents games]. split.
  - apply store_agents_keys. intros k Hk.
    unfold registered_names in Hk. apply list_elem_of_filter in Hk as [Hk _].
    by apply dict_lookup_is_Some.
  - exists g'. by eapply games_lookup_store.
Qed.

Lemma tournament_fold_counts (t : GameType) (num_rounds : nat)
    (context : option UserContext) (total : nat)
    (ms : list (string * string * nat)) (c : GameCoordinator) (k : nat)
    (rs : list TournamentResult) :
  ∃ c' rs',
    fold_left (tournament_step UserContext make_decision tracking random_index t
                 num_rounds context total) ms (c, k, rs)
    = (c', (k + length ms)%nat, rs ++ rs')
    ∧ (length rs' ≤ length ms)%nat.
Proof.
  revert c k rs. induction ms as [|[[a1 a2] rep] ms IH]; intros c k rs.
  - exists c, []. rewrite app_nil_r, Nat.add_0_r. by split.
  - cbn [fold_left]. unfold tournament_step at 2.
    destruct (run_single_game _ _ _ _ _ _ _ _) as [[res|e] c1].
    + destruct (IH c1 (S k) (rs ++ [mkTournamentResult res (a1 +:+ "_vs_" +:+ a2)
                                      (S rep) (S k) total])) as (c' & rs' & Hf & Hlen).
      rewrite Hf. eexists c', (_ :: rs').
      rewrite <- app_assoc. cbn. split; [do 2 f_equal; lia|lia].
    + destruct (IH c1 (S k) rs) as (c' & rs' & Hf & Hlen).
      rewrite Hf. exists c', rs'. cbn. split; [do 2 f_equal; lia|lia].
Qed.

Lemma tournament_fold_pd (num_rounds : nat) (context : option UserContext)
    (total : nat) (keys : list string)
    (ms : list (string * string * nat)) (c : GameCoordinator) (k : nat)
    (rs : list TournamentResult) :
  (∃ g, games_lookup (games c) PRISONERS_DILEMMA = Some (PDGame g)) →
  dict_keys (agents c) = keys →
  (∀ a1 a2 rep, (a1, a2, rep) ∈ ms → a1 ∈ keys ∧ a2 ∈ keys) →
  ∃ c' rs',
    fold_left (tournament_step UserContext make_decision tracking random_index
                 PRISONERS_DILEMMA num_rounds context total) ms (c, k, rs)
    = (c', (k + length ms)%nat, rs ++ rs')
    ∧ dict_keys (agents c') = keys
    ∧ (λ r, (tournament_match r, repetition r, match_number r, total_matches r,
             rounds (match_result r))) <$> rs'
      = imap (λ i m, (m.1.1 +:+ "_vs_" +:+ m.1.2, S m.2, (k + S i)%nat, total,
                      num_rounds)) ms.
Proof.
  revert c k rs. induction ms as [|[[a1 a2] rep] ms IH]; intros c k rs Hg Hkeys Hms.
  - exists c, []. rewrite app_nil_r, Nat.add_0_r. by repeat split.
  - cbn [fold_left]. unfold tournament_step at 2.
    destruct (Hms a1 a2 rep) as [H1 H2]; [left|].
    rewrite <- Hkeys in H1, H2.
    destruct (run_single_game_pd context c a1 a2 num_rounds Hg H1 H2)
      as (res & c1 & Hrun & Hrounds & Hkeys1 & Hg1).
    rewrite Hrun.
    destruct (IH c1 (S k) (rs ++ [mkTournamentResult res (a1 +:+ "_vs_" +:+ a2)
                                    (S rep) (S k) total]))
      as (c' & rs' & Hf & Hkeys' & Hmeta); [done|congruence|..].
    { intros b1 b2 r Hin. apply (Hms b1 b2 r). by right. }
    rewrite Hf. eexists c', (_ :: rs').
    rewrite <- app_assoc. split; [cbn; do 2 f_equal; lia|]. split; [done|].
    cbn [fmap list_fmap imap]. rewrite Hmeta. cbn.
    rewrite Hrounds. f_equal; [do 4 f_equal; lia|].
    apply imap_ext. intros i [[b1 b2] r] _. cbn. do 3 f_equal. lia.
Qed.

(** X26.  [run_tournament].  With fewer than two registered agents it
    raises a ValueError and changes nothing.  Otherwise it never raises,
    whatever happens in the matches, and returns at most
    [n (n - 1) / 2 * num_repetitions] results.  For the Prisoner's Dilemma
    every match is played: there are exactly that many results, in the
    order of the round robin (every registered name against every later
    one, each pairing repeated [num_repetitions] times), numbered
    1, 2, ... in that order and labelled with the pairing and its
    repetition; the registry keeps its names. *)
Theorem run_tournament_round_robin (c : GameCoordinator) (t : GameType)
    (num_rounds num_repetitions : nat) (context : option UserContext) :
  let n := length (agents c) in
  let total := ((n * (n - 1)) `div` 2 * num_repetitions)%nat in
  ((n < 2)%nat →
     run_tournament UserContext make_decision tracking random_index c t num_rounds
                    num_repetitions context
     = (Raise (ValueError "Need at least 2 agents for a tournament"), c))
  ∧ ((2 ≤ n)%nat →
     ∃ results c',
       run_tournament UserContext make_decision tracking random_index c t num_rounds
                      num_repetitions context = (Ok results, c')
       ∧ (length results ≤ total)%nat)
  ∧ ((2 ≤ n)%nat →
     (∃ g, games_lookup (games c) PRISONERS_DILEMMA = Some (PDGame g)) →
     ∃ results c',
       run_tournament UserContext make_decision tracking random_index c PRISONERS_DILEMMA
                      num_rounds num_repetitions context = (Ok results, c')
       ∧ length results = total
       ∧ dict_keys (agents c') = dict_keys (agents c)
       ∧ (λ r, (tournament_match r, repetition r, match_number r, total_matches r,
                rounds (match_result r))) <$> results
         = imap (λ i m, (m.1.1 +:+ "_vs_" +:+ m.1.2, S m.2, S i, total, num_rounds))
                (tournament_matches (dict_keys (agents c)) num_repetitions)).
Proof.
  intros n total. subst n total.
  assert (Hlen : length (dict_keys (agents c)) = length (agents c)).
  { unfold dict_keys. by rewrite length_fmap. }
  unfold run_tournament. rewrite !Hlen. split; [|split].
  - intros Hn. by rewrite decide_True.
  - intros Hn. rewrite decide_False by lia.
    destruct (tournament_fold_counts t num_rounds context
                ((length (agents c) * (length (agents c) - 1)) `div` 2 * num_repetitions)%nat
                (tournament_matches (dict_keys (agents c)) num_repetitions) c 0 [])
      as (c' & rs' & Hf & Hle).
    rewrite Hf. exists rs', c'. split; [done|].
    by rewrite tournament_matches_length, Hlen in Hle.
  - intros Hn Hg. rewrite decide_False by lia.
    destruct (tournament_fold_pd num_rounds context
                ((length (agents c) * (length (agents c) - 1)) `div` 2 * num_repetitions)%nat
                (dict_keys (agents c))
                (tournament_matches (dict_keys (agents c)) num_repetitions) c 0 [])
      as (c' & rs' & Hf & Hkeys & Hmeta); [done|done|..].
    { intros a1 a2 rep. apply tournament_matches_registered. }
    rewrite Hf. exists rs', c'. split; [done|]. split; [|split; [done|]].
    + apply (f_equal length) in Hmeta.
      rewrite length_fmap, length_imap, tournament_matches_length, Hlen in Hmeta.
      done.
    + rewrite Hmeta. done.
Qed.

End tournament.

Lemma run_tournament_round_robin_witness :
  ∃ results c',
    run_tournament () (fixed_decision DEFECT) no_tracking (λ _ _, O) two_agent_coordinator
      PRISONERS_DILEMMA 3 2 None = (Ok results, c')
    ∧ length results = 2%nat.
Proof.
  destruct (run_tournament_round_robin (fixed_decision DEFECT) no_tracking (λ _ _, O)
              two_agent_coordinator PRISONERS_DILEMMA 3 2 None)
    as (_ & _ & Hpd).
  destruct Hpd as (results & c' & Hrun & Hlen & _).
  - vm_compute. lia.
  - eexists. reflexivity.
  - exists results, c'. split; [exact Hrun|exact Hlen].
Defined.

(** ** game_agents.py *)

Lemma get_knowledge_to_share_prefix (a : BaseGameAgent) (requester_id : string) :
  get_knowledge_to_share a requester_id `prefix_of` knowledge_base (state a).
Proof.
  unfold get_knowledge_to_share. case_match; [apply prefix_nil|apply prefix_take].
Qed.

Lemma take_prefix_of {A} (n : nat) (l k : list A) :
  l `prefix_of` k → take n l `prefix_of` k.
Proof. intros H. etrans; [apply prefix_take|done]. Qed.

Ltac defect_decision :=
  split; [done|]; split; [reflexivity|]; split; [cbn; lia|];
  split; [apply prefix_nil|]; split; [done|]; cbn; try done.

Section game_agents.
Context {UserContext : Type}.
Context (user_opponent_id : UserContext → option string).

(** X27.  The two fixed-attitude agents.  A CooperativeAgent always
    decides COOPERATE and offers at most three items, a CompetitiveAgent
    decides COOPERATE exactly when the context names a (non-empty)
    opponent whom it trusts above its cooperation threshold, and DEFECT
    otherwise, offering at most one item and none when it defects.  What
    either offers is a prefix of its own knowledge base, nothing when its
    trust in the opponent is below its trust threshold, and neither looks
    at the opponent's history. *)
Theorem fixed_attitude_agents (a : BaseGameAgent)
    (game_context : GameContext UserContext)
    (opponent_history : option (list AgentAction)) :
  (∃ d ks,
     cooperative_make_decision UserContext user_opponent_id a game_context
                               opponent_history = Ok d
     ∧ action d = COOPERATE
     ∧ knowledge_to_share d = Some ks
     ∧ (length ks ≤ 3)%nat
     ∧ ks `prefix_of` knowledge_base (state a)
     ∧ (∀ o, context_opponent_id UserContext user_opponent_id game_context = Some o →
             get_trust_score a o < trust_threshold a → ks = [])
     ∧ (context_opponent_id UserContext user_opponent_id game_context = None →
        ks = [])
     ∧ cooperative_make_decision UserContext user_opponent_id a game_context None
       = Ok d)
  ∧ (∃ d ks,
       competitive_make_decision UserContext user_opponent_id a game_context
                                 opponent_history = Ok d
       ∧ (action d = COOPERATE ↔
            ∃ o, context_opponent_id UserContext user_opponent_id game_context = Some o
                 ∧ o ≠ "" ∧ cooperation_threshold a < get_trust_score a o)
       ∧ (action d ≠ COOPERATE → action d = DEFECT)
       ∧ knowledge_to_share d = Some ks
       ∧ (length ks ≤ 1)%nat
       ∧ ks `prefix_of` knowledge_base (state a)
       ∧ (action d = DEFECT → ks = [])
       ∧ competitive_make_decision UserContext user_opponent_id a game_context None
         = Ok d).
Proof.
  split.
  - unfold cooperative_make_decision. eexists _, _. split; [reflexivity|].
    cbn [action knowledge_to_share]. split; [done|]. split; [done|]. split.
    { rewrite length_take. lia. }
    split.
    { apply take_prefix_of. case_match; [apply get_knowledge_to_share_prefix|].
      apply prefix_nil. }
    split.
    { intros o -> Hlt. unfold get_knowledge_to_share.
      apply Qltb_lt in Hlt. by rewrite Hlt. }
    split; [by intros ->|done].
  - unfold competitive_make_decision.
    destruct (context_opponent_id UserContext user_opponent_id game_context)
      as [o|] eqn:Ho; cbn [str_truthy default andb]; unfold id.
    + destruct (decide (o = "")) as [->|Hne]; cbn [andb].
      * eexists _, _. split; [reflexivity|]. cbn.
        split; [|defect_decision].
        split; [done|]. by intros (o' & [= <-] & Hne & _).
      * destruct (Qgtb (get_trust_score a o) (cooperation_threshold a)) eqn:Ht.
        -- eexists _, _. split; [reflexivity|]. cbn.
           split; [split; [|done]|].
           { intros _. exists o. apply Qgtb_gt in Ht. done. }
           split; [done|]. split; [done|]. split; [rewrite length_take; lia|].
           split; [apply take_prefix_of, get_knowledge_to_share_prefix|done].
        -- eexists _, _. split; [reflexivity|]. cbn.
           split; [|defect_decision].
           split; [done|]. intros (o' & [= <-] & _ & Hgt).
           apply Qgtb_gt in Hgt. congruence.
    + eexists _, _. split; [reflexivity|]. cbn.
      split; [|defect_decision].
      split; [done|]. by intros (o' & [=] & _).
Qed.

Lemma tit_for_tat_make_decision_action (a : BaseGameAgent)
    (game_context : GameContext UserContext)
    (opponent_history : option (list AgentAction)) :
  ∃ d,
    tit_for_tat_make_decision UserContext user_opponent_id a game_context
                              opponent_history = Ok d
    ∧ action d =
        match last_opponent_action a
                (default "" (context_opponent_id UserContext user_opponent_id
                               game_context)) opponent_history with
        | None => COOPERATE
        | Some x => action_class x
        end
    ∧ ∃ ks, knowledge_to_share d = Some ks
            ∧ (length ks ≤ 2)%nat
            ∧ ks `prefix_of` knowledge_base (state a)
            ∧ (action d = DEFECT → ks = []).
Proof.
  unfold tit_for_tat_make_decision.
  destruct (last_opponent_action a _ opponent_history) as [x|].
  - unfold action_class. destruct (is_cooperative x).
    + eexists. split; [reflexivity|]. cbn [action knowledge_to_share].
      split; [done|]. eexists. split; [reflexivity|]. case_decide.
      * split; [rewrite length_take; lia|].
        split; [apply take_prefix_of, get_knowledge_to_share_prefix|done].
      * split; [cbn; lia|]. split; [apply prefix_nil|done].
    + eexists. split; [reflexivity|]. cbn [action knowledge_to_share].
      split; [done|]. eexists. split; [reflexivity|].
      rewrite decide_False by (intros [? _]; done).
      split; [cbn; lia|]. split; [apply prefix_nil|done].
  - eexists. split; [reflexivity|]. cbn [action knowledge_to_share].
    split; [done|]. eexists. split; [reflexivity|]. case_decide.
    * split; [rewrite length_take; lia|].
      split; [apply take_prefix_of, get_knowledge_to_share_prefix|done].
    * split; [cbn; lia|]. split; [apply prefix_nil|done].
Qed.

(** X28.  A TitForTatAgent mirrors.  Given a non-empty opponent history it
    answers the last action in it as the tit-for-tat strategy does in a
    later round: COOPERATE to a cooperative action, DEFECT to any other.
    Given no history (or an empty one) it falls back on its own record of
    the opponent named in the context: it answers the opponent's action
    of the last round it recorded with [update_state], so a defection in
    an earlier game is answered in the first round of the next one; with
    no record of that opponent it cooperates.  It offers at most two
    items of its own knowledge, and none when it defects. *)
Theorem tit_for_tat_agent_mirrors (a : BaseGameAgent)
    (game_context : GameContext UserContext)
    (opponent_history : option (list AgentAction)) :
  ∃ d ks,
    tit_for_tat_make_decision UserContext user_opponent_id a game_context
                              opponent_history = Ok d
    ∧ knowledge_to_share d = Some ks
    ∧ (length ks ≤ 2)%nat
    ∧ ks `prefix_of` knowledge_base (state a)
    ∧ (action d = DEFECT → ks = [])
    ∧ (∀ h x round_number,
         opponent_history = Some (h ++ [x]) → round_number ≠ 0%Z →
         action d = TitForTat.decide round_number (Some x))
    ∧ (opponent_history = None ∨ opponent_history = Some [] →
       ∀ o,
         context_opponent_id UserContext user_opponent_id game_context = Some o →
         o ≠ "" →
         (Forall (λ p, p.1 ≠ o) (cooperation_history (state a)) →
          action d = COOPERATE)
         ∧ ∀ x payoff my_action d',
             tit_for_tat_make_decision UserContext user_opponent_id
               (update_state a o x payoff my_action) game_context opponent_history
             = Ok d' →
             action d' = action_class x).
Proof.
  destruct (tit_for_tat_make_decision_action a game_context opponent_history)
    as (d & Hd & Hact & ks & Hks & Hlen & Hpre & Hdef).
  exists d, ks. split; [done|]. split; [done|]. split; [done|]. split; [done|].
  split; [done|]. split.
  - intros h x r -> Hr. rewrite Hact.
    assert (Hlast : ∀ o, last_opponent_action a o (Some (h ++ [x])) = Some x).
    { intros o. unfold last_opponent_action. cbn [default]. unfold id.
      destruct h as [|y h']; [done|].
      change (last ((y :: h') ++ [x]) = Some x). apply last_snoc. }
    rewrite Hlast. unfold TitForTat.decide, action_class.
    by rewrite decide_False.
  - intros Hnone o Ho Hne. split.
    + intros Hrec. rewrite Hact, Ho. cbn [default]. unfold id.
      unfold last_opponent_action.
      assert (Hh : default [] opponent_history = []) by by destruct Hnone as [->| ->].
      rewrite Hh, decide_False by done.
      assert (Hfil : filter (λ p : string * AgentAction, p.1 = o)
                            (cooperation_history (state a)) = []).
      { clear -Hrec. induction Hrec as [|p l Hp _ IH]; [done|].
        by rewrite filter_cons_False. }
      by rewrite Hfil.
    + intros x payoff my_action d' Hd'.
      destruct (tit_for_tat_make_decision_action
                  (update_state a o x payoff my_action) game_context
                  opponent_history) as (d2 & Hd2 & Hact2 & _).
      rewrite Hd' in Hd2. injection Hd2 as <-.
      rewrite Hact2, Ho. cbn [default]. unfold id. unfold last_opponent_action.
      assert (Hh : default [] opponent_history = []) by by destruct Hnone as [->| ->].
      rewrite Hh, decide_False by done.
      unfold update_state. cbn [state set_state cooperation_history].
      rewrite filter_app, filter_cons_True by done.
      rewrite filter_nil, fmap_app. cbn [fmap list_fmap snd].
      by rewrite last_snoc.
Qed.

End game_agents.

Section tit_for_tat_game.
Context {UserContext : Type}.
Context (user_opponent_id : UserContext → option string).
Context (make_decision :
  BaseGameAgent → GameContext UserContext → option (list AgentAction) → Result GameDecision).
Context (tracking : Tracking UserContext).

Lemma receive_from_record (d : GameDecision) (a : BaseGameAgent) :
  strategy (receive_from d a) = strategy a
  ∧ cooperation_history (state (receive_from d a)) = cooperation_history (state a).
Proof. unfold receive_from. by destruct (nonempty _). Qed.

Lemma tit_for_tat_answers_cooperators (a : BaseGameAgent)
    (game_context : GameContext UserContext) (hist : list AgentAction) :
  Forall (λ p, is_cooperative p.2 = true) (cooperation_history (state a)) →
  Forall (λ x, is_cooperative x = true) hist →
  ∃ d,
    tit_for_tat_make_decision UserContext user_opponent_id a game_context (Some hist)
    = Ok d
    ∧ action d = COOPERATE.
Proof.
  intros Hrec Hhist.
  destruct (tit_for_tat_make_decision_action user_opponent_id a game_context
              (Some hist)) as (d & Hd & Hact & _).
  exists d. split; [done|]. rewrite Hact.
  destruct (last_opponent_action a _ (Some hist)) as [x|] eqn:Hlast; [|done].
  assert (Hx : is_cooperative x = true); [|unfold action_class; by rewrite Hx].
  unfold last_opponent_action in Hlast. cbn [default] in Hlast. unfold id in Hlast.
  destruct hist as [|y hist'].
  - case_decide; [done|].
    apply last_Some_elem_of, list_elem_of_fmap in Hlast as ([o x'] & -> & Hin).
    apply list_elem_of_filter in Hin as [_ Hin].
    by apply (proj1 (Forall_forall _ _) Hrec) in Hin.
  - apply last_Some_elem_of in Hlast.
    by apply (proj1 (Forall_forall _ _) Hhist) in Hlast.
Qed.

Lemma pd_decide_Ok (context : option UserContext) (rn : nat)
    (a1 a2 : BaseGameAgent) (context1 context2 : GameContext UserContext)
    (h1 h2 : list AgentAction) (d1 d2 : GameDecision) :
  (∀ s, from_option (context_enable_tracking tracking) false context = true →
        context ≫= context_session_id tracking = Some s →
        s ≠ "" → s ∈ active_sessions tracking) →
  make_decision a1 context1 (Some h2) = Ok d1 →
  make_decision a2 context2 (Some h1) = Ok d2 →
  pd_decide UserContext make_decision tracking context rn a1 a2
            context1 context2 h1 h2 = Ok (d1, d2).
Proof.
  intros Htrack Hd1 Hd2. unfold pd_decide, make_decision_with_tracking.
  rewrite Hd1, Hd2. cbn.
  destruct (from_option _ false context) eqn:Hon; [|done].
  destruct (context ≫= context_session_id tracking) as [s|] eqn:Hs; [|done].
  cbn. case_bool_decide as Hne; [|done]. cbn.
  unfold record_turn. by rewrite decide_True by by apply Htrack.
Qed.

Lemma fold_cumulative_replicate (pc : PayoffCalculator) (n : nat)
    (x y : AgentAction) (acc : Q * Q) :
  fold_left (λ (tot : Q * Q) (h : AgentAction * AgentAction),
               let '(payoff1, payoff2) := calculate_round_payoffs pc h.1 h.2 in
               (tot.1 + payoff1, tot.2 + payoff2))
            (replicate n (x, y)) acc
  = (fold_left Qplus (replicate n (calculate_round_payoffs pc x y).1) acc.1,
     fold_left Qplus (replicate n (calculate_round_payoffs pc x y).2) acc.2).
Proof.
  revert acc. induction n as [|n IH]; intros acc; cbn [replicate fold_left].
  - by destruct acc.
  - cbn [fst snd]. destruct (calculate_round_payoffs pc x y) as [p1 p2] eqn:Hp.
    by rewrite IH.
Qed.

Lemma tit_for_tat_round (context : option UserContext) (g : PrisonersDilemma)
    (a1 a2 : BaseGameAgent) :
  (∀ a gc h, strategy a = "tit_for_tat" →
     make_decision a gc h
     = tit_for_tat_make_decision UserContext user_opponent_id a gc h) →
  (∀ s, from_option (context_enable_tracking tracking) false context = true →
        context ≫= context_session_id tracking = Some s →
        s ≠ "" → s ∈ active_sessions tracking) →
  strategy a1 = "tit_for_tat" → strategy a2 = "tit_for_tat" →
  Forall (λ h, is_cooperative h.1 = true ∧ is_cooperative h.2 = true)
         (game_history g) →
  Forall (λ p, is_cooperative p.2 = true) (cooperation_history (state a1)) →
  Forall (λ p, is_cooperative p.2 = true) (cooperation_history (state a2)) →
  ∃ r g' b1 b2,
    pd_play_round UserContext make_decision tracking context g [a1; a2]
    = (Ok r, (g', [b1; b2]))
    ∧ game_history g' = game_history g ++ [(COOPERATE, COOPERATE)]
    ∧ strategy b1 = "tit_for_tat" ∧ strategy b2 = "tit_for_tat"
    ∧ name b1 = name a1 ∧ name b2 = name a2
    ∧ cooperation_history (state b1)
      = cooperation_history (state a1) ++ [(name a2, COOPERATE)]
    ∧ cooperation_history (state b2)
      = cooperation_history (state a2) ++ [(name a1, COOPERATE)].
Proof.
  intros Hmd Htrack Hs1 Hs2 Hg Hr1 Hr2. unfold pd_play_round.
  assert (H1 : Forall (λ x, is_cooperative x = true) (game_history (next_round g)).*2).
  { apply Forall_fmap. eapply Forall_impl; [exact Hg|]. by intros h [_ ?]. }
  assert (H2 : Forall (λ x, is_cooperative x = true) (game_history (next_round g)).*1).
  { apply Forall_fmap. eapply Forall_impl; [exact Hg|]. by intros h [? _]. }
  destruct (tit_for_tat_answers_cooperators a1
              (PDContext UserContext (round_number (base (next_round g))) (name a2)
                 (reward_matrix (next_round g)) context) _ Hr1 H1) as (d1 & Hd1 & Hc1).
  destruct (tit_for_tat_answers_cooperators a2
              (PDContext UserContext (round_number (base (next_round g))) (name a1)
                 (reward_matrix (next_round g)) context) _ Hr2 H2) as (d2 & Hd2 & Hc2).
  rewrite <- Hmd in Hd1 by done. rewrite <- Hmd in Hd2 by done.
  cbv zeta. rewrite (pd_decide_Ok context _ a1 a2 _ _ _ _ d1 d2 Htrack Hd1 Hd2).
  rewrite Hc1, Hc2.
  destruct (calculate_round_payoffs _ COOPERATE COOPERATE) as [p1 p2].
  eexists _, _, _, _. split; [reflexivity|].
  cbn [game_history].
  rewrite !receive_from_name.
  destruct (receive_from_record d2 (update_state a1 (name a2) COOPERATE p1 COOPERATE))
    as [-> ->].
  destruct (receive_from_record d1 (update_state a2 (name a1) COOPERATE p2 COOPERATE))
    as [-> ->].
  done.
Qed.

Lemma tit_for_tat_rounds (context : option UserContext) (num_rounds : nat)
    (g : PrisonersDilemma) (a1 a2 : BaseGameAgent) :
  (∀ a gc h, strategy a = "tit_for_tat" →
     make_decision a gc h
     = tit_for_tat_make_decision UserContext user_opponent_id a gc h) →
  (∀ s, from_option (context_enable_tracking tracking) false context = true →
        context ≫= context_session_id tracking = Some s →
        s ≠ "" → s ∈ active_sessions tracking) →
  strategy a1 = "tit_for_tat" → strategy a2 = "tit_for_tat" →
  Forall (λ h, is_cooperative h.1 = true ∧ is_cooperative h.2 = true)
         (game_history g) →
  Forall (λ p, is_cooperative p.2 = true) (cooperation_history (state a1)) →
  Forall (λ p, is_cooperative p.2 = true) (cooperation_history (state a2)) →
  ∃ rs g' b1 b2,
    play_rounds (pd_play_round UserContext make_decision tracking context)
                num_rounds g [a1; a2] = (Ok rs, (g', [b1; b2]))
    ∧ game_history g' = game_history g ++ replicate num_rounds (COOPERATE, COOPERATE)
    ∧ cooperation_history (state b1)
      = cooperation_history (state a1) ++ replicate num_rounds (name a2, COOPERATE)
    ∧ cooperation_history (state b2)
      = cooperation_history (state a2) ++ replicate num_rounds (name a1, COOPERATE).
Proof.
  intros Hmd Htrack. revert g a1 a2.
  induction num_rounds as [|n IH]; intros g a1 a2 Hs1 Hs2 Hg Hr1 Hr2;
    cbn [play_rounds replicate].
  - exists [], g, a1, a2. by rewrite !app_nil_r.
  - destruct (tit_for_tat_round context g a1 a2 Hmd Htrack Hs1 Hs2 Hg Hr1 Hr2)
      as (r & g1 & b1 & b2 & Hround & Hh & Ht1 & Ht2 & Hn1 & Hn2 & Hc1 & Hc2).
    rewrite Hround.
    destruct (IH g1 b1 b2) as (rs & g' & c1 & c2 & Hrest & Hh' & Hc1' & Hc2');
      try done.
    { rewrite Hh. apply Forall_app. split; [done|]. by repeat constructor. }
    { rewrite Hc1. apply Forall_app. split; [done|]. by repeat constructor. }
    { rewrite Hc2. apply Forall_app. split; [done|]. by repeat constructor. }
    rewrite Hrest. exists (r :: rs), g', c1, c2. split; [done|].
    rewrite Hh', Hc1', Hc2', Hh, Hc1, Hc2, Hn1, Hn2, <- !app_assoc. done.
Qed.

(** X30.  Two TitForTatAgents never start a fight.  When both agents of a
    Prisoner's Dilemma decide as TitForTatAgents, nothing on record is a
    defection (neither in the game's round history nor in the agents' own
    records), and the caller's context does not ask for conversation
    tracking on a session that is not open in the tracker (a failing
    tracker makes both agents defect), every round of a full game is
    mutual cooperation: the history gains [num_rounds] times
    (COOPERATE, COOPERATE), each agent records the other's cooperation
    once per round, and each total is the agent's payoff for mutual
    cooperation added [num_rounds] times to 0. *)
Theorem tit_for_tat_agents_cooperate (context : option UserContext)
    (g : PrisonersDilemma) (a1 a2 : BaseGameAgent) (num_rounds : nat) :
  (∀ a gc h, strategy a = "tit_for_tat" →
     make_decision a gc h
     = tit_for_tat_make_decision UserContext user_opponent_id a gc h) →
  (∀ s, from_option (context_enable_tracking tracking) false context = true →
        context ≫= context_session_id tracking = Some s →
        s ≠ "" → s ∈ active_sessions tracking) →
  strategy a1 = "tit_for_tat" → strategy a2 = "tit_for_tat" →
  name a1 ≠ name a2 →
  Forall (λ h, is_cooperative h.1 = true ∧ is_cooperative h.2 = true)
         (game_history g) →
  Forall (λ p, is_cooperative p.2 = true) (cooperation_history (state a1)) →
  Forall (λ p, is_cooperative p.2 = true) (cooperation_history (state a2)) →
  ∃ res g' a1' a2',
    pd_play_full_game UserContext make_decision tracking context g [a1; a2] num_rounds
      = (Ok res, (g', [a1'; a2']))
    ∧ game_history g' = game_history g ++ replicate num_rounds (COOPERATE, COOPERATE)
    ∧ cooperation_history (state a1')
      = cooperation_history (state a1) ++ replicate num_rounds (name a2, COOPERATE)
    ∧ cooperation_history (state a2')
      = cooperation_history (state a2) ++ replicate num_rounds (name a1, COOPERATE)
    ∧ actions_history res
      = replicate num_rounds (COOPERATE, COOPERATE)
          ≫= (λ h, [(name a1, h.1); (name a2, h.2)])
    ∧ payoffs res
      = [(name a1,
          fold_left Qplus
            (replicate num_rounds (cooperate_cooperate (reward_matrix g)).1) 0);
         (name a2,
          fold_left Qplus
            (replicate num_rounds (cooperate_cooperate (reward_matrix g)).2) 0)].
Proof.
  intros Hmd Htrack Hs1 Hs2 Hne Hg Hr1 Hr2. unfold pd_play_full_game.
  assert (Hg' : Forall (λ h, is_cooperative h.1 = true ∧ is_cooperative h.2 = true)
                       (game_history (reset g))) by exact Hg.
  destruct (tit_for_tat_rounds context num_rounds (reset g) a1 a2 Hmd Htrack Hs1 Hs2
              Hg' Hr1 Hr2)
    as (rs & g' & b1 & b2 & Hrun & Hh & Hc1 & Hc2).
  destruct (pd_play_rounds_shape make_decision tracking context num_rounds (reset g)
              a1 a2 Hne)
    as (rs2 & g2 & c1 & c2 & played & Hrun2 & _ & _ & _ & _ & Hh2 & _ & Hps & Has).
  rewrite Hrun in Hrun2. injection Hrun2 as <- <- <- <-.
  rewrite Hh in Hh2. apply app_inv_head in Hh2. subst played.
  rewrite Hrun.
  change (reward_matrix (reset g)) with (reward_matrix g) in Hps.
  destruct (pd_final_result_two g' a1 a2 num_rounds rs (reward_matrix g)
              (replicate num_rounds (COOPERATE, COOPERATE)) Hne Hps Has)
    as (res & Hfinal & _ & _ & Hact & Hpay & _).
  rewrite Hfinal.
  eexists res, (record_result g' res), b1, b2.
  split; [done|]. split; [done|]. split; [done|]. split; [done|].
  split; [done|]. rewrite Hpay. unfold calculate_cumulative_payoffs.
  by rewrite fold_cumulative_replicate.
Qed.

End tit_for_tat_game.

Lemma tit_for_tat_agents_cooperate_witness :
  ∃ res st,
    pd_play_full_game () (tit_for_tat_make_decision () (λ _, None)) no_tracking None
      (new_PrisonersDilemma None) [TitForTatAgent "Ann"; TitForTatAgent "Ben"] 4
    = (Ok res, st)
    ∧ payoffs res = [("Ann", 0 + 3 + 3 + 3 + 3); ("Ben", 0 + 3 + 3 + 3 + 3)].
Proof.
  destruct (tit_for_tat_agents_cooperate (λ _ : (), None)
              (tit_for_tat_make_decision () (λ _, None)) no_tracking None
              (new_PrisonersDilemma None)
              (TitForTatAgent "Ann") (TitForTatAgent "Ben") 4)
    as (res & g' & a1' & a2' & Hrun & _ & _ & _ & _ & Hpay).
  - done.
  - done.
  - reflexivity.
  - reflexivity.
  - discriminate.
  - constructor.
  - constructor.
  - constructor.
  - exists res, (g', [a1'; a2']). split; [exact Hrun|exact Hpay].
Defined.

(** ** coordinator.py: creating agents *)

(** X29.  Creating agents.  [create_agent] with an agent type other than
    the five rule-based ones raises a ValueError and registers nothing.
    [create_standard_agent_set] never fails and registers a new agent of
    the matching class under each of the five standard names, replacing
    whatever was registered under these names and leaving every other
    registration and the games alone; on an empty registry it leaves
    exactly these five agents, in the order of its list of
    configurations. *)
Theorem create_standard_agent_set_spec (c : GameCoordinator) :
  (∀ agent_type n,
     agent_type ∉ ["cooperative"; "competitive"; "tit_for_tat"; "adaptive"; "random"] →
     ∃ msg, create_agent c agent_type n = (Raise (ValueError msg), c))
  ∧ ∃ c',
      create_standard_agent_set c = (Ok (), c')
      ∧ games c' = games c
      ∧ dict_lookup (agents c') "Alice_Cooperative"
        = Some (CooperativeAgent "Alice_Cooperative")
      ∧ dict_lookup (agents c') "Bob_Competitive"
        = Some (CompetitiveAgent "Bob_Competitive")
      ∧ dict_lookup (agents c') "Charlie_TitForTat"
        = Some (TitForTatAgent "Charlie_TitForTat")
      ∧ dict_lookup (agents c') "Diana_Adaptive"
        = Some (AdaptiveAgent "Diana_Adaptive")
      ∧ dict_lookup (agents c') "Eve_Random" = Some (RandomAgent "Eve_Random")
      ∧ (∀ k, k ∉ ["Alice_Cooperative"; "Bob_Competitive"; "Charlie_TitForTat";
                   "Diana_Adaptive"; "Eve_Random"] →
              dict_lookup (agents c') k = dict_lookup (agents c) k)
      ∧ (NoDup (dict_keys (agents c)) → NoDup (dict_keys (agents c')))
      ∧ (agents c = [] →
         dict_keys (agents c')
         = ["Alice_Cooperative"; "Bob_Competitive"; "Charlie_TitForTat";
            "Diana_Adaptive"; "Eve_Random"]).
Proof.
  split.
  - intros agent_type n Hty. unfold create_agent.
    destruct (dict_lookup agent_classes agent_type) as [cls|] eqn:Hcls; [|by eexists].
    exfalso. apply Hty.
    apply (dict_lookup_is_Some agent_classes agent_type). by eexists.
  - eexists. split; [reflexivity|]. cbn [games agents register_agent].
    split; [done|].
    split.
    { rewrite !dict_lookup_set_ne by done. apply dict_lookup_set_eq. }
    split.
    { rewrite !dict_lookup_set_ne by done. apply dict_lookup_set_eq. }
    split.
    { rewrite !dict_lookup_set_ne by done. apply dict_lookup_set_eq. }
    split.
    { rewrite !dict_lookup_set_ne by done. apply dict_lookup_set_eq. }
    split; [apply dict_lookup_set_eq|].
    split.
    { intros k Hk. rewrite !dict_lookup_set_ne; [done|..];
        intros <-; apply Hk; set_solver. }
    split.
    { intros Hnd. by repeat apply dict_keys_NoDup_set. }
    intros ->. reflexivity.
Qed.
